(** * neffos: the connection state machine of [_examples/advanced/ws/conn.go]

    A shallow embedding of [Conn] and its methods, and the properties of
    the connection engine proved over it.

    One goroutine is run at a time.  The fields of the Go struct are the
    fields of [World] that carry the same names; what the other goroutines
    and the collaborators (socket, clock, contexts, user handlers) contribute
    is read from scripts stored next to them, and everything the running
    goroutine does to the outside is appended to [trace].  A call that can
    only go on when another goroutine acts (a send on a channel nobody
    receives from, a lock that is already held, a select with nothing ready)
    ends in [Blocks]. *)

From Stdlib Require Import ZArith Ascii.
From stdpp Require Import gmap strings list fin_maps pretty.

Open Scope Z_scope.

(** ** Data model *)

(** Go's [[]byte] and [string] are both sequences of 8-bit bytes, as is
    Rocq's [string] (a list of [ascii]). *)
Abbreviation bytes := string (only parsing).

(** The [error] values the connection produces or inspects. *)
Inductive error : Type :=
  | ErrBadNamespace
  | ErrWrite
  | CloseError (Code : Z) (err : error)
  | DeadlineExceeded
  | Canceled
  | OtherError (text : string).

(** Modelled from the spec: the [Message] struct is declared outside
    [conn.go]; these are the fields the spec lists (section 3). *)
Record Message : Type := mkMessage {
  Namespace : string;
  Room : string;
  Event : string;
  Body : bytes;
  Err : option error;
  wait : string;
  IsForced : bool;
  IsLocal : bool;
  isNoOp : bool;
  isInvalid : bool;
}.

(** [Message{}] *)
Definition Message0 : Message :=
  mkMessage "" "" "" "" None "" false false false false.

Definition set_Namespace (v : string) (m : Message) : Message :=
  mkMessage v (Room m) (Event m) (Body m) (Err m) (wait m)
            (IsForced m) (IsLocal m) (isNoOp m) (isInvalid m).
Definition set_Event (v : string) (m : Message) : Message :=
  mkMessage (Namespace m) (Room m) v (Body m) (Err m) (wait m)
            (IsForced m) (IsLocal m) (isNoOp m) (isInvalid m).
Definition set_Err (v : option error) (m : Message) : Message :=
  mkMessage (Namespace m) (Room m) (Event m) (Body m) v (wait m)
            (IsForced m) (IsLocal m) (isNoOp m) (isInvalid m).
Definition set_wait (v : string) (m : Message) : Message :=
  mkMessage (Namespace m) (Room m) (Event m) (Body m) (Err m) v
            (IsForced m) (IsLocal m) (isNoOp m) (isInvalid m).
Definition set_IsLocal (v : bool) (m : Message) : Message :=
  mkMessage (Namespace m) (Room m) (Event m) (Body m) (Err m) (wait m)
            (IsForced m) v (isNoOp m) (isInvalid m).
Definition set_isNoOp (v : bool) (m : Message) : Message :=
  mkMessage (Namespace m) (Room m) (Event m) (Body m) (Err m) (wait m)
            (IsForced m) (IsLocal m) v (isInvalid m).

(** Modelled from the spec: the event table of a namespace is declared
    outside [conn.go]; the connection only calls [fireEvent] on it and looks
    at the error that comes back, so a table is the verdict of [fireEvent]
    on each message.  Handlers are taken not to call back into the [Conn]. *)
Definition Events : Type := Message → option error.

(** Modelled from the spec: [NSConn] is declared outside [conn.go]; the
    connection reads its [namespace], [events] and [rooms] (a map used as a
    set of room names). *)
Record NSConn : Type := mkNSConn {
  namespace : string;
  events : Events;
  rooms : gset string;
}.

(** Modelled from the spec: [newNSConn] builds the view of a namespace that
    has just been connected; no room is joined yet. *)
Definition newNSConn (ns : string) (ev : Events) : NSConn := mkNSConn ns ev ∅.

(** A [context.Context]: its deadline, if it has one. *)
Record Context : Type := mkContext { Deadline : option Z }.

(** What the [select] at the end of [Ask] picks. *)
Inductive Select : Type :=
  | CtxDone (err : error)
  | Receive (reply : Message).

(** What the running goroutine does to the outside, in order.  The
    insertions into [connectedNamespaces] and the deletions from it are
    recorded too: the handlers and the other goroutines can look at the map,
    so where a change falls between the calls is part of the behaviour. *)
Inductive Action : Type :=
  | WriteText (body : bytes)
  | FireEvent (ns : string) (msg : Message)
  | ChanSend (ch : nat) (msg : Message)
  | NsInsert (k : string)
  | NsDelete (k : string)
  | CloseCloseCh
  | ServerDisconnect
  | NetConnClose.

(** The connection and what surrounds it.  Of the struct, [socket] is
    replaced by the script of its answers and the trace, [closeCh] by the
    action that closes it, and the timeouts are left out (they are passed on
    to the socket).  [waitingMessagesMutex], [roomsMu] and the mutex of the
    reader's queue guard sections that call nothing, and are left out too. *)
Record World : Type := mkWorld {
  (* struct Conn *)
  id : string;
  server : bool;                               (* c.server != nil *)
  namespaces : gmap string Events;
  acknowledged : N;
  connectedNamespaces : gmap string NSConn;
  connectedNamespacesMutex : bool;             (* held for writing *)
  waitingMessages : gmap string nat;           (* token -> channel *)
  closed : N;
  (* the collaborators *)
  writeResults : list (option error);  (* what the next WriteText calls return *)
  clock : nat → Z;                     (* successive time.Now(), in ns *)
  clockReads : nat;
  nextChan : nat;                      (* the channel the next make() yields *)
  receivers : gset nat;                (* channels a goroutine receives from *)
  selects : list Select;               (* what the next selects pick *)
  trace : list Action;
}.

Definition set_id (v : string) (w : World) : World :=
  mkWorld v (server w) (namespaces w) (acknowledged w) (connectedNamespaces w)
          (connectedNamespacesMutex w) (waitingMessages w) (closed w)
          (writeResults w) (clock w) (clockReads w) (nextChan w) (receivers w)
          (selects w) (trace w).
Definition set_acknowledged (v : N) (w : World) : World :=
  mkWorld (id w) (server w) (namespaces w) v (connectedNamespaces w)
          (connectedNamespacesMutex w) (waitingMessages w) (closed w)
          (writeResults w) (clock w) (clockReads w) (nextChan w) (receivers w)
          (selects w) (trace w).
Definition set_connectedNamespaces (v : gmap string NSConn) (w : World) : World :=
  mkWorld (id w) (server w) (namespaces w) (acknowledged w) v
          (connectedNamespacesMutex w) (waitingMessages w) (closed w)
          (writeResults w) (clock w) (clockReads w) (nextChan w) (receivers w)
          (selects w) (trace w).
Definition set_connectedNamespacesMutex (v : bool) (w : World) : World :=
  mkWorld (id w) (server w) (namespaces w) (acknowledged w) (connectedNamespaces w)
          v (waitingMessages w) (closed w)
          (writeResults w) (clock w) (clockReads w) (nextChan w) (receivers w)
          (selects w) (trace w).
Definition set_waitingMessages (v : gmap string nat) (w : World) : World :=
  mkWorld (id w) (server w) (namespaces w) (acknowledged w) (connectedNamespaces w)
          (connectedNamespacesMutex w) v (closed w)
          (writeResults w) (clock w) (clockReads w) (nextChan w) (receivers w)
          (selects w) (trace w).
Definition set_closed (v : N) (w : World) : World :=
  mkWorld (id w) (server w) (namespaces w) (acknowledged w) (connectedNamespaces w)
          (connectedNamespacesMutex w) (waitingMessages w) v
          (writeResults w) (clock w) (clockReads w) (nextChan w) (receivers w)
          (selects w) (trace w).
Definition set_writeResults (v : list (option error)) (w : World) : World :=
  mkWorld (id w) (server w) (namespaces w) (acknowledged w) (connectedNamespaces w)
          (connectedNamespacesMutex w) (waitingMessages w) (closed w)
          v (clock w) (clockReads w) (nextChan w) (receivers w)
          (selects w) (trace w).
Definition set_clockReads (v : nat) (w : World) : World :=
  mkWorld (id w) (server w) (namespaces w) (acknowledged w) (connectedNamespaces w)
          (connectedNamespacesMutex w) (waitingMessages w) (closed w)
          (writeResults w) (clock w) v (nextChan w) (receivers w)
          (selects w) (trace w).
Definition set_nextChan (v : nat) (w : World) : World :=
  mkWorld (id w) (server w) (namespaces w) (acknowledged w) (connectedNamespaces w)
          (connectedNamespacesMutex w) (waitingMessages w) (closed w)
          (writeResults w) (clock w) (clockReads w) v (receivers w)
          (selects w) (trace w).
Definition set_receivers (v : gset nat) (w : World) : World :=
  mkWorld (id w) (server w) (namespaces w) (acknowledged w) (connectedNamespaces w)
          (connectedNamespacesMutex w) (waitingMessages w) (closed w)
          (writeResults w) (clock w) (clockReads w) (nextChan w) v
          (selects w) (trace w).
Definition set_selects (v : list Select) (w : World) : World :=
  mkWorld (id w) (server w) (namespaces w) (acknowledged w) (connectedNamespaces w)
          (connectedNamespacesMutex w) (waitingMessages w) (closed w)
          (writeResults w) (clock w) (clockReads w) (nextChan w) (receivers w)
          v (trace w).
Definition set_trace (v : list Action) (w : World) : World :=
  mkWorld (id w) (server w) (namespaces w) (acknowledged w) (connectedNamespaces w)
          (connectedNamespacesMutex w) (waitingMessages w) (closed w)
          (writeResults w) (clock w) (clockReads w) (nextChan w) (receivers w)
          (selects w) v.

(** ** The monad of one goroutine *)

Inductive Outcome (A : Type) : Type :=
  | Returns (a : A)
  | Blocks.
Arguments Returns {A} a.
Arguments Blocks {A}.

Definition M (A : Type) : Type := World → Outcome A * World.

Definition ret {A} (a : A) : M A := λ w, (Returns a, w).

Definition bind {A B} (m : M A) (k : A → M B) : M B :=
  λ w, match m w with
       | (Returns a, w') => k a w'
       | (Blocks, w') => (Blocks, w')
       end.

Notation "x <- m ; k" := (bind m (λ x, k))
  (at level 20, m at level 100, k at level 200, only parsing).
Notation "' p <- m ; k" := (bind m (λ p, k))
  (at level 20, p pattern, m at level 100, k at level 200, only parsing).

Definition block {A} : M A := λ w, (Blocks, w).
Definition get {A} (f : World → A) : M A := λ w, (Returns (f w), w).
Definition modify (f : World → World) : M unit := λ w, (Returns tt, f w).
Definition emit (a : Action) : M unit := modify (λ w, set_trace (trace w ++ [a]) w).

(** ** The collaborators

    What [conn.go] uses and does not define: the reserved event names, the
    wire format, the classification of errors, the room replies of [NSConn],
    and the order in which [range] walks the map of connected namespaces
    (Go leaves it open; every key is visited once). *)
Class Collaborators : Type := {
  OnNamespaceConnect : string;
  OnNamespaceConnected : string;
  OnNamespaceDisconnect : string;
  OnRoomJoin : string;
  OnRoomLeave : string;
  OnRoomLeft : string;
  serializeMessage : Message → bytes;
  deserializeMessage : bytes → Message;
  IsCloseError : error → bool;
  isManualCloseError : error → bool;
  replyRoomJoin : NSConn → Message → M unit;
  replyRoomLeave : NSConn → Message → M unit;
  rangeNamespaces : gmap string NSConn → list string;
  rangeNamespaces_perm : ∀ m, rangeNamespaces m ≡ₚ (map_to_list m).*1;
}.

Section Conn.
Context `{Collaborators}.

(** Modelled from the spec: the predicates of [Message] over [Event], each
    named for the reserved event it tests. *)
Definition isConnect (m : Message) : bool := String.eqb (Event m) OnNamespaceConnect.
Definition isDisconnect (m : Message) : bool := String.eqb (Event m) OnNamespaceDisconnect.
Definition isRoomJoin (m : Message) : bool := String.eqb (Event m) OnRoomJoin.
Definition isRoomLeft (m : Message) : bool := String.eqb (Event m) OnRoomLeft.

(** *** Primitives *)

(** [ns.events.fireEvent(ns, msg)] *)
Definition fireEvent (ns : NSConn) (msg : Message) : M (option error) :=
  _ <- emit (FireEvent (namespace ns) msg);
  ret (events ns msg).

(** [c.socket.WriteText(body, c.writeTimeout)] *)
Definition socketWriteText (body : bytes) : M (option error) :=
  _ <- emit (WriteText body);
  r <- get (λ w, head (writeResults w));
  _ <- modify (λ w, set_writeResults (tail (writeResults w)) w);
  ret (default None r).

(** [time.Now()], in nanoseconds since the Unix epoch *)
Definition timeNow : M Z :=
  n <- get clockReads;
  t <- get (λ w, clock w n);
  _ <- modify (set_clockReads (S n));
  ret t.

(** [Time.UnixNano]: the reading as an [int64] *)
Definition UnixNano (t : Z) : Z := (t + 2 ^ 63) `mod` 2 ^ 64 - 2 ^ 63.

(** [strconv.FormatInt(i, 10)] *)
Definition FormatInt (i : Z) : string := pretty i.

(** [make(chan Message)] *)
Definition makeChan : M nat :=
  ch <- get nextChan;
  _ <- modify (set_nextChan (S ch));
  ret ch.

(** [ch <- msg] on an unbuffered channel: it goes through when a goroutine
    is receiving from [ch], and that goroutine takes the one message. *)
Definition chanSend (ch : nat) (msg : Message) : M unit :=
  λ w, if bool_decide (ch ∈ receivers w)
       then (Returns tt,
             set_receivers (receivers w ∖ {[ch]})
                           (set_trace (trace w ++ [ChanSend ch msg]) w))
       else (Blocks, w).

(** [c.connectedNamespacesMutex]: the lock is not re-entrant. *)
Definition nsLock : M unit :=
  λ w, if connectedNamespacesMutex w then (Blocks, w)
       else (Returns tt, set_connectedNamespacesMutex true w).
Definition nsUnlock : M unit := modify (set_connectedNamespacesMutex false).
Definition nsRLock : M unit :=
  λ w, if connectedNamespacesMutex w then (Blocks, w) else (Returns tt, w).
Definition nsRUnlock : M unit := ret tt.

(** [c.connectedNamespaces[k] = ns] and [delete(c.connectedNamespaces, k)] *)
Definition mapInsert (k : string) (ns : NSConn) : M unit :=
  _ <- modify (λ w, set_connectedNamespaces (<[k := ns]> (connectedNamespaces w)) w);
  emit (NsInsert k).

Definition mapDelete (k : string) : M unit :=
  _ <- modify (λ w, set_connectedNamespaces (delete k (connectedNamespaces w)) w);
  emit (NsDelete k).

(** [for namespace := range c.connectedNamespaces]: the keys in the order
    [range] picks; a key removed before it is reached is not produced. The
    body answers [Some r] to return [r] from the enclosing function. *)
Fixpoint rangeLoop {R} (keys : list string)
    (body : string → NSConn → M (option R)) : M (option R) :=
  match keys with
  | [] => ret None
  | k :: keys' =>
      cur <- get (λ w, connectedNamespaces w !! k);
      match cur with
      | None => rangeLoop keys' body
      | Some ns =>
          r <- body k ns;
          match r with
          | Some e => ret (Some e)
          | None => rangeLoop keys' body
          end
      end
  end.

Definition rangeConnected {R} (body : string → NSConn → M (option R)) : M (option R) :=
  keys <- get (λ w, rangeNamespaces (connectedNamespaces w));
  rangeLoop keys body.

(** *** Methods of [Conn] *)

Definition IsClient : M bool := get (λ w, negb (server w)).

Definition isAcknowledged : M bool := get (λ w, (0 <? acknowledged w)%N).

Definition IsClosed : M bool := get (λ w, (0 <? closed w)%N).

(** [c.Namespace(namespace)] *)
Definition Conn_Namespace (ns : string) : M (option NSConn) :=
  _ <- nsRLock;
  r <- get (λ w, connectedNamespaces w !! ns);
  _ <- nsRUnlock;
  ret r.

(** [atomic.CompareAndSwapUint32(c.closed, 0, 1)] *)
Definition casClosed : M bool :=
  λ w, if (closed w =? 0)%N then (Returns true, set_closed 1 w)
       else (Returns false, w).

(** The body of the loop of [Close], for the entry [k], [ns] of the map. *)
Definition closeOne (k : string) (ns : NSConn) : M (option unit) :=
  let disconnectMsg :=
    mkMessage "" "" OnNamespaceDisconnect "" None "" true true false false in
  _ <- fireEvent ns (set_Namespace (namespace ns) disconnectMsg);
  _ <- mapDelete k;
  ret None.

(** The goroutine started at the end sends the [Conn] to the server's
    [disconnect] channel; it is recorded as an action. *)
Definition Close : M unit :=
  won <- casClosed;
  if won then
    _ <- emit CloseCloseCh;
    _ <- nsLock;
    _ <- rangeConnected closeOne;
    _ <- nsUnlock;
    _ <- modify (set_waitingMessages ∅);
    _ <- modify (set_acknowledged 0%N);
    client <- IsClient;
    _ <- (if negb client then emit ServerDisconnect else ret tt);
    emit NetConnClose
  else ret tt.

Definition Write (msg : Message) : M bool :=
  cl <- IsClosed;
  if cl then ret false else
  pass <- (if negb (isConnect msg) && negb (isDisconnect msg) then
             ns <- Conn_Namespace (Namespace msg);
             match ns with
             | None => ret false
             | Some ns =>
                 if negb (String.eqb (Room msg) "")
                    && negb (isRoomJoin msg) && negb (isRoomLeft msg)
                 then ret (bool_decide (Room msg ∈ rooms ns))
                 else ret true
             end
           else ret true);
  if negb pass then ret false else
  err <- socketWriteText (serializeMessage msg);
  match err with
  | Some e =>
      _ <- (if IsCloseError e then Close else ret tt);
      ret false
  | None => ret true
  end.

(** Lines 533 to 537 of [Ask]: the wait token of this ask. *)
Definition assignWait (msg : Message) : M Message :=
  now <- timeNow;
  let msg := set_wait (FormatInt (UnixNano now)) msg in
  client <- IsClient;
  ret (if client then set_wait ("client_" +:+ wait msg) msg else msg).

(** Lines 539 to 547 of [Ask]: is the deadline more than a second old? *)
Definition deadlinePassed (ctx : option Context) : M bool :=
  match ctx with
  | None => ret false
  | Some c =>
      match Deadline c with
      | None => ret false
      | Some deadline =>
          now <- timeNow;
          ret (deadline <? now + (-1) * 1000000000)
      end
  end.

(** The [select] of [Ask]: the next entry of the script says which case is
    ready; [context.TODO()] is never done. *)
Definition selectAsk (ctx : option Context) : M Select :=
  λ w, match selects w with
       | [] => (Blocks, w)
       | CtxDone e :: rest =>
           match ctx with
           | None => (Blocks, set_selects rest w)
           | Some _ => (Returns (CtxDone e), set_selects rest w)
           end
       | Receive r :: rest => (Returns (Receive r), set_selects rest w)
       end.

Definition Ask (ctx : option Context) (msg : Message) : M (Message * option error) :=
  cl <- IsClosed;
  if cl then ret (msg, Some (CloseError (-1) ErrWrite)) else
  msg <- assignWait msg;
  late <- deadlinePassed ctx;
  if late then ret (Message0, Some DeadlineExceeded) else
  ch <- makeChan;
  _ <- modify (λ w, set_waitingMessages (<[wait msg := ch]> (waitingMessages w)) w);
  ok <- Write msg;
  if negb ok then ret (Message0, Some ErrWrite) else
  sel <- selectAsk ctx;
  match sel with
  | CtxDone e => ret (Message0, Some e)
  | Receive receive =>
      _ <- modify (λ w, set_waitingMessages (delete (wait receive) (waitingMessages w)) w);
      ret (receive, Err receive)
  end.

Definition tryNamespace (in_ : Message) : M (option NSConn) :=
  ns <- Conn_Namespace (Namespace in_);
  match ns with
  | None =>
      _ <- Write (set_Err (Some ErrBadNamespace) in_);
      ret None
  | Some ns => ret (Some ns)
  end.

(** [Lock(); c.connectedNamespaces[k] = ns; Unlock()] *)
Definition nsInsert (k : string) (ns : NSConn) : M unit :=
  _ <- nsLock;
  _ <- mapInsert k ns;
  nsUnlock.

(** [Lock(); delete(c.connectedNamespaces, k); Unlock()] *)
Definition nsDelete (k : string) : M unit :=
  _ <- nsLock;
  _ <- mapDelete k;
  nsUnlock.

Definition askConnect (ctx : option Context) (ns : string)
    : M (option NSConn * option error) :=
  found <- Conn_Namespace ns;
  match found with
  | Some c => ret (Some c, None)
  | None =>
      declared <- get (λ w, namespaces w !! ns);
      match declared with
      | None => ret (None, Some ErrBadNamespace)
      | Some evs =>
          let connectMessage :=
            mkMessage ns "" OnNamespaceConnect "" None "" false true false false in
          '(_, err) <- Ask ctx connectMessage;
          match err with
          | Some e => ret (None, Some e)
          | None =>
              again <- Conn_Namespace ns;
              match again with
              | Some c => ret (Some c, None)
              | None =>
                  let c := newNSConn ns evs in
                  err <- fireEvent c connectMessage;
                  match err with
                  | Some e => ret (None, Some e)
                  | None =>
                      _ <- nsInsert ns c;
                      let connectMessage := set_Event OnNamespaceConnected connectMessage in
                      _ <- fireEvent c connectMessage;
                      ret (Some c, None)
                  end
              end
          end
      end
  end.

(** [for !c.isAcknowledged() { time.Sleep(syncWaitDur) }]: only the reader
    goroutine sets the flag. *)
Definition waitAcknowledged : M unit :=
  ack <- isAcknowledged;
  if ack then ret tt else block.

Definition Connect (ctx : option Context) (ns : string)
    : M (option NSConn * option error) :=
  client <- IsClient;
  _ <- (if negb client then waitAcknowledged else ret tt);
  askConnect ctx ns.

(** The loop of [WaitConnect].  [dones] says, for each turn of the loop,
    whether [ctx.Done()] is ready and with which [ctx.Err()]; a nil context
    is [context.TODO()], which is never done.  [ns] is the named result,
    kept from one turn to the next.  When the script ends the caller is
    still sleeping. *)
Fixpoint waitConnectLoop (ctx : option Context) (dones : list (option error))
    (namespace : string) (ns : option NSConn) : M (option NSConn * option error) :=
  match dones with
  | [] => block
  | d :: dones' =>
      match ctx, d with
      | Some _, Some err => ret (None, Some err)
      | _, _ =>
          ns <- match ns with
                | None => Conn_Namespace namespace
                | Some c => ret (Some c)
                end;
          ready <- match ns with
                   | Some _ => isAcknowledged
                   | None => ret false
                   end;
          if ready then ret (ns, None)
          else waitConnectLoop ctx dones' namespace ns
      end
  end.

Definition WaitConnect (ctx : option Context) (dones : list (option error))
    (namespace : string) : M (option NSConn * option error) :=
  waitConnectLoop ctx dones namespace None.

Definition replyConnect (msg : Message) : M unit :=
  if String.eqb (wait msg) "" || isNoOp msg then ret tt else
  found <- Conn_Namespace (Namespace msg);
  match found with
  | Some _ =>
      _ <- Write (set_isNoOp true msg);
      ret tt
  | None =>
      declared <- get (λ w, namespaces w !! Namespace msg);
      match declared with
      | None =>
          _ <- Write (set_Err (Some ErrBadNamespace) msg);
          ret tt
      | Some evs =>
          let c := newNSConn (Namespace msg) evs in
          err <- fireEvent c msg;
          match err with
          | Some e =>
              _ <- Write (set_Err (Some e) msg);
              ret tt
          | None =>
              _ <- nsInsert (Namespace msg) c;
              _ <- Write msg;
              _ <- fireEvent c (set_Event OnNamespaceConnected msg);
              ret tt
          end
      end
  end.

Definition askDisconnect (ctx : option Context) (msg : Message) (lock : bool)
    : M (option error) :=
  _ <- (if lock then nsRLock else ret tt);
  found <- get (λ w, connectedNamespaces w !! Namespace msg);
  _ <- (if lock then nsRUnlock else ret tt);
  match found with
  | None => ret (Some ErrBadNamespace)
  | Some ns =>
      '(_, err) <- Ask ctx msg;
      match err with
      | Some e => ret (Some e)
      | None =>
          _ <- (if lock then nsLock else ret tt);
          _ <- mapDelete (Namespace msg);
          _ <- (if lock then nsUnlock else ret tt);
          _ <- fireEvent ns (set_IsLocal true msg);
          ret None
      end
  end.

(** The body of the loop of [DisconnectAll], for the key [k] of the map. *)
Definition disconnectOne (ctx : option Context) (k : string) (_ : NSConn)
    : M (option error) :=
  let disconnectMsg :=
    mkMessage "" "" OnNamespaceDisconnect "" None "" false false false false in
  askDisconnect ctx (set_Namespace k disconnectMsg) false.

(** The deferred [Unlock] runs on both ways out. *)
Definition DisconnectAll (ctx : option Context) : M (option error) :=
  _ <- nsLock;
  r <- rangeConnected (disconnectOne ctx);
  _ <- nsUnlock;
  ret r.

Definition replyDisconnect (msg : Message) : M unit :=
  if String.eqb (wait msg) "" || isNoOp msg then ret tt else
  found <- Conn_Namespace (Namespace msg);
  match found with
  | None => ret tt
  | Some ns =>
      client <- IsClient;
      if client then
        _ <- nsDelete (Namespace msg);
        _ <- Write msg;
        _ <- fireEvent ns msg;
        ret tt
      else
        err <- fireEvent ns msg;
        msg <- match err with
               | Some e => ret (set_Err (Some e) msg)
               | None =>
                   _ <- nsDelete (Namespace msg);
                   ret msg
               end;
        _ <- Write msg;
        ret tt
  end.

Definition handleMessage (msg : Message) : M bool :=
  delivered <- (if negb (String.eqb (wait msg) "") then
                  ch <- get (λ w, waitingMessages w !! wait msg);
                  match ch with
                  | Some ch =>
                      _ <- chanSend ch msg;
                      ret true
                  | None => ret false
                  end
                else ret false);
  if delivered then ret true else
  if String.eqb (Event msg) OnNamespaceConnect then
    _ <- replyConnect msg;
    ret true
  else if String.eqb (Event msg) OnNamespaceDisconnect then
    _ <- replyDisconnect msg;
    ret true
  else if String.eqb (Event msg) OnRoomJoin then
    ns <- tryNamespace msg;
    _ <- match ns with
         | Some ns => replyRoomJoin ns msg
         | None => ret tt
         end;
    ret true
  else if String.eqb (Event msg) OnRoomLeave then
    ns <- tryNamespace msg;
    _ <- match ns with
         | Some ns => replyRoomLeave ns msg
         | None => ret tt
         end;
    ret true
  else
    ns <- tryNamespace msg;
    match ns with
    | None => ret true
    | Some ns =>
        let msg := set_IsLocal false msg in
        err <- fireEvent ns msg;
        match err with
        | Some e =>
            _ <- Write (set_Err (Some e) msg);
            if isManualCloseError e then ret false else ret true
        | None => ret true
        end
    end.

(** *** The reader *)

Definition ackBinary : bytes := "ack".
Definition ackOKBinary : bytes := "ack_ok".

(** [b[n:]] *)
Fixpoint bytesFrom (n : nat) (b : bytes) : bytes :=
  match n, b with
  | O, _ => b
  | S n', String _ b' => bytesFrom n' b'
  | S _, EmptyString => EmptyString
  end.

(** [handleQueue]: the queued messages in the order of the slice; what
    [handleMessage] answers is dropped. *)
Fixpoint handleQueue (queue : list Message) : M unit :=
  match queue with
  | [] => ret tt
  | msg :: queue' =>
      _ <- handleMessage msg;
      handleQueue queue'
  end.

(** What one turn of the [for] loop of [startReader] leaves: the queue to
    go on with, or the end of the loop. *)
Inductive Turn : Type :=
  | Continue (queue : list Message)
  | Return.

(** One turn of the loop, on the frame [b] that [ReadText] gave. *)
Definition readerTurn (b : bytes) (queue : list Message) : M Turn :=
  ack <- isAcknowledged;
  if negb ack && String.prefix ackBinary b then
    client <- IsClient;
    if client then
      _ <- modify (set_id (bytesFrom (String.length ackBinary) b));
      _ <- modify (set_acknowledged 1%N);
      _ <- socketWriteText ackOKBinary;
      _ <- handleQueue queue;
      ret (Continue [])
    else if Nat.eqb (String.length b) (String.length ackBinary) then
      i <- get id;
      _ <- socketWriteText (ackBinary +:+ i);
      ret (Continue queue)
    else
      _ <- modify (set_acknowledged 1%N);
      _ <- handleQueue queue;
      ret (Continue [])
  else
    let msg := deserializeMessage b in
    if isInvalid msg then ret (Continue queue) else
    ack <- isAcknowledged;
    if negb ack then ret (Continue (queue ++ [msg])) else
    ok <- handleMessage msg;
    if negb ok then ret Return else ret (Continue queue).

(** The loop on the frames that [ReadText] gives before its first error. *)
Fixpoint readerLoop (frames : list bytes) (queue : list Message) : M unit :=
  match frames with
  | [] => ret tt
  | b :: frames' =>
      t <- readerTurn b queue;
      match t with
      | Continue queue' => readerLoop frames' queue'
      | Return => ret tt
      end
  end.

Definition startReader (frames : list bytes) : M unit :=
  cl <- IsClosed;
  if cl then ret tt else
  _ <- readerLoop frames [];
  Close.

(** ** Vocabulary of the statements *)

(** The world after [WriteText] was called on the serialized [msg]. *)
Definition sent (body : bytes) (w : World) : World :=
  set_writeResults (tail (writeResults w))
                   (set_trace (trace w ++ [WriteText body]) w).

(** What the next call of [WriteText] returns. *)
Definition writeResult (w : World) : option error :=
  default None (head (writeResults w)).

(** The namespace and room checks of [Write]. *)
Definition isProtocol (msg : Message) : bool := isConnect msg || isDisconnect msg.

Definition roomScoped (msg : Message) : bool :=
  negb (String.eqb (Room msg) "") && negb (isRoomJoin msg) && negb (isRoomLeft msg).

Definition accepted (msg : Message) (w : World) : bool :=
  isProtocol msg ||
  match connectedNamespaces w !! Namespace msg with
  | None => false
  | Some ns => if roomScoped msg then bool_decide (Room msg ∈ rooms ns) else true
  end.

(** The world after [c.connectedNamespaces[k] = ns], and the one after
    [delete(c.connectedNamespaces, k)]. *)
Definition inserted (k : string) (ns : NSConn) (w : World) : World :=
  set_trace (trace w ++ [NsInsert k])
            (set_connectedNamespaces (<[k := ns]> (connectedNamespaces w)) w).

Definition deleted (k : string) (w : World) : World :=
  set_trace (trace w ++ [NsDelete k])
            (set_connectedNamespaces (delete k (connectedNamespaces w)) w).

(** The forced disconnect that [Close] fires on [ns]. *)
Definition forcedDisconnect (ns : NSConn) : Message :=
  mkMessage (namespace ns) "" OnNamespaceDisconnect "" None "" true true false false.

Definition forcedFire (ns : NSConn) : Action :=
  FireEvent (namespace ns) (forcedDisconnect ns).

(** What the loop of [Close] does on the map [m], visited in the order
    [keys]: for each entry, the forced disconnect and then its removal. *)
Definition closedOne (m : gmap string NSConn) (k : string) : list Action :=
  match m !! k with
  | Some ns => [forcedFire ns; NsDelete k]
  | None => []
  end.

Definition firedOf (m : gmap string NSConn) (keys : list string) : list Action :=
  keys ≫= closedOne m.

(** The same for one entry of the map. *)
Definition closedEntry (kv : string * NSConn) : list Action :=
  [forcedFire kv.2; NsDelete kv.1].

(** The world a winning [Close] leaves. *)
Definition closeWorld (w : World) : World :=
  mkWorld (id w) (server w) (namespaces w) 0%N ∅ false ∅ 1%N
    (writeResults w) (clock w) (clockReads w) (nextChan w) (receivers w) (selects w)
    (trace w ++ [CloseCloseCh]
       ++ firedOf (connectedNamespaces w) (rangeNamespaces (connectedNamespaces w))
       ++ (if server w then [ServerDisconnect] else []) ++ [NetConnClose]).

(** The world in which [Close] waits for the lock of the namespaces. *)
Definition closeStuck (w : World) : World :=
  set_trace (trace w ++ [CloseCloseCh]) (set_closed 1%N w).

(** Every way [Write msg] can go from [w]. *)
Inductive WriteSpec (msg : Message) (w : World) : Outcome bool * World → Prop :=
  | WriteClosed :
      closed w ≠ 0%N →
      WriteSpec msg w (Returns false, w)
  | WriteWaits :
      closed w = 0%N → isProtocol msg = false →
      connectedNamespacesMutex w = true →
      WriteSpec msg w (Blocks, w)
  | WriteRejected :
      closed w = 0%N → isProtocol msg = false →
      connectedNamespacesMutex w = false → accepted msg w = false →
      WriteSpec msg w (Returns false, w)
  | WriteSent :
      closed w = 0%N → accepted msg w = true → writeResult w = None →
      WriteSpec msg w (Returns true, sent (serializeMessage msg) w)
  | WriteFailed e :
      closed w = 0%N → accepted msg w = true → writeResult w = Some e →
      IsCloseError e = false →
      WriteSpec msg w (Returns false, sent (serializeMessage msg) w)
  | WriteClosing e :
      closed w = 0%N → accepted msg w = true → writeResult w = Some e →
      IsCloseError e = true → connectedNamespacesMutex w = false →
      WriteSpec msg w (Returns false, closeWorld (sent (serializeMessage msg) w))
  | WriteClosingWaits e :
      closed w = 0%N → accepted msg w = true → writeResult w = Some e →
      IsCloseError e = true → connectedNamespacesMutex w = true →
      WriteSpec msg w (Blocks, closeStuck (sent (serializeMessage msg) w)).

(** What [Write] answers and leaves once the checks are passed and the
    lock of the namespaces is free. *)
Definition writeOk (w : World) : bool :=
  match writeResult w with
  | None => true
  | Some _ => false
  end.

Definition written (body : bytes) (w : World) : World :=
  match writeResult w with
  | Some e => if IsCloseError e then closeWorld (sent body w) else sent body w
  | None => sent body w
  end.

(** [Write] gets as far as the socket with [msg]: the connection is open
    and the message passes the namespace and room checks. *)
Definition writes (msg : Message) (w : World) : bool :=
  (closed w =? 0)%N && accepted msg w.

(** The next call of [WriteText] returns a close error, so that [Write]
    calls [Close]. *)
Definition writeCloses (w : World) : bool :=
  match writeResult w with
  | Some e => IsCloseError e
  | None => false
  end.

(** What a winning [Close] does, in order, on the connection of [w]. *)
Definition closing (w : World) : list Action :=
  [CloseCloseCh]
    ++ firedOf (connectedNamespaces w) (rangeNamespaces (connectedNamespaces w))
    ++ (if server w then [ServerDisconnect] else []) ++ [NetConnClose].

(** The world in which [Ask] calls [Write]: a fresh channel is registered
    under the token. *)
Definition registered (token : string) (w : World) : World :=
  set_waitingMessages (<[token := nextChan w]> (waitingMessages w))
                      (set_nextChan (S (nextChan w)) w).

(** A computation that, run while the lock of the namespaces is held,
    leaves the namespaces and the lock as they are whenever it returns. *)
Definition Held {A} (m : M A) : Prop :=
  ∀ w a w', connectedNamespacesMutex w = true → m w = (Returns a, w') →
    connectedNamespaces w' = connectedNamespaces w
    ∧ connectedNamespacesMutex w' = true.

(** The side, the latch, the namespaces and their lock are the same. *)
Definition sameConn (w w' : World) : Prop :=
  server w' = server w ∧ acknowledged w' = acknowledged w
  ∧ connectedNamespaces w' = connectedNamespaces w
  ∧ connectedNamespacesMutex w' = connectedNamespacesMutex w.

(** What every method keeps when it returns: the lock of the namespaces is
    as it was (every [Lock] was paired with its [Unlock]), the side and the
    declared namespaces are the same, and a closed connection stays closed. *)
Definition Orderly (w w' : World) : Prop :=
  connectedNamespacesMutex w' = connectedNamespacesMutex w
  ∧ server w' = server w
  ∧ namespaces w' = namespaces w
  ∧ (closed w ≠ 0%N → closed w' ≠ 0%N).

(** [m], when it returns, leaves a world related to the one it started in. *)
Definition Post (R : World → World → Prop) {A} (m : M A) : Prop :=
  ∀ w a w', m w = (Returns a, w') → R w w'.

(** The world after [ns.events.fireEvent(ns, msg)]. *)
Definition afterFire (ns : NSConn) (msg : Message) (w : World) : World :=
  set_trace (trace w ++ [FireEvent (namespace ns) msg]) w.

(** The token [Ask] gives to a message when the clock reads [t]. *)
Definition waitToken (client : bool) (t : Z) : string :=
  if client then "client_" +:+ FormatInt (UnixNano t) else FormatInt (UnixNano t).

(** The world right after the handshake frame [h] flipped [acknowledged]. *)
Definition latched (h : bytes) (w : World) : World :=
  if server w then set_acknowledged 1%N w
  else sent ackOKBinary
         (set_acknowledged 1%N (set_id (bytesFrom (String.length ackBinary) h) w)).

(** The frames of [pre] that parse, as messages in the order of arrival. *)
Definition parsed (pre : list bytes) : list Message :=
  filter (λ m, isInvalid m = false) (deserializeMessage <$> pre).

(** The token that an [Ask] started in [w] assigns. *)
Definition askToken (w : World) : string :=
  waitToken (negb (server w)) (clock w (clockReads w)).

(** The deadline check of [Ask] lets the ask through: the context has no
    deadline, or one that is not more than a second before the clock, which
    is read a second time for the check. *)
Definition onTime (ctx : option Context) (w : World) : bool :=
  match ctx ≫= Deadline with
  | None => true
  | Some deadline => negb (deadline <? clock w (S (clockReads w)) + (-1) * 1000000000)
  end.

(** The clock after the readings of [Ask]: one for the token, one more for
    the deadline check when the context has a deadline. *)
Definition ticked (ctx : option Context) (w : World) : World :=
  match ctx ≫= Deadline with
  | None => set_clockReads (S (clockReads w)) w
  | Some _ => set_clockReads (S (S (clockReads w))) w
  end.

(** The world in which an [Ask] waits for its answer: the token is
    registered and the message was written with it. *)
Definition asked (ctx : option Context) (msg : Message) (w : World) : World :=
  sent (serializeMessage (set_wait (askToken w) msg))
       (registered (askToken w) (ticked ctx w)).

(** The world an [Ask] leaves when the select took [reply] from the channel:
    the entry named by the [wait] of the reply is removed. *)
Definition answered (reply : Message) (w : World) : World :=
  set_waitingMessages (delete (wait reply) (waitingMessages w))
                      (set_selects (tail (selects w)) w).

(** The frames written to the socket, in order. *)
Definition framesOf (tr : list Action) : list bytes :=
  omap (λ a, match a with WriteText body => Some body | _ => None end) tr.

(** [Message{Namespace: namespace, Event: OnNamespaceConnect, IsLocal: true}],
    the message of [askConnect]. *)
Definition connectMessage (ns : string) : Message :=
  mkMessage ns "" OnNamespaceConnect "" None "" false true false false.

(** A message for the handlers of its namespace: the [default] case of the
    switch of [handleMessage]. *)
Definition isUserEvent (msg : Message) : Prop :=
  Event msg ≠ OnNamespaceConnect ∧ Event msg ≠ OnNamespaceDisconnect
  ∧ Event msg ≠ OnRoomJoin ∧ Event msg ≠ OnRoomLeave.

(** The backlog as the spec words it: the messages are handled by
    [handleMessage] one after the other, first in, first out; what
    [handleMessage] answers is not looked at. *)
Definition handledInOrder (msgs : list Message) : M unit :=
  foldr (λ msg rest, _ <- handleMessage msg; rest) (ret tt) msgs.

(** The world after the frames [pre] were read on a server that is not
    acknowledged: each [ack] among them was answered with [ack] followed by
    the [id]. *)
Definition greeted (pre : list bytes) (w : World) : World :=
  foldl (λ w b, if String.eqb b ackBinary then sent (ackBinary +:+ id w) w else w) w pre.

(** The messages of the frames of [pre] that do not start with [ack] and
    that parse, in the order of arrival. *)
Definition backlog (pre : list bytes) : list Message :=
  parsed (filter (λ b, String.prefix ackBinary b = false) pre).

(** The call of the handler that [handleMessage] makes for an event of a
    connected namespace. *)
Definition firing (w : World) (msg : Message) : list Action :=
  match connectedNamespaces w !! Namespace msg with
  | Some ns => [FireEvent (namespace ns) (set_IsLocal false msg)]
  | None => []
  end.

(** [msg] is an event, not a pending reply, that the handler of its
    connected namespace accepts. *)
Definition welcome (w : World) (msg : Message) : Prop :=
  (wait msg = "" ∨ waitingMessages w !! wait msg = None)
  ∧ isUserEvent msg
  ∧ ∃ ns, connectedNamespaces w !! Namespace msg = Some ns
          ∧ events ns (set_IsLocal false msg) = None.

End Conn.

(** ** A run of the engine, for the examples

    One choice of collaborators (the reserved names are those of neffos; the
    wire format is a toy one) and a few worlds. *)

Definition exSerialize (m : Message) : bytes :=
  Namespace m +:+ ";" +:+ Room m +:+ ";" +:+ Event m +:+ ";" +:+ wait m
    +:+ ";" +:+ Body m.

Definition exDeserialize (b : bytes) : Message :=
  mkMessage "chat" "" "say" b None "" false false false (String.eqb b "").

Definition exIsCloseError (e : error) : bool :=
  match e with
  | CloseError _ _ => true
  | _ => false
  end.

Definition exampleCollaborators : Collaborators := {|
  OnNamespaceConnect := "_OnNamespaceConnect";
  OnNamespaceConnected := "_OnNamespaceConnected";
  OnNamespaceDisconnect := "_OnNamespaceDisconnect";
  OnRoomJoin := "_OnRoomJoin";
  OnRoomLeave := "_OnRoomLeave";
  OnRoomLeft := "_OnRoomLeft";
  serializeMessage := exSerialize;
  deserializeMessage := exDeserialize;
  IsCloseError := exIsCloseError;
  isManualCloseError := exIsCloseError;
  replyRoomJoin := λ _ _, ret tt;
  replyRoomLeave := λ _ _, ret tt;
  rangeNamespaces := λ m, (map_to_list m).*1;
  rangeNamespaces_perm := λ m, Permutation_refl _;
|}.

(** A table that accepts every event, and one that refuses to disconnect. *)
Definition exEvents : Events := λ _, None.

Definition exVeto : Events :=
  λ m, if String.eqb (Event m) "_OnNamespaceDisconnect"
       then Some (OtherError "stay") else None.

Definition exChat : NSConn := mkNSConn "chat" exEvents {["lobby"]}.
Definition exNews : NSConn := mkNSConn "news" exEvents ∅.
Definition exGuarded : NSConn := mkNSConn "chat" exVeto ∅.

(** An open connection: its side, its latch, its namespaces, its pending
    asks, and what the socket and the selects will answer.  The clock
    advances by one nanosecond per reading. *)
Definition exWorld (srv : bool) (ack : N) (cns : gmap string NSConn)
    (wms : gmap string nat) (rcv : gset nat)
    (results : list (option error)) (sels : list Select) : World :=
  mkWorld "c1" srv {["chat" := exEvents; "news" := exEvents]} ack cns false wms 0%N
          results (λ n, Z.of_nat n + 1570000000000000000) 0 (size wms) rcv sels [].


Definition exSay (ns room : string) : Message :=
  mkMessage ns room "say" "hi" None "" false false false false.

Definition exReply (token : string) : Message :=
  mkMessage "chat" "" "say" "hi" None token false false false false.

(** What the server sends when a room was left: the room is [vip]. *)
Definition exLeft : Message :=
  mkMessage "chat" "vip" "_OnRoomLeft" "" None "" false false false false.

(** A client with one ask pending, whose caller is waiting for the reply. *)
Definition exAwaited : World :=
  exWorld false 1%N {["chat" := exChat]} {["client_7" := 0%nat]} {[0%nat]} [] [].

(** The world a cancelled ask leaves behind. *)
Definition exCancelled : World :=
  (@Ask exampleCollaborators (Some (mkContext None)) (exSay "chat" "")
     (exWorld false 1%N {["chat" := exChat]} ∅ ∅ [] [CtxDone Canceled])).2.

(** An acknowledged server-side connection with two namespaces and one
    pending ask. *)
Definition exJoined : World :=
  exWorld true 1%N {["chat" := exChat; "news" := exNews]} {["7" := 0%nat]} ∅ [] [].

(** A connection that is not acknowledged yet, with [chat] connected. *)
Definition exUnacked (srv : bool) : World :=
  exWorld srv 0%N {["chat" := exChat]} ∅ ∅ [] [].

(** A connection that has not been acknowledged yet. *)
Definition exFresh (srv : bool) : World := exWorld srv 0%N ∅ ∅ ∅ [] [].

(** A server-side connection whose namespace refuses to disconnect. *)
Definition exServed : World := exWorld true 1%N {["chat" := exGuarded]} ∅ ∅ [] [].

(** The ask of the peer to leave that namespace. *)
Definition exDisconnectAsk : Message :=
  mkMessage "chat" "" "_OnNamespaceDisconnect" "" None "client_1570000000000000000"
            false false false false.

(** The same connection when its socket reports a close on the next write. *)
Definition exServedDropped : World :=
  exWorld true 1%N {["chat" := exGuarded]} ∅ ∅
          [Some (CloseError 1006 (OtherError "broken pipe"))] [].

(** A client whose socket reports a close on the next write. *)
Definition exDropped : World :=
  exWorld false 1%N {["chat" := exChat]} ∅ ∅
          [Some (CloseError 1006 (OtherError "broken pipe"))] [].

(** A client with two namespaces; the first ask gets its reply, the context
    of the second is cancelled. *)
Definition exTwo : World :=
  exWorld false 1%N {["chat" := exChat; "news" := exNews]} ∅ ∅ []
          [Receive (exReply "client_1570000000000000000"); CtxDone Canceled].

(** The world a client is in after it connected to [chat]. *)
Definition exConnected : World :=
  (@Connect exampleCollaborators None "chat"
     (exWorld false 1%N ∅ ∅ ∅ [] [Receive (exReply "client_1570000000000000000")])).2.

(** A client with two namespaces and a pending ask, whose socket reports a
    close on the next write. *)
Definition exDroppedTwo : World :=
  exWorld false 1%N {["chat" := exChat; "news" := exNews]} {["client_7" := 0%nat]} ∅
          [Some (CloseError 1006 (OtherError "broken pipe"))] [].

(** A table whose handlers all ask to close the connection, and a namespace
    connected with it. *)
Definition exKick : Events := λ _, Some (CloseError 1000 (OtherError "bye")).

Definition exKicked : NSConn := mkNSConn "chat" exKick ∅.

(** The ask of the peer to connect to [chat], and the answer of a peer that
    does not know it. *)
Definition exConnectAsk : Message :=
  mkMessage "chat" "" "_OnNamespaceConnect" "" None "client_1570000000000000000"
            false false false false.

Definition exRefusal : Message :=
  mkMessage "chat" "" "_OnNamespaceConnect" "" (Some ErrBadNamespace)
            "client_1570000000000000000" false false false false.

(** An acknowledged client connected to [chat], and one that is connected
    to nothing yet. *)
Definition exAsking (sels : list Select) : World :=
  exWorld false 1%N {["chat" := exChat]} ∅ ∅ [] sels.

Definition exArriving (sels : list Select) : World :=
  exWorld false 1%N ∅ ∅ ∅ [] sels.

(** ** Proofs *)

(** Projections of updated worlds, and the steps of the monad. *)
Ltac wsimpl :=
  cbn [bind ret get modify emit block IsClient IsClosed isAcknowledged
       nsUnlock nsRUnlock sent closeStuck negb
       set_id set_acknowledged set_connectedNamespaces
       set_connectedNamespacesMutex set_waitingMessages set_closed
       set_writeResults set_clockReads set_nextChan set_receivers
       set_selects set_trace
       id server namespaces acknowledged connectedNamespaces
       connectedNamespacesMutex waitingMessages closed writeResults clock
       clockReads nextChan receivers selects trace].

Ltac destruct_world w :=
  destruct w as [?i ?srv ?nss ?ackd ?cns ?mtx ?wms ?cl ?wrs ?clk ?crs ?nch ?rcv ?sel ?tr].

Ltac wnorm :=
  cbv beta iota zeta delta
      [bind ret get modify emit block IsClient IsClosed isAcknowledged
       nsUnlock nsRUnlock sent closeStuck negb
       set_id set_acknowledged set_connectedNamespaces
       set_connectedNamespacesMutex set_waitingMessages set_closed
       set_writeResults set_clockReads set_nextChan set_receivers
       set_selects set_trace
       id server namespaces acknowledged connectedNamespaces
       connectedNamespacesMutex waitingMessages closed writeResults clock
       clockReads nextChan receivers selects trace].

Create HintDb post discriminated.

Section Properties.
Context `{Collaborators}.


(** *** The monad *)
Lemma bind_get {A B} (f : World → A) (k : A → M B) w :
  bind (get f) k w = k (f w) w.
Proof. reflexivity. Qed.

Lemma bind_modify {B} (f : World → World) (k : unit → M B) w :
  bind (modify f) k w = k tt (f w).
Proof. reflexivity. Qed.

Lemma bind_ret {A B} (a : A) (k : A → M B) w : bind (ret a) k w = k a w.
Proof. reflexivity. Qed.

Lemma bind_emit {B} (a : Action) (k : unit → M B) w :
  bind (emit a) k w = k tt (set_trace (trace w ++ [a]) w).
Proof. reflexivity. Qed.

Lemma bind_assoc {A B C} (m : M A) (k : A → M B) (k' : B → M C) w :
  bind (bind m k) k' w = bind m (λ a, bind (k a) k') w.
Proof. unfold bind. by destruct (m w) as [[a|] w']. Qed.

Lemma bind_Returns {A B} (m : M A) (k : A → M B) w a w' :
  m w = (Returns a, w') → bind m k w = k a w'.
Proof. intros Hm. unfold bind. by rewrite Hm. Qed.

Lemma bind_Blocks {A B} (m : M A) (k : A → M B) w w' :
  m w = (Blocks, w') → bind m k w = (Blocks, w').
Proof. intros Hm. unfold bind. by rewrite Hm. Qed.

Lemma bind_inv {A B} (m : M A) (k : A → M B) w b w' :
  bind m k w = (Returns b, w') →
  ∃ a w1, m w = (Returns a, w1) ∧ k a w1 = (Returns b, w').
Proof.
  unfold bind. destruct (m w) as [[a|] w1]; [|done]. intros Hk. by exists a, w1.
Qed.

Lemma bind_ext {A B} (m : M A) (k1 k2 : A → M B) w :
  (∀ a w', k1 a w' = k2 a w') → bind m k1 w = bind m k2 w.
Proof. intros Hk. unfold bind. destruct (m w) as [[a|] w']; [apply Hk|done]. Qed.

Lemma bind_fireEvent {B} ns msg (k : option error → M B) w :
  bind (fireEvent ns msg) k w
  = k (events ns msg) (set_trace (trace w ++ [FireEvent (namespace ns) msg]) w).
Proof. reflexivity. Qed.

Lemma bind_socketWriteText {B} body (k : option error → M B) w :
  bind (socketWriteText body) k w = k (writeResult w) (sent body w).
Proof. reflexivity. Qed.


(** *** Flags, lock and clock *)
Lemma IsClosed_open w : closed w = 0%N → IsClosed w = (Returns false, w).
Proof. intros Hc. unfold IsClosed, get. by rewrite Hc. Qed.

Lemma IsClosed_closed w : closed w ≠ 0%N → IsClosed w = (Returns true, w).
Proof.
  intros Hc. unfold IsClosed, get. f_equal. f_equal. apply N.ltb_lt. lia.
Qed.

Lemma IsClient_run w : IsClient w = (Returns (negb (server w)), w).
Proof. reflexivity. Qed.

Lemma isAcknowledged_run w : isAcknowledged w = (Returns (0 <? acknowledged w)%N, w).
Proof. reflexivity. Qed.

Lemma isAcknowledged_unset w :
  acknowledged w = 0%N → isAcknowledged w = (Returns false, w).
Proof. intros Hack. rewrite isAcknowledged_run. by rewrite Hack. Qed.

Lemma Conn_Namespace_free ns w :
  connectedNamespacesMutex w = false →
  Conn_Namespace ns w = (Returns (connectedNamespaces w !! ns), w).
Proof. intros Hm. unfold Conn_Namespace, bind, nsRLock. by rewrite Hm. Qed.

Lemma Conn_Namespace_held ns w :
  connectedNamespacesMutex w = true → Conn_Namespace ns w = (Blocks, w).
Proof. intros Hm. unfold Conn_Namespace, bind, nsRLock. by rewrite Hm. Qed.

Lemma bind_mapInsert {B} k ns (k' : unit → M B) w :
  bind (mapInsert k ns) k' w = k' tt (inserted k ns w).
Proof. reflexivity. Qed.

Lemma bind_mapDelete {B} k (k' : unit → M B) w :
  bind (mapDelete k) k' w = k' tt (deleted k w).
Proof. reflexivity. Qed.

Lemma nsDelete_free k w :
  connectedNamespacesMutex w = false →
  nsDelete k w = (Returns tt, deleted k w).
Proof.
  intros Hm. unfold nsDelete. unfold bind at 1, nsLock. rewrite Hm.
  rewrite bind_mapDelete. unfold nsUnlock, modify, deleted. f_equal.
  destruct_world w; cbn [connectedNamespacesMutex] in Hm; subst; reflexivity.
Qed.

Lemma nsInsert_free k ns w :
  connectedNamespacesMutex w = false →
  nsInsert k ns w = (Returns tt, inserted k ns w).
Proof.
  intros Hm. unfold nsInsert. unfold bind at 1, nsLock. rewrite Hm.
  rewrite bind_mapInsert. unfold nsUnlock, modify, inserted. f_equal.
  destruct_world w; cbn [connectedNamespacesMutex] in Hm; subst; reflexivity.
Qed.

Lemma timeNow_run w :
  timeNow w = (Returns (clock w (clockReads w)), set_clockReads (S (clockReads w)) w).
Proof. reflexivity. Qed.

Lemma chanSend_ready ch msg w :
  ch ∈ receivers w →
  chanSend ch msg w
  = (Returns tt,
     set_receivers (receivers w ∖ {[ch]})
                   (set_trace (trace w ++ [ChanSend ch msg]) w)).
Proof. intros Hin. unfold chanSend. by rewrite bool_decide_eq_true_2. Qed.

Lemma chanSend_stuck ch msg w :
  ch ∉ receivers w → chanSend ch msg w = (Blocks, w).
Proof. intros Hin. unfold chanSend. by rewrite bool_decide_eq_false_2. Qed.


(** *** Close *)
Lemma firedOf_cons m k keys : firedOf m (k :: keys) = closedOne m k ++ firedOf m keys.
Proof. reflexivity. Qed.

Lemma firedOf_delete m k keys :
  k ∉ keys → firedOf (delete k m) keys = firedOf m keys.
Proof.
  induction keys as [|k' keys IH]; intros Hk; [done|].
  apply not_elem_of_cons in Hk as [Hne Hk].
  rewrite !firedOf_cons, (IH Hk). unfold closedOne.
  by rewrite lookup_delete_ne.
Qed.

Lemma rangeLoop_close keys : ∀ w,
  NoDup keys →
  rangeLoop keys closeOne w
  = (Returns None,
     set_connectedNamespaces (foldr delete (connectedNamespaces w) keys)
       (set_trace (trace w ++ firedOf (connectedNamespaces w) keys) w)).
Proof.
  induction keys as [|k keys IH]; intros w Hnd.
  - destruct w; simpl. unfold ret, firedOf. simpl. by rewrite app_nil_r.
  - apply NoDup_cons in Hnd as [Hk Hnd].
    cbn [rangeLoop]. rewrite bind_get, firedOf_cons. unfold closedOne.
    destruct (connectedNamespaces w !! k) as [ns|] eqn:Hl.
    + unfold closeOne. rewrite !bind_assoc, bind_fireEvent, bind_assoc, bind_mapDelete, bind_ret.
      rewrite IH by done. unfold deleted. wsimpl.
      rewrite firedOf_delete by done. rewrite <- !app_assoc.
      rewrite <- delete_foldr_delete. by destruct w.
    + rewrite IH by done. cbn [foldr app].
      rewrite delete_foldr_delete, (delete_id _ _ Hl). done.
Qed.

Lemma NoDup_rangeNamespaces (m : gmap string NSConn) : NoDup (rangeNamespaces m).
Proof. rewrite rangeNamespaces_perm. apply NoDup_fst_map_to_list. Qed.

Lemma elem_of_rangeNamespaces (m : gmap string NSConn) k :
  k ∈ rangeNamespaces m ↔ is_Some (m !! k).
Proof.
  rewrite rangeNamespaces_perm, list_elem_of_fmap. split.
  - intros ([k' ns] & -> & Hin%elem_of_map_to_list). by exists ns.
  - intros [ns Hl]. exists (k, ns). split; [done|]. by apply elem_of_map_to_list.
Qed.

Lemma foldr_delete_range (m : gmap string NSConn) :
  foldr delete m (rangeNamespaces m) = ∅.
Proof.
  apply map_eq; intros k. rewrite lookup_empty.
  apply eq_None_not_Some. intros [ns [Hk Hl]%lookup_foldr_delete_Some].
  destruct Hk. rewrite rangeNamespaces_perm.
  apply list_elem_of_fmap. exists (k, ns). split; [done|].
  by apply elem_of_map_to_list.
Qed.

Lemma firedOf_range (m : gmap string NSConn) :
  ∃ kvs, kvs ≡ₚ map_to_list m
         ∧ firedOf m (rangeNamespaces m) = kvs ≫= closedEntry.
Proof.
  exists (omap (λ k, pair k <$> m !! k) (rangeNamespaces m)). split.
  - rewrite rangeNamespaces_perm.
    assert (Hall : Forall (λ kv, m !! kv.1 = Some kv.2) (map_to_list m)).
    { apply Forall_forall. intros [k v] Hkv. by apply elem_of_map_to_list. }
    induction Hall as [|[k v] l Hkv _ IH]; [done|].
    cbn [fmap list_fmap omap list_omap fst snd] in *. rewrite Hkv.
    cbn [fmap option_fmap option_map]. by rewrite IH.
  - induction (rangeNamespaces m) as [|k keys IH]; [done|].
    rewrite firedOf_cons, IH. unfold closedOne. cbn [omap list_omap].
    by destruct (m !! k).
Qed.

Lemma Close_open w :
  closed w = 0%N → connectedNamespacesMutex w = false →
  Close w = (Returns tt, closeWorld w).
Proof.
  intros Hc Hm. unfold Close.
  unfold bind at 1, casClosed. rewrite Hc. cbn [N.eqb].
  rewrite bind_emit. unfold bind at 1, nsLock. wsimpl. rewrite Hm.
  unfold rangeConnected. rewrite bind_assoc, bind_get. wsimpl.
  unfold bind at 1.
  change (rangeLoop _ _) with (rangeLoop (rangeNamespaces (connectedNamespaces w)) closeOne).
  rewrite rangeLoop_close by apply NoDup_rangeNamespaces.
  wsimpl. rewrite foldr_delete_range.
  unfold closeWorld. destruct_world w. destruct srv;
    wnorm; rewrite <- ?app_assoc; reflexivity.
Qed.

Lemma Close_closed w : closed w ≠ 0%N → Close w = (Returns tt, w).
Proof.
  intros Hc. unfold Close, bind, casClosed.
  by destruct (N.eqb_spec (closed w) 0).
Qed.

Lemma Close_held w :
  closed w = 0%N → connectedNamespacesMutex w = true →
  Close w = (Blocks, closeStuck w).
Proof.
  intros Hc Hm. unfold Close.
  unfold bind at 1, casClosed. rewrite Hc. cbn [N.eqb].
  rewrite bind_emit. unfold bind at 1, nsLock.
  cbn [connectedNamespacesMutex set_trace set_closed]. by rewrite Hm.
Qed.

(** With the lock of the namespaces free, the call of [Close] that finds
    [closed] at 0 returns, having fired the forced, local
    [OnNamespaceDisconnect] once for each connected namespace: the events it
    fired are, up to their order, those of the entries of
    [connectedNamespaces].  It leaves [connectedNamespaces] and
    [waitingMessages] empty, [acknowledged] at 0 and [closed] at 1, and a
    second [Close] changes nothing. *)
Lemma Close_once w :
  closed w = 0%N → connectedNamespacesMutex w = false →
  ∃ w' entries,
    Close w = (Returns tt, w')
    ∧ trace w' = trace w ++ [CloseCloseCh] ++ (entries ≫= closedEntry)
                   ++ (if server w then [ServerDisconnect] else []) ++ [NetConnClose]
    ∧ entries ≡ₚ map_to_list (connectedNamespaces w)
    ∧ connectedNamespaces w' = ∅
    ∧ waitingMessages w' = ∅
    ∧ acknowledged w' = 0%N
    ∧ closed w' = 1%N
    ∧ Close w' = (Returns tt, w').
Proof.
  intros Hc Hm.
  destruct (firedOf_range (connectedNamespaces w)) as (entries & Hperm & Hfired).
  exists (closeWorld w), entries.
  split; [by apply Close_open|].
  split; [unfold closeWorld; cbn [trace]; by rewrite Hfired|]. split; [done|].
  repeat (split; [done|]). by apply Close_closed.
Qed.


(** *** Write *)
Lemma Write_spec msg w : WriteSpec msg w (Write msg w).
Proof.
  unfold Write.
  destruct (N.eq_dec (closed w) 0%N) as [Hc|Hc].
  2:{ rewrite (bind_Returns _ _ _ _ _ (IsClosed_closed w Hc)). by apply WriteClosed. }
  rewrite (bind_Returns _ _ _ _ _ (IsClosed_open w Hc)).
  assert (Hsend : accepted msg w = true →
    WriteSpec msg w
      (bind (socketWriteText (serializeMessage msg))
         (λ err, match err with
                 | Some e => bind (if IsCloseError e then Close else ret tt) (λ _, ret false)
                 | None => ret true
                 end) w)).
  { intros Hacc. rewrite bind_socketWriteText.
    destruct (writeResult w) as [e|] eqn:Hr; [|by apply WriteSent].
    destruct (IsCloseError e) eqn:He; lazy beta iota.
    2:{ rewrite bind_ret. by eapply WriteFailed. }
    destruct (connectedNamespacesMutex w) eqn:Hm.
    - rewrite (bind_Blocks _ _ _ _ (Close_held (sent _ w) Hc Hm)).
      by eapply WriteClosingWaits.
    - rewrite (bind_Returns _ _ _ _ _ (Close_open (sent _ w) Hc Hm)).
      by eapply WriteClosing. }
  unfold accepted, isProtocol in *.
  destruct (isConnect msg || isDisconnect msg) eqn:Hp.
  - replace (negb (isConnect msg) && negb (isDisconnect msg)) with false
      by (destruct (isConnect msg), (isDisconnect msg); done).
    rewrite bind_ret. cbn [negb]. by apply Hsend.
  - replace (negb (isConnect msg) && negb (isDisconnect msg)) with true
      by (destruct (isConnect msg), (isDisconnect msg); done).
    rewrite bind_assoc.
    destruct (connectedNamespacesMutex w) eqn:Hm.
    { rewrite (bind_Blocks _ _ _ _ (Conn_Namespace_held _ _ Hm)). by apply WriteWaits. }
    rewrite (bind_Returns _ _ _ _ _ (Conn_Namespace_free _ _ Hm)).
    cbn [orb] in Hsend.
    destruct (connectedNamespaces w !! Namespace msg) as [ns|] eqn:Hl.
    2:{ rewrite bind_ret. cbn [negb]. apply WriteRejected; try done.
        unfold accepted, isProtocol. by rewrite Hp, Hl. }
    fold (roomScoped msg). destruct (roomScoped msg) eqn:Hrs.
    + rewrite bind_ret. destruct (bool_decide (Room msg ∈ rooms ns)) eqn:Hin; cbn [negb].
      * by apply Hsend.
      * apply WriteRejected; try done. unfold accepted, isProtocol.
        by rewrite Hp, Hl, Hrs, Hin.
    + rewrite bind_ret. cbn [negb]. by apply Hsend.
Qed.

Lemma accepted_protocol msg w : isProtocol msg = true → accepted msg w = true.
Proof. intros Hp. unfold accepted. by rewrite Hp. Qed.

Lemma Write_accepted msg w :
  closed w = 0%N → connectedNamespacesMutex w = false → accepted msg w = true →
  Write msg w = (Returns (writeOk w), written (serializeMessage msg) w).
Proof.
  intros Hc Hm Hacc. unfold writeOk, written.
  destruct (Write_spec msg w) as [?|?|?|? ? Hr|e ? ? Hr He|e ? ? Hr He|e ? ? Hr He];
    try congruence; rewrite Hr; try rewrite He; done.
Qed.

Lemma Write_false_waiting msg w w' :
  closed w = 0%N →
  Write msg w = (Returns false, w') →
  (closed w' = 0%N ∧ waitingMessages w' = waitingMessages w)
  ∨ (closed w' = 1%N ∧ waitingMessages w' = ∅).
Proof.
  intros Hc Hrun. pose proof (Write_spec msg w) as Hs. rewrite Hrun in Hs.
  inversion Hs; subst; try congruence; by eauto.
Qed.

Lemma written_trace body w :
  trace (written body w)
  = trace w ++ [WriteText body] ++ (if writeCloses w then closing w else []).
Proof.
  unfold written, writeCloses, closing.
  destruct (writeResult w) as [e|]; [destruct (IsCloseError e)|];
    cbn [trace closeWorld sent set_writeResults set_trace connectedNamespaces server];
    by rewrite <- ?app_assoc, ?app_nil_r.
Qed.

Lemma written_namespaces body w :
  connectedNamespaces (written body w)
  = if writeCloses w then ∅ else connectedNamespaces w.
Proof.
  unfold written, writeCloses.
  by destruct (writeResult w) as [e|]; [destruct (IsCloseError e)|].
Qed.

Lemma written_closed body w :
  closed w = 0%N →
  closed (written body w) = if writeCloses w then 1%N else 0%N.
Proof.
  intros Hc. unfold written, writeCloses.
  by destruct (writeResult w) as [e|]; [destruct (IsCloseError e)|].
Qed.

(** C4, amended.  With the lock of the namespaces free, for a message that
    is neither a connect nor a disconnect, [Write] answers [false] and
    leaves the world as it is, so [WriteText] is not called, when the
    namespace of the message is not connected, and also when the message
    names a room, is neither a room join nor a room left ([isRoomJoin],
    [isRoomLeft]: its event is neither [OnRoomJoin] nor [OnRoomLeft]) and
    the room is not in the room set of the [NSConn]. *)
Theorem Write_rejects msg w :
  isConnect msg = false → isDisconnect msg = false →
  connectedNamespacesMutex w = false →
  connectedNamespaces w !! Namespace msg = None
  ∨ (∃ ns, connectedNamespaces w !! Namespace msg = Some ns
           ∧ Room msg ≠ "" ∧ isRoomJoin msg = false ∧ isRoomLeft msg = false
           ∧ Room msg ∉ rooms ns) →
  Write msg w = (Returns false, w) ∧ trace (Write msg w).2 = trace w.
Proof.
  intros Hco Hdi Hm Hout.
  assert (Hacc : accepted msg w = false).
  { unfold accepted, isProtocol, roomScoped. rewrite Hco, Hdi. cbn [orb].
    destruct Hout as [->|(ns & -> & Hroom & -> & -> & Hnot)]; [done|].
    apply String.eqb_neq in Hroom. rewrite Hroom. cbn [negb andb].
    by apply bool_decide_eq_false. }
  assert (Hpr : isProtocol msg = false) by (unfold isProtocol; by rewrite Hco, Hdi).
  assert (Hw : Write msg w = (Returns false, w)).
  { destruct (Write_spec msg w); try done; congruence. }
  by rewrite Hw.
Qed.


(** *** Ask *)
Lemma assignWait_run msg w :
  assignWait msg w
  = (Returns (set_wait (waitToken (negb (server w)) (clock w (clockReads w))) msg),
     set_clockReads (S (clockReads w)) w).
Proof.
  unfold assignWait. rewrite (bind_Returns _ _ _ _ _ (timeNow_run w)).
  unfold IsClient. rewrite bind_get. unfold waitToken. wsimpl.
  by destruct (server w).
Qed.

Lemma deadlinePassed_none ctx w :
  ctx ≫= Deadline = None → deadlinePassed ctx w = (Returns false, w).
Proof. by destruct ctx as [[[d|]]|]. Qed.

Lemma deadlinePassed_some ctx deadline w :
  ctx ≫= Deadline = Some deadline →
  deadlinePassed ctx w
  = (Returns (deadline <? clock w (clockReads w) + (-1) * 1000000000),
     set_clockReads (S (clockReads w)) w).
Proof. destruct ctx as [[[d|]]|]; try done. by intros [= ->]. Qed.

Lemma bind_register {B} token (k : unit → M B) w :
  bind makeChan
    (λ ch, bind (modify (λ w, set_waitingMessages
                                (<[token := ch]> (waitingMessages w)) w)) k) w
  = k tt (registered token w).
Proof. reflexivity. Qed.

(** C6.  On an open [Conn], with a context whose deadline is more than one
    second before the time read for the check, [Ask] returns
    [context.DeadlineExceeded]; only the clock was read (twice): nothing is
    written to the socket and no entry is registered. *)
Theorem Ask_deadline_exceeded (w : World) (ctx : Context) (deadline : Z) (msg : Message) :
  closed w = 0%N →
  Deadline ctx = Some deadline →
  deadline < clock w (S (clockReads w)) - 1000000000 →
  Ask (Some ctx) msg w
  = (Returns (Message0, Some DeadlineExceeded),
     set_clockReads (S (S (clockReads w))) w).
Proof.
  intros Hc Hd Hlt. unfold Ask.
  rewrite (bind_Returns _ _ _ _ _ (IsClosed_open w Hc)).
  rewrite (bind_Returns _ _ _ _ _ (assignWait_run msg w)).
  rewrite (bind_Returns _ _ _ _ _ (deadlinePassed_some (Some ctx) deadline _ Hd)).
  wsimpl.
  replace (deadline <? _) with true by (symmetry; apply Z.ltb_lt; lia).
  unfold ret. by destruct w.
Qed.

Lemma pretty_N_go_no_c x : ∀ s,
  (∀ s', s ≠ String "c"%char s') → ∀ s', pretty_N_go x s ≠ String "c"%char s'.
Proof.
  induction (N.lt_wf_0 x) as [x _ IH]; intros s Hs s'.
  assert (x = 0 ∨ 0 < x)%N as [->|Hpos] by lia.
  - rewrite pretty_N_go_0. apply Hs.
  - rewrite pretty_N_go_step by done. apply IH.
    { by apply N.div_lt. }
    intros s''. unfold pretty_N_char. by repeat case_match.
Qed.

Lemma FormatInt_no_c (i : Z) (s : string) : FormatInt i ≠ String "c"%char s.
Proof.
  unfold FormatInt, pretty, pretty_Z.
  destruct i as [|p|p]; [done| |done].
  unfold pretty, pretty_positive, pretty, pretty_N. case_decide; [done|].
  by apply pretty_N_go_no_c.
Qed.

Lemma prefix_client_FormatInt (i : Z) : String.prefix "client_" (FormatInt i) = false.
Proof.
  destruct (FormatInt i) as [|a s] eqn:Hf; [done|].
  cbn [String.prefix]. destruct (ascii_dec "c"%char a) as [<-|]; [|done].
  by destruct (FormatInt_no_c i s).
Qed.



(** *** Message dispatch *)
(** C1, amended.  For an inbound message whose [wait] is not empty and is
    registered in [waitingMessages]: if a goroutine is receiving from the
    channel of the token, [handleMessage] sends the message on that channel,
    to that one receiver, and returns [true]; nothing else happens, no
    handler is fired and nothing is written.  If nobody receives from the
    channel, [handleMessage] blocks on the send, again without dispatching
    the message. *)
Theorem handleMessage_reply (msg : Message) (ch : nat) (w : World) :
  wait msg ≠ "" →
  waitingMessages w !! wait msg = Some ch →
  (ch ∈ receivers w →
   handleMessage msg w
   = (Returns true,
      set_receivers (receivers w ∖ {[ch]})
                    (set_trace (trace w ++ [ChanSend ch msg]) w)))
  ∧ (ch ∉ receivers w → handleMessage msg w = (Blocks, w)).
Proof.
  intros Hwait Hl. apply String.eqb_neq in Hwait.
  unfold handleMessage. rewrite Hwait. cbn [negb].
  rewrite !bind_assoc, bind_get, Hl, bind_assoc.
  split; intros Hin.
  - by rewrite (bind_Returns _ _ _ _ _ (chanSend_ready ch msg w Hin)).
  - by rewrite (bind_Blocks _ _ _ _ (chanSend_stuck ch msg w Hin)).
Qed.

(** C8, amended.  On the server side, for an [OnNamespaceDisconnect] ask
    (it carries a token and is not a no-op) of a connected namespace, on an
    open connection with the lock free, [replyDisconnect] fires the handler
    before any change of the map.  If the handler answers an error,
    [replyDisconnect] deletes nothing: the next thing it does is to write
    the reply, which carries the error, and the map is as it was, unless
    that write fails with a close error: then [Write] runs [Close], which
    removes every namespace, the one that refused included.  If the handler
    answers nil, the entry is deleted and then the reply is written; the
    entry is gone in the end. *)
Theorem replyDisconnect_server (msg : Message) (ns : NSConn) (w : World) :
  server w = true → closed w = 0%N → connectedNamespacesMutex w = false →
  wait msg ≠ "" → isNoOp msg = false → Event msg = OnNamespaceDisconnect →
  connectedNamespaces w !! Namespace msg = Some ns →
  match events ns msg with
  | Some e =>
      let reply := set_Err (Some e) msg in
      let w' := written (serializeMessage reply) (afterFire ns msg w) in
      replyDisconnect msg w = (Returns tt, w')
      ∧ trace w'
        = trace w ++ [FireEvent (namespace ns) msg; WriteText (serializeMessage reply)]
            ++ (if writeCloses w then closing w else [])
      ∧ connectedNamespaces w'
        = (if writeCloses w then ∅ else connectedNamespaces w)
  | None =>
      let w' := written (serializeMessage msg)
                  (deleted (Namespace msg) (afterFire ns msg w)) in
      replyDisconnect msg w = (Returns tt, w')
      ∧ trace w'
        = trace w ++ [FireEvent (namespace ns) msg; NsDelete (Namespace msg);
                      WriteText (serializeMessage msg)]
            ++ (if writeCloses w then closing (deleted (Namespace msg) w) else [])
      ∧ connectedNamespaces w' !! Namespace msg = None
  end.
Proof.
  intros Hs Hc Hm Hwait Hnoop Hev Hl.
  assert (Hp : ∀ m, Event m = Event msg → isProtocol m = true).
  { intros m Hm'. unfold isProtocol, isDisconnect. rewrite Hm', Hev.
    rewrite String.eqb_refl. apply orb_true_r. }
  assert (Hrun : replyDisconnect msg w
    = bind (fireEvent ns msg)
        (λ err, bind match err with
                     | Some e => ret (set_Err (Some e) msg)
                     | None => bind (nsDelete (Namespace msg)) (λ _, ret msg)
                     end
                  (λ msg, bind (Write msg) (λ _, ret tt))) w).
  { unfold replyDisconnect.
    apply String.eqb_neq in Hwait. rewrite Hwait, Hnoop. cbn [orb].
    rewrite (bind_Returns _ _ _ _ _ (Conn_Namespace_free _ _ Hm)), Hl.
    by rewrite (bind_Returns _ _ _ _ _ (IsClient_run w)), Hs. }
  rewrite Hrun, bind_fireEvent. change (set_trace _ w) with (afterFire ns msg w).
  destruct (events ns msg) as [e|]; cbv zeta.
  - rewrite bind_ret.
    rewrite (bind_Returns _ _ _ _ _
               (Write_accepted (set_Err (Some e) msg) (afterFire ns msg w) Hc Hm
                  (accepted_protocol _ _ (Hp _ eq_refl)))).
    split; [done|]. rewrite written_trace, written_namespaces.
    split; [|done]. unfold afterFire. cbn [trace set_trace]. by rewrite <- !app_assoc.
  - rewrite bind_assoc.
    rewrite (bind_Returns _ _ _ _ _ (nsDelete_free (Namespace msg) (afterFire ns msg w) Hm)).
    rewrite bind_ret.
    rewrite (bind_Returns _ _ _ _ _
               (Write_accepted msg (deleted (Namespace msg) (afterFire ns msg w)) Hc Hm
                  (accepted_protocol _ _ (Hp _ eq_refl)))).
    split; [done|]. rewrite written_trace, written_namespaces.
    split.
    + unfold deleted, afterFire. cbn [trace set_trace set_connectedNamespaces].
      by rewrite <- !app_assoc.
    + change (writeCloses (deleted _ _)) with (writeCloses w).
      destruct (writeCloses w); [apply lookup_empty|].
      unfold deleted, afterFire. cbn [connectedNamespaces set_trace set_connectedNamespaces].
      apply lookup_delete_eq.
Qed.


(** *** Connect and disconnect *)
Lemma Connect_again (ctx : option Context) (ns : string) (c : NSConn) (w : World) :
  connectedNamespaces w !! ns = Some c →
  connectedNamespacesMutex w = false →
  server w = false ∨ acknowledged w ≠ 0%N →
  Connect ctx ns w = (Returns (Some c, None), w).
Proof.
  intros Hl Hm Hack. unfold Connect.
  rewrite (bind_Returns _ _ _ _ _ (IsClient_run w)).
  assert (Hwait : (if negb (negb (server w)) then waitAcknowledged else ret tt) w
                  = (Returns tt, w)).
  { destruct (server w); [|done]. destruct Hack as [|Hack]; [done|].
    cbn [negb]. unfold waitAcknowledged.
    rewrite (bind_Returns _ _ _ _ _ (isAcknowledged_run w)).
    replace (0 <? acknowledged w)%N with true by (symmetry; apply N.ltb_lt; lia).
    done. }
  rewrite (bind_Returns _ _ _ _ _ Hwait).
  unfold askConnect.
  rewrite (bind_Returns _ _ _ _ _ (Conn_Namespace_free _ _ Hm)). by rewrite Hl.
Qed.

Lemma sameConn_refl w : sameConn w w.
Proof. done. Qed.

Lemma sameConn_trans w1 w2 w3 : sameConn w1 w2 → sameConn w2 w3 → sameConn w1 w3.
Proof. unfold sameConn. intros (?&?&?&?) (?&?&?&?). repeat split; congruence. Qed.

Lemma Write_true msg w w' :
  Write msg w = (Returns true, w') → w' = sent (serializeMessage msg) w.
Proof.
  intros Hrun. pose proof (Write_spec msg w) as Hs. rewrite Hrun in Hs.
  by inversion Hs.
Qed.

Lemma Ask_answered ctx msg w reply w' :
  Ask ctx msg w = (Returns (reply, None), w') → sameConn w w'.
Proof.
  unfold Ask. intros (cl & w0 & Hcl & Hrun)%bind_inv.
  unfold IsClosed, get in Hcl. injection Hcl as <- <-.
  destruct (0 <? closed w)%N; [discriminate Hrun|].
  apply bind_inv in Hrun as (msg1 & w1 & Hassign & Hrun).
  rewrite assignWait_run in Hassign. injection Hassign as <- <-.
  apply bind_inv in Hrun as (late & w2 & Hlate & Hrun).
  assert (Hw2 : sameConn w w2).
  { destruct (ctx ≫= Deadline) as [d|] eqn:Hd.
    - rewrite (deadlinePassed_some _ _ _ Hd) in Hlate. by injection Hlate as _ <-.
    - rewrite (deadlinePassed_none _ _ Hd) in Hlate. by injection Hlate as _ <-. }
  destruct late; [discriminate Hrun|].
  rewrite bind_register in Hrun.
  apply bind_inv in Hrun as (ok & w3 & Hwrite & Hrun).
  destruct ok; [|discriminate Hrun].
  apply Write_true in Hwrite as ->.
  apply bind_inv in Hrun as (sel & w4 & Hsel & Hrun).
  assert (Hw4 : sameConn w2 w4).
  { unfold selectAsk in Hsel. cbn [selects sent registered set_writeResults
      set_trace set_waitingMessages set_nextChan] in Hsel.
    destruct (selects w2) as [|[e|r] rest]; [done|destruct ctx|];
      injection Hsel as _ <-; done. }
  destruct sel as [e|receive]; [discriminate Hrun|].
  rewrite bind_modify in Hrun. unfold ret in Hrun. injection Hrun as _ _ <-.
  eapply sameConn_trans; [exact Hw2|]. exact Hw4.
Qed.

Lemma Connect_returns ctx ns c w w' :
  connectedNamespacesMutex w = false →
  Connect ctx ns w = (Returns (Some c, None), w') →
  connectedNamespaces w' !! ns = Some c
  ∧ connectedNamespacesMutex w' = false
  ∧ (server w' = false ∨ acknowledged w' ≠ 0%N).
Proof.
  intros Hm. unfold Connect.
  rewrite (bind_Returns _ _ _ _ _ (IsClient_run w)).
  intros ([] & w0 & Hwait & Hrun)%bind_inv.
  assert (Hw0 : w0 = w ∧ (server w = false ∨ acknowledged w ≠ 0%N)).
  { destruct (server w); cbn [negb] in Hwait.
    - unfold waitAcknowledged in Hwait.
      rewrite (bind_Returns _ _ _ _ _ (isAcknowledged_run w)) in Hwait.
      destruct (N.ltb_spec 0 (acknowledged w)); [|discriminate Hwait].
      injection Hwait as <-. split; [done|]. right. lia.
    - injection Hwait as <-. split; [done|]. by left. }
  destruct Hw0 as [-> Hside]. clear Hwait.
  unfold askConnect in Hrun.
  rewrite (bind_Returns _ _ _ _ _ (Conn_Namespace_free _ _ Hm)) in Hrun.
  destruct (connectedNamespaces w !! ns) as [c0|] eqn:Hl.
  { injection Hrun as <- <-. done. }
  rewrite bind_get in Hrun.
  destruct (namespaces w !! ns) as [evs|]; [|discriminate Hrun].
  apply bind_inv in Hrun as ([reply err] & w1 & Hask & Hrun).
  destruct err as [e|]; [discriminate Hrun|].
  destruct (Ask_answered _ _ _ _ _ Hask) as (Hsrv & Hack & Hns & Hmx).
  rewrite Hm in Hmx.
  rewrite (bind_Returns _ _ _ _ _ (Conn_Namespace_free _ _ Hmx)) in Hrun.
  rewrite Hns, Hl in Hrun.
  rewrite bind_fireEvent in Hrun.
  destruct (events _ _) as [e|]; [discriminate Hrun|].
  rewrite (bind_Returns _ _ _ _ _ (nsInsert_free ns _ (set_trace _ w1) Hmx)) in Hrun.
  rewrite bind_fireEvent in Hrun. unfold ret in Hrun.
  injection Hrun as <- <-. unfold inserted. wsimpl.
  split; [apply lookup_insert_eq|]. split; [done|].
  by rewrite Hsrv, Hack.
Qed.

(** C7.  [Connect] on a namespace that is in [connectedNamespaces] returns
    the [NSConn] of the map and a nil error, and leaves the world as it is:
    no ask, nothing on the wire.  This holds on a client and on an
    acknowledged server-side [Conn] (there [Connect] first waits for the
    acknowledgement), the lock of the namespaces being free; in particular
    it holds in the world that a [Connect] which returned the [NSConn] has
    left, so that repeating the call returns the same [NSConn]. *)
Theorem Connect_connected (ctx : option Context) (ns : string) (c : NSConn) (w : World) :
  (connectedNamespaces w !! ns = Some c →
   connectedNamespacesMutex w = false →
   server w = false ∨ acknowledged w ≠ 0%N →
   Connect ctx ns w = (Returns (Some c, None), w))
  ∧ (∀ (ctx0 : option Context) (w0 : World),
       connectedNamespacesMutex w0 = false →
       Connect ctx0 ns w0 = (Returns (Some c, None), w) →
       Connect ctx ns w = (Returns (Some c, None), w)).
Proof.
  split; [apply Connect_again|].
  intros ctx0 w0 Hm Hfirst.
  destruct (Connect_returns _ _ _ _ _ Hm Hfirst) as (Hl & Hm' & Hside).
  by apply Connect_again.
Qed.

Lemma Held_bind {A B} (m : M A) (k : A → M B) :
  Held m → (∀ a, Held (k a)) → Held (bind m k).
Proof.
  intros Hm Hk w b w' Hheld (a & w1 & Hrun & Hrest)%bind_inv.
  destruct (Hm _ _ _ Hheld Hrun) as [Hns1 Hmx1].
  destruct (Hk a _ _ _ Hmx1 Hrest) as [Hns2 Hmx2].
  split; [congruence|done].
Qed.

Lemma Held_ret {A} (a : A) : Held (ret a).
Proof. intros w a' w' Hheld Hrun. unfold ret in Hrun. by injection Hrun as _ <-. Qed.

Lemma Held_get {A} (f : World → A) : Held (get f).
Proof. intros w a' w' Hheld Hrun. unfold get in Hrun. by injection Hrun as _ <-. Qed.

Lemma Held_modify (f : World → World) :
  (∀ w, connectedNamespaces (f w) = connectedNamespaces w
        ∧ connectedNamespacesMutex (f w) = connectedNamespacesMutex w) →
  Held (modify f).
Proof.
  intros Hf w a' w' Hheld Hrun. unfold modify in Hrun.
  injection Hrun as _ <-. destruct (Hf w) as [-> ->]. done.
Qed.

Lemma Held_Write msg : Held (Write msg).
Proof.
  intros w b w' Hheld Hrun.
  pose proof (Write_spec msg w) as Hs. rewrite Hrun in Hs.
  inversion Hs; subst; try congruence; done.
Qed.

Lemma Held_selectAsk ctx : Held (selectAsk ctx).
Proof.
  intros w a w' Hheld. unfold selectAsk.
  destruct (selects w) as [|[e|r] rest]; [done|destruct ctx|];
    intros [= _ <-]; done.
Qed.

Lemma Held_Ask ctx msg : Held (Ask ctx msg).
Proof.
  unfold Ask.
  apply Held_bind; [apply Held_get|]. intros [|]; [apply Held_ret|].
  apply Held_bind.
  { unfold assignWait, timeNow.
    repeat (apply Held_bind; [|intros ?]);
      try apply Held_get; try apply Held_ret; by apply Held_modify. }
  intros msg1. apply Held_bind.
  { unfold deadlinePassed, timeNow. destruct ctx as [[[d|]]|]; try apply Held_ret.
    repeat (apply Held_bind; [|intros ?]);
      try apply Held_get; try apply Held_ret; by apply Held_modify. }
  intros [|]; [apply Held_ret|].
  apply Held_bind.
  { unfold makeChan. repeat (apply Held_bind; [|intros ?]);
      try apply Held_get; try apply Held_ret; by apply Held_modify. }
  intros ch. apply Held_bind; [by apply Held_modify|]. intros _.
  apply Held_bind; [apply Held_Write|]. intros [|]; [|apply Held_ret].
  apply Held_bind; [apply Held_selectAsk|]. intros [e|r]; [apply Held_ret|].
  apply Held_bind; [by apply Held_modify|]. intros _. apply Held_ret.
Qed.

Lemma rangeLoop_app {R} (body : string → NSConn → M (option R)) (keys1 keys2 : list string) :
  ∀ w,
  rangeLoop (keys1 ++ keys2) body w
  = bind (rangeLoop keys1 body)
         (λ r, match r with
               | Some e => ret (Some e)
               | None => rangeLoop keys2 body
               end) w.
Proof.
  induction keys1 as [|k keys1 IH]; intros w; [reflexivity|].
  cbn [app rangeLoop]. rewrite bind_assoc, !bind_get.
  destruct (connectedNamespaces w !! k) as [ns|]; [|apply IH].
  rewrite bind_assoc. apply bind_ext. intros [e|] w'; [reflexivity|apply IH].
Qed.

Lemma disconnectOne_held ctx k ns w r w' :
  connectedNamespacesMutex w = true →
  disconnectOne ctx k ns w = (Returns r, w') →
  connectedNamespacesMutex w' = true
  ∧ connectedNamespaces w'
    = match r with
      | None => delete k (connectedNamespaces w)
      | Some _ => connectedNamespaces w
      end.
Proof.
  intros Hheld. unfold disconnectOne, askDisconnect.
  rewrite bind_ret, bind_get, bind_ret.
  destruct (connectedNamespaces w !! _) as [c|]; [|by intros [= <- <-]].
  intros ([reply err] & w1 & Hask & Hrest)%bind_inv.
  destruct (Held_Ask _ _ _ _ _ Hheld Hask) as [Hns Hmx].
  destruct err as [e|]; [by injection Hrest as <- <-|].
  rewrite bind_ret, bind_mapDelete, bind_ret, bind_fireEvent in Hrest.
  injection Hrest as <- <-. unfold deleted. wsimpl. by rewrite Hns.
Qed.

Lemma rangeLoop_disconnect ctx keys : ∀ w r w',
  connectedNamespacesMutex w = true →
  rangeLoop keys (disconnectOne ctx) w = (Returns r, w') →
  connectedNamespacesMutex w' = true
  ∧ match r with
    | None => connectedNamespaces w' = foldr delete (connectedNamespaces w) keys
    | Some e =>
        ∃ done failed rest w1 ns,
          keys = done ++ failed :: rest
          ∧ rangeLoop done (disconnectOne ctx) w = (Returns None, w1)
          ∧ connectedNamespaces w1 = foldr delete (connectedNamespaces w) done
          ∧ disconnectOne ctx failed ns w1 = (Returns (Some e), w')
          ∧ connectedNamespaces w' = connectedNamespaces w1
    end.
Proof.
  induction keys as [|k keys IH]; intros w r w' Hheld Hrun.
  - injection Hrun as <- <-. done.
  - cbn [rangeLoop] in Hrun. rewrite bind_get in Hrun.
    destruct (connectedNamespaces w !! k) as [ns|] eqn:Hl.
    + apply bind_inv in Hrun as (r1 & w1 & Hone & Hrest).
      destruct (disconnectOne_held _ _ _ _ _ _ Hheld Hone) as [Hmx1 Hns1].
      destruct r1 as [e|].
      * injection Hrest as <- <-. split; [done|].
        exists [], k, keys, w, ns. done.
      * destruct (IH _ _ _ Hmx1 Hrest) as [Hmx' Hres]. split; [done|].
        destruct r as [e|].
        -- destruct Hres as (done & failed & rest & w2 & ns' & -> & Hdone & Hns2 & Hfail & Hsame).
           exists (k :: done), failed, rest, w2, ns'. split; [done|].
           split.
           { cbn [rangeLoop]. rewrite bind_get, Hl.
             by rewrite (bind_Returns _ _ _ _ _ Hone). }
           split; [|done].
           rewrite Hns2, Hns1. cbn [foldr]. by rewrite delete_foldr_delete.
        -- rewrite Hres, Hns1. cbn [foldr]. by rewrite delete_foldr_delete.
    + destruct (IH _ _ _ Hheld Hrun) as [Hmx' Hres]. split; [done|].
      destruct r as [e|].
      * destruct Hres as (done & failed & rest & w2 & ns' & -> & Hdone & Hns2 & Hfail & Hsame).
        exists (k :: done), failed, rest, w2, ns'. split; [done|].
        split; [cbn [rangeLoop]; by rewrite bind_get, Hl|].
        split; [|done].
        rewrite Hns2. cbn [foldr]. by rewrite delete_foldr_delete, (delete_id _ _ Hl).
      * rewrite Hres. cbn [foldr]. by rewrite delete_foldr_delete, (delete_id _ _ Hl).
Qed.

(** C10.  When the [askDisconnect] of [DisconnectAll] returns an error for
    the namespace [failed] of the traversal, [DisconnectAll] returns that
    error at once: the world is the one that call left, with the lock
    released.  [failed] and the namespaces not yet visited are in
    [connectedNamespaces] as they were, and the namespaces disconnected
    before are gone from it. *)
Theorem DisconnectAll_stops (ctx : option Context) (e : error)
    (done rest : list string) (failed : string) (ns : NSConn) (w w1 w2 : World) :
  connectedNamespacesMutex w = false →
  rangeNamespaces (connectedNamespaces w) = done ++ failed :: rest →
  rangeLoop done (disconnectOne ctx) (set_connectedNamespacesMutex true w)
  = (Returns None, w1) →
  disconnectOne ctx failed ns w1 = (Returns (Some e), w2) →
  DisconnectAll ctx w = (Returns (Some e), set_connectedNamespacesMutex false w2)
  ∧ (∀ k, k ∈ failed :: rest →
       is_Some (connectedNamespaces w !! k)
       ∧ connectedNamespaces w2 !! k = connectedNamespaces w !! k)
  ∧ (∀ k, k ∈ done → connectedNamespaces w2 !! k = None).
Proof.
  intros Hm Hkeys Hdone Hfail.
  destruct (rangeLoop_disconnect ctx done (set_connectedNamespacesMutex true w)
              _ _ eq_refl Hdone) as [Hmx1 Hns1].
  destruct (disconnectOne_held _ _ _ _ _ _ Hmx1 Hfail) as [Hmx2 Hns2].
  cbn [connectedNamespaces set_connectedNamespacesMutex] in Hns1.
  pose proof (NoDup_rangeNamespaces (connectedNamespaces w)) as Hnd.
  rewrite Hkeys in Hnd. apply NoDup_app in Hnd as (_ & Hdisj & _).
  assert (Hkept : ∀ k, k ∈ failed :: rest →
            is_Some (connectedNamespaces w !! k)
            ∧ connectedNamespaces w2 !! k = connectedNamespaces w !! k).
  { intros k Hk. split.
    - apply elem_of_rangeNamespaces. rewrite Hkeys. apply elem_of_app. by right.
    - rewrite Hns2, Hns1. apply lookup_foldr_delete_not_elem_of.
      intros Hin. by apply (Hdisj k). }
  split; [|split; [done|]].
  - unfold DisconnectAll. unfold bind at 1, nsLock. rewrite Hm.
    unfold rangeConnected. rewrite bind_assoc, bind_get.
    change (rangeLoop _ _) with
      (rangeLoop (rangeNamespaces (connectedNamespaces w)) (disconnectOne ctx)).
    rewrite Hkeys. unfold bind at 1.
    rewrite rangeLoop_app, (bind_Returns _ _ _ _ _ Hdone).
    cbn [rangeLoop]. rewrite bind_get.
    destruct (Hkept failed) as [[ns' Hl] Hsame]; [by left|].
    rewrite Hns2 in Hsame. rewrite Hsame, Hl.
    assert (Hfail' : disconnectOne ctx failed ns' w1 = (Returns (Some e), w2)) by done.
    rewrite (bind_Returns _ _ _ _ _ Hfail').
    reflexivity.
  - intros k Hk. rewrite Hns2, Hns1. apply eq_None_not_Some.
    intros [c [Hnot _]%lookup_foldr_delete_Some]. done.
Qed.

(** Conversely, an error of [DisconnectAll] is the error of the
    [askDisconnect] at which the traversal stopped. *)
Lemma DisconnectAll_error (ctx : option Context) (e : error) (w w' : World) :
  connectedNamespacesMutex w = false →
  DisconnectAll ctx w = (Returns (Some e), w') →
  ∃ done failed rest w1 w2 ns,
    rangeNamespaces (connectedNamespaces w) = done ++ failed :: rest
    ∧ rangeLoop done (disconnectOne ctx) (set_connectedNamespacesMutex true w)
      = (Returns None, w1)
    ∧ disconnectOne ctx failed ns w1 = (Returns (Some e), w2)
    ∧ w' = set_connectedNamespacesMutex false w2
    ∧ connectedNamespaces w' = foldr delete (connectedNamespaces w) done
    ∧ (∀ k, k ∈ failed :: rest →
         is_Some (connectedNamespaces w !! k)
         ∧ connectedNamespaces w' !! k = connectedNamespaces w !! k)
    ∧ (∀ k, k ∈ done → connectedNamespaces w' !! k = None).
Proof.
  intros Hm Hrun. unfold DisconnectAll in Hrun.
  unfold bind at 1, nsLock in Hrun. rewrite Hm in Hrun.
  apply bind_inv in Hrun as (r & w2 & Hloop & Hrest).
  unfold nsUnlock in Hrest. rewrite bind_modify in Hrest.
  unfold ret in Hrest. injection Hrest as -> <-.
  unfold rangeConnected in Hloop. rewrite bind_get in Hloop.
  change (rangeLoop _ _) with
    (rangeLoop (rangeNamespaces (connectedNamespaces w)) (disconnectOne ctx)) in Hloop.
  apply rangeLoop_disconnect in Hloop as [Hmx Hres]; [|done].
  destruct Hres as (done & failed & rest & w1 & ns & Hkeys & Hdone & Hns1 & Hfail & Hsame).
  exists done, failed, rest, w1, w2, ns.
  assert (Hfinal : connectedNamespaces (set_connectedNamespacesMutex false w2)
                   = foldr delete (connectedNamespaces w) done).
  { wsimpl. by rewrite Hsame, Hns1. }
  repeat (split; [done|]).
  pose proof (NoDup_rangeNamespaces (connectedNamespaces w)) as Hnd.
  rewrite Hkeys in Hnd. apply NoDup_app in Hnd as (_ & Hdisj & _).
  split.
  - intros k Hk. split.
    + apply elem_of_rangeNamespaces. rewrite Hkeys.
      apply elem_of_app. by right.
    + rewrite Hfinal. apply lookup_foldr_delete_not_elem_of.
      intros Hin. by apply (Hdisj k).
  - intros k Hk. rewrite Hfinal. apply eq_None_not_Some.
    intros [c [Hnot _]%lookup_foldr_delete_Some]. done.
Qed.


(** *** The reader *)
Lemma readerTurn_queues (b : bytes) (queue : list Message) (w : World) :
  acknowledged w = 0%N → String.prefix ackBinary b = false →
  readerTurn b queue w = (Returns (Continue (queue ++ parsed [b])), w).
Proof.
  intros Hack Hpre. unfold readerTurn, parsed.
  rewrite (bind_Returns _ _ _ _ _ (isAcknowledged_unset w Hack)), Hpre.
  cbn [negb andb fmap list_fmap]. rewrite filter_cons, filter_nil.
  destruct (isInvalid (deserializeMessage b)).
  - rewrite decide_False by done. by rewrite app_nil_r.
  - rewrite decide_True by done.
    by rewrite (bind_Returns _ _ _ _ _ (isAcknowledged_unset w Hack)).
Qed.

Lemma readerTurn_latches (h : bytes) (queue : list Message) (w : World) :
  acknowledged w = 0%N → String.prefix ackBinary h = true →
  (server w = true → String.length h ≠ String.length ackBinary) →
  readerTurn h queue w
  = bind (handleQueue queue) (λ _, ret (Continue [])) (latched h w).
Proof.
  intros Hack Hpre Hlen. unfold readerTurn, latched.
  rewrite (bind_Returns _ _ _ _ _ (isAcknowledged_unset w Hack)), Hpre.
  cbn [negb andb].
  rewrite (bind_Returns _ _ _ _ _ (IsClient_run w)).
  destruct (server w); cbn [negb].
  - specialize (Hlen eq_refl). apply Nat.eqb_neq in Hlen. rewrite Hlen.
    by rewrite bind_modify.
  - by rewrite !bind_modify, bind_socketWriteText.
Qed.


(** *** A closed connection, and what [Write] reports *)
Lemma Close_returns w w' : Close w = (Returns tt, w') → closed w' ≠ 0%N.
Proof.
  intros Hrun. destruct (N.eq_dec (closed w) 0%N) as [Hc|Hc].
  - destruct (connectedNamespacesMutex w) eqn:Hm.
    + rewrite (Close_held w Hc Hm) in Hrun. discriminate Hrun.
    + rewrite (Close_open w Hc Hm) in Hrun. by injection Hrun as <-.
  - rewrite (Close_closed w Hc) in Hrun. by injection Hrun as <-.
Qed.

Lemma Write_closed msg w : closed w ≠ 0%N → Write msg w = (Returns false, w).
Proof.
  intros Hc. unfold Write. by rewrite (bind_Returns _ _ _ _ _ (IsClosed_closed w Hc)).
Qed.

Lemma Ask_closed ctx msg w :
  closed w ≠ 0%N → Ask ctx msg w = (Returns (msg, Some (CloseError (-1) ErrWrite)), w).
Proof.
  intros Hc. unfold Ask. by rewrite (bind_Returns _ _ _ _ _ (IsClosed_closed w Hc)).
Qed.

(** X1.  After a [Close] that returned, the connection is inert: every
    [Write] answers [false] and every [Ask] returns the message it was given
    with [CloseError{Code: -1, error: ErrWrite}], both leaving the world as
    it is (nothing is written, no clock is read, no token is registered);
    [startReader] returns at once, and another [Close] does nothing. *)
Theorem Close_then_inert (w w' : World) :
  Close w = (Returns tt, w') →
  (∀ msg, Write msg w' = (Returns false, w'))
  ∧ (∀ ctx msg, Ask ctx msg w' = (Returns (msg, Some (CloseError (-1) ErrWrite)), w'))
  ∧ (∀ frames, startReader frames w' = (Returns tt, w'))
  ∧ Close w' = (Returns tt, w').
Proof.
  intros Hc%Close_returns. split; [|split; [|split]].
  - intros msg. by apply Write_closed.
  - intros ctx msg. by apply Ask_closed.
  - intros frames. unfold startReader.
    by rewrite (bind_Returns _ _ _ _ _ (IsClosed_closed w' Hc)).
  - by apply Close_closed.
Qed.

(** X2.  [Write] answers [true] only on an open connection whose
    [WriteText] returned nil, and then the one thing it did is that call on
    the serialized message.  The message was a connect or a disconnect, or
    its namespace is connected and, when it names a room and is neither a
    room join nor a room left, that room is joined. *)
Theorem Write_true_sent (msg : Message) (w w' : World) :
  Write msg w = (Returns true, w') →
  w' = sent (serializeMessage msg) w
  ∧ closed w = 0%N
  ∧ writeResult w = None
  ∧ (isConnect msg = true ∨ isDisconnect msg = true
     ∨ ∃ ns, connectedNamespaces w !! Namespace msg = Some ns
             ∧ (Room msg = "" ∨ isRoomJoin msg = true ∨ isRoomLeft msg = true
                ∨ Room msg ∈ rooms ns)).
Proof.
  intros Hrun. pose proof (Write_spec msg w) as Hs. rewrite Hrun in Hs.
  inversion Hs as [| | |Hc Hacc Hr| | |]; subst.
  repeat (split; [done|]).
  unfold accepted, isProtocol, roomScoped in Hacc.
  destruct (isConnect msg); [by left|].
  destruct (isDisconnect msg); [by right; left|].
  right. right. cbn [orb] in Hacc.
  destruct (connectedNamespaces w !! Namespace msg) as [ns|]; [|done].
  exists ns. split; [done|].
  destruct (String.eqb_spec (Room msg) ""); [by left|].
  destruct (isRoomJoin msg); [by right; left|].
  destruct (isRoomLeft msg); [by right; right; left|].
  right. right. right. cbn [negb andb] in Hacc. by apply bool_decide_eq_true in Hacc.
Qed.

(** X3.  On an open connection with the lock of the namespaces free, when
    a message passes the checks of [Write] and [WriteText] returns the error
    [e], [Write] answers [false].  If [e] is not a close error the
    connection is as it was, but for the frame that was tried.  If it is,
    [Write] has run [Close]: after the frame and the closing of [closeCh],
    each connected namespace got its forced disconnect and was then removed,
    one entry after the other; both maps are empty, [acknowledged] is 0 and
    [closed] is 1. *)
Theorem Write_socket_error (msg : Message) (e : error) (w : World) :
  closed w = 0%N → connectedNamespacesMutex w = false →
  accepted msg w = true → writeResult w = Some e →
  ∃ w', Write msg w = (Returns false, w')
    ∧ (IsCloseError e = false → w' = sent (serializeMessage msg) w)
    ∧ (IsCloseError e = true →
       ∃ entries,
         entries ≡ₚ map_to_list (connectedNamespaces w)
         ∧ trace w' = trace w ++ [WriteText (serializeMessage msg); CloseCloseCh]
                        ++ (entries ≫= closedEntry)
                        ++ (if server w then [ServerDisconnect] else []) ++ [NetConnClose]
         ∧ closed w' = 1%N ∧ connectedNamespaces w' = ∅ ∧ waitingMessages w' = ∅
         ∧ acknowledged w' = 0%N).
Proof.
  intros Hc Hm Hacc Hr.
  rewrite (Write_accepted msg w Hc Hm Hacc). unfold writeOk, written. rewrite Hr.
  eexists. split; [done|]. split; intros He; rewrite He; [done|].
  destruct (firedOf_range (connectedNamespaces w)) as (entries & Hperm & Hfired).
  exists entries. split; [done|].
  unfold closeWorld. wsimpl. rewrite <- Hfired, <- !app_assoc. done.
Qed.

(** *** The tokens and the ways out of [Ask] *)
Lemma pretty_N_go_nonempty x : ∀ s, s ≠ "" → pretty_N_go x s ≠ "".
Proof.
  induction (N.lt_wf_0 x) as [x _ IH]; intros s Hs.
  assert (x = 0 ∨ 0 < x)%N as [->|Hpos] by lia.
  - by rewrite pretty_N_go_0.
  - rewrite pretty_N_go_step by done. apply IH; [by apply N.div_lt|done].
Qed.

Lemma FormatInt_nonempty (i : Z) : FormatInt i ≠ "".
Proof.
  unfold FormatInt, pretty, pretty_Z.
  destruct i as [|p|p]; [done| |done].
  unfold pretty, pretty_positive, pretty, pretty_N. case_decide; [done|].
  rewrite pretty_N_go_step by lia. by apply pretty_N_go_nonempty.
Qed.

Lemma waitToken_nonempty client t : waitToken client t ≠ "".
Proof. unfold waitToken. destruct client; [done|apply FormatInt_nonempty]. Qed.

Lemma waitToken_sides t1 t2 : waitToken true t1 ≠ waitToken false t2.
Proof.
  unfold waitToken. intros Heq.
  pose proof (prefix_client_FormatInt (UnixNano t2)) as Hp.
  rewrite <- Heq in Hp. cbn [String.append String.prefix] in Hp.
  by destruct (FormatInt (UnixNano t1)).
Qed.

(** X4.  The token that [Ask] assigns replaces whatever [wait] the
    caller had set and leaves the other fields of the message; it is never
    empty, so the peer takes the message for an ask; and it differs from
    every token assigned on the other side of a connection. *)
Theorem assignWait_token (msg m : Message) (w w' : World) :
  assignWait msg w = (Returns m, w') →
  m = set_wait (wait m) msg
  ∧ wait m ≠ ""
  ∧ (∀ msg2 m2 w2 w2',
       server w2 ≠ server w → assignWait msg2 w2 = (Returns m2, w2') →
       wait m2 ≠ wait m).
Proof.
  rewrite assignWait_run. intros [= <- <-]. cbn [wait set_wait].
  split; [done|]. split; [apply waitToken_nonempty|].
  intros msg2 m2 w2 w2' Hside. rewrite assignWait_run. intros [= <- <-].
  cbn [wait set_wait].
  destruct (server w), (server w2); try done; cbn [negb].
  - apply waitToken_sides.
  - intros Heq. by apply (waitToken_sides _ _ (eq_sym Heq)).
Qed.

Lemma isProtocol_connect msg : Event msg = OnNamespaceConnect → isProtocol msg = true.
Proof. intros Hev. unfold isProtocol, isConnect. by rewrite Hev, String.eqb_refl. Qed.

Lemma isProtocol_disconnect msg : Event msg = OnNamespaceDisconnect → isProtocol msg = true.
Proof.
  intros Hev. unfold isProtocol, isDisconnect. rewrite Hev, String.eqb_refl.
  apply orb_true_r.
Qed.

Lemma accepted_ext msg msg' w w' :
  Namespace msg' = Namespace msg → Room msg' = Room msg → Event msg' = Event msg →
  connectedNamespaces w' = connectedNamespaces w →
  accepted msg' w' = accepted msg w.
Proof.
  intros Hn Hr He Hc.
  unfold accepted, isProtocol, roomScoped, isConnect, isDisconnect, isRoomJoin, isRoomLeft.
  by rewrite Hn, Hr, He, Hc.
Qed.

Lemma Ask_asks ctx msg w :
  closed w = 0%N → onTime ctx w = true →
  Ask ctx msg w
  = bind (Write (set_wait (askToken w) msg))
      (λ ok, if negb ok then ret (Message0, Some ErrWrite) else
             sel <- selectAsk ctx;
             match sel with
             | CtxDone e => ret (Message0, Some e)
             | Receive receive =>
                 _ <- modify (λ w, set_waitingMessages
                                     (delete (wait receive) (waitingMessages w)) w);
                 ret (receive, Err receive)
             end)
      (registered (askToken w) (ticked ctx w)).
Proof.
  intros Hc Htime. unfold Ask, onTime, ticked in *.
  rewrite (bind_Returns _ _ _ _ _ (IsClosed_open w Hc)).
  rewrite (bind_Returns _ _ _ _ _ (assignWait_run msg w)).
  fold (askToken w).
  destruct (ctx ≫= Deadline) as [d|] eqn:Hd.
  - rewrite (bind_Returns _ _ _ _ _ (deadlinePassed_some ctx d _ Hd)).
    cbn [clock clockReads set_clockReads].
    apply negb_true_iff in Htime. rewrite Htime.
    rewrite bind_register. cbn [wait set_wait].
    by destruct w.
  - rewrite (bind_Returns _ _ _ _ _ (deadlinePassed_none ctx _ Hd)).
    rewrite bind_register. cbn [wait set_wait]. done.
Qed.

Lemma ticked_keeps ctx w :
  closed (ticked ctx w) = closed w
  ∧ connectedNamespacesMutex (ticked ctx w) = connectedNamespacesMutex w
  ∧ connectedNamespaces (ticked ctx w) = connectedNamespaces w
  ∧ writeResults (ticked ctx w) = writeResults w
  ∧ selects (ticked ctx w) = selects w
  ∧ trace (ticked ctx w) = trace w
  ∧ waitingMessages (ticked ctx w) = waitingMessages w
  ∧ nextChan (ticked ctx w) = nextChan w.
Proof. unfold ticked. by destruct (ctx ≫= Deadline). Qed.

Lemma Ask_asked ctx msg w :
  closed w = 0%N → connectedNamespacesMutex w = false → accepted msg w = true →
  onTime ctx w = true → writeResult w = None →
  Ask ctx msg w
  = bind (selectAsk ctx)
      (λ sel, match sel with
              | CtxDone e => ret (Message0, Some e)
              | Receive receive =>
                  _ <- modify (λ w, set_waitingMessages
                                      (delete (wait receive) (waitingMessages w)) w);
                  ret (receive, Err receive)
              end)
      (asked ctx msg w).
Proof.
  intros Hc Hm Hacc Htime Hr. rewrite Ask_asks by done.
  destruct (ticked_keeps ctx w) as (Hc' & Hm' & Hns' & Hwr' & _).
  erewrite bind_Returns; cycle 1.
  { apply Write_accepted.
    - unfold registered. wsimpl. by rewrite Hc'.
    - unfold registered. wsimpl. by rewrite Hm'.
    - rewrite <- Hacc. by apply accepted_ext. }
  unfold writeOk, written, writeResult in *.
  unfold registered at 1 2. wsimpl. rewrite Hwr'.
  destruct (head (writeResults w)) as [[e|]|] eqn:Hh; try done.
Qed.

(** X5.  An [Ask] that gets its answer: on an open connection, the
    deadline check and the checks of [Write] passed and the socket having
    accepted the frame, when the select takes [reply] from the channel,
    [Ask] returns [reply] with the error that [reply] carries.  It wrote one
    frame, the message with the token, and removed from [waitingMessages]
    the entry named by the [wait] of the reply: when that is the token of
    the ask, and the token was fresh, [waitingMessages] is as it was. *)
Theorem Ask_reply (ctx : option Context) (msg reply : Message) (rest : list Select)
    (w : World) :
  closed w = 0%N → connectedNamespacesMutex w = false → accepted msg w = true →
  onTime ctx w = true → writeResult w = None → selects w = Receive reply :: rest →
  let w' := answered reply (asked ctx msg w) in
  Ask ctx msg w = (Returns (reply, Err reply), w')
  ∧ trace w' = trace w ++ [WriteText (serializeMessage (set_wait (askToken w) msg))]
  ∧ waitingMessages w'
    = delete (wait reply) (<[askToken w := nextChan w]> (waitingMessages w))
  ∧ (wait reply = askToken w → waitingMessages w !! askToken w = None →
     waitingMessages w' = waitingMessages w).
Proof.
  intros Hc Hm Hacc Htime Hr Hsel w'. subst w'.
  destruct (ticked_keeps ctx w) as (Hc' & Hm' & Hns' & Hwr' & Hsel' & Htr' & Hwm' & Hnc').
  assert (Hwm : waitingMessages (answered reply (asked ctx msg w))
                = delete (wait reply) (<[askToken w := nextChan w]> (waitingMessages w))).
  { unfold answered, asked, registered. wsimpl. by rewrite Hwm', Hnc'. }
  split; [|split; [|split]].
  - rewrite Ask_asked by done.
    unfold bind at 1, selectAsk.
    assert (Hs : selects (asked ctx msg w) = Receive reply :: rest).
    { unfold asked, registered. wsimpl. by rewrite Hsel'. }
    unfold answered. rewrite Hs. done.
  - unfold answered, asked, registered. wsimpl. by rewrite Htr'.
  - done.
  - intros Heq Hfresh. rewrite Hwm, Heq, delete_insert_eq. by apply delete_id.
Qed.

(** X6.  An [Ask] whose context is done first: in the same situation,
    when the select takes [ctx.Done()], [Ask] returns [Message{}] with the
    error of the context.  The frame was written and the connection is
    still open, and the entry registered under the token stays in
    [waitingMessages]. *)
Theorem Ask_cancelled (c : Context) (msg : Message) (e : error) (rest : list Select)
    (w : World) :
  closed w = 0%N → connectedNamespacesMutex w = false → accepted msg w = true →
  onTime (Some c) w = true → writeResult w = None → selects w = CtxDone e :: rest →
  ∃ w', Ask (Some c) msg w = (Returns (Message0, Some e), w')
    ∧ trace w' = trace w ++ [WriteText (serializeMessage (set_wait (askToken w) msg))]
    ∧ waitingMessages w' = <[askToken w := nextChan w]> (waitingMessages w)
    ∧ closed w' = 0%N.
Proof.
  intros Hc Hm Hacc Htime Hr Hsel.
  destruct (ticked_keeps (Some c) w) as (Hc' & Hm' & Hns' & Hwr' & Hsel' & Htr' & Hwm' & Hnc').
  exists (set_selects rest (asked (Some c) msg w)).
  split; [|split; [|split]].
  - rewrite Ask_asked by done.
    unfold bind at 1, selectAsk.
    assert (Hs : selects (asked (Some c) msg w) = CtxDone e :: rest).
    { unfold asked, registered. wsimpl. by rewrite Hsel'. }
    rewrite Hs. done.
  - unfold asked, registered. wsimpl. by rewrite Htr'.
  - unfold asked, registered. wsimpl. by rewrite Hwm', Hnc'.
  - unfold asked, registered. wsimpl. by rewrite Hc'.
Qed.

(** *** The answer to a connect ask *)
Lemma framesOf_app tr1 tr2 : framesOf (tr1 ++ tr2) = framesOf tr1 ++ framesOf tr2.
Proof. apply omap_app. Qed.

Lemma framesOf_firedOf m keys : framesOf (firedOf m keys) = [].
Proof.
  induction keys as [|k keys IH]; [done|].
  rewrite firedOf_cons, framesOf_app, IH. unfold closedOne. by destruct (m !! k).
Qed.

Lemma framesOf_closeWorld w : framesOf (trace (closeWorld w)) = framesOf (trace w).
Proof.
  unfold closeWorld. cbn [trace]. rewrite !framesOf_app, framesOf_firedOf.
  destruct (server w); cbn; by rewrite app_nil_r.
Qed.

Lemma framesOf_written body w :
  framesOf (trace (written body w)) = framesOf (trace w) ++ [body].
Proof.
  unfold written.
  assert (Hs : framesOf (trace (sent body w)) = framesOf (trace w) ++ [body]).
  { unfold sent. cbn [trace set_writeResults set_trace]. by rewrite framesOf_app. }
  destruct (writeResult w) as [e|]; [|done].
  destruct (IsCloseError e); [|done]. by rewrite framesOf_closeWorld.
Qed.

Lemma framesOf_afterFire ns msg w :
  framesOf (trace (afterFire ns msg w)) = framesOf (trace w).
Proof.
  unfold afterFire. cbn [trace set_trace]. rewrite framesOf_app. cbn.
  by rewrite app_nil_r.
Qed.

Lemma framesOf_inserted k ns w :
  framesOf (trace (inserted k ns w)) = framesOf (trace w).
Proof.
  unfold inserted. cbn [trace set_trace set_connectedNamespaces].
  rewrite framesOf_app. cbn. by rewrite app_nil_r.
Qed.

Lemma framesOf_deleted k w :
  framesOf (trace (deleted k w)) = framesOf (trace w).
Proof.
  unfold deleted. cbn [trace set_trace set_connectedNamespaces].
  rewrite framesOf_app. cbn. by rewrite app_nil_r.
Qed.

Lemma Write_protocol_frames msg w :
  connectedNamespacesMutex w = false → isProtocol msg = true →
  ∃ b w', Write msg w = (Returns b, w')
    ∧ framesOf (trace w')
      = framesOf (trace w)
          ++ (if (closed w =? 0)%N then [serializeMessage msg] else []).
Proof.
  intros Hm Hp. destruct (N.eqb_spec (closed w) 0) as [Hc|Hc].
  - rewrite (Write_accepted msg w Hc Hm (accepted_protocol _ _ Hp)).
    eexists _, _. split; [done|]. apply framesOf_written.
  - rewrite (Write_closed msg w Hc). eexists _, _. split; [done|]. by rewrite app_nil_r.
Qed.

(** X7.  Every connect ask is answered, as long as the connection is
    open.  For a message of event [OnNamespaceConnect] with a token, not a
    no-op, handled with the lock of the namespaces free, [replyConnect]
    returns.  On an open connection exactly one frame was written by then, a
    reply with the token of the ask: the ask marked [isNoOp] when the
    namespace is connected already, the ask with [ErrBadNamespace] when the
    namespace is not declared, the ask with the error of the handler when
    the [OnNamespaceConnect] handler refused, and the ask itself otherwise.
    On a closed connection no frame is written. *)
Theorem replyConnect_answers (msg : Message) (w : World) :
  connectedNamespacesMutex w = false →
  wait msg ≠ "" → isNoOp msg = false → Event msg = OnNamespaceConnect →
  let reply :=
    match connectedNamespaces w !! Namespace msg, namespaces w !! Namespace msg with
    | Some _, _ => set_isNoOp true msg
    | None, None => set_Err (Some ErrBadNamespace) msg
    | None, Some evs =>
        match evs msg with
        | Some e => set_Err (Some e) msg
        | None => msg
        end
    end in
  ∃ w', replyConnect msg w = (Returns tt, w')
    ∧ framesOf (trace w')
      = framesOf (trace w)
          ++ (if (closed w =? 0)%N then [serializeMessage reply] else [])
    ∧ wait reply = wait msg.
Proof.
  intros Hm Hwait Hnoop Hev reply. subst reply. unfold replyConnect.
  apply String.eqb_neq in Hwait. rewrite Hwait, Hnoop. cbn [orb].
  rewrite (bind_Returns _ _ _ _ _ (Conn_Namespace_free _ _ Hm)).
  assert (Hp : ∀ m, Event m = Event msg → isProtocol m = true).
  { intros m Hm'. apply isProtocol_connect. congruence. }
  destruct (connectedNamespaces w !! Namespace msg) as [c0|] eqn:Hl.
  { destruct (Write_protocol_frames (set_isNoOp true msg) w Hm (Hp _ eq_refl))
      as (b & w1 & Hw & Hfr).
    rewrite (bind_Returns _ _ _ _ _ Hw). by eexists. }
  rewrite bind_get.
  destruct (namespaces w !! Namespace msg) as [evs|].
  2:{ destruct (Write_protocol_frames (set_Err (Some ErrBadNamespace) msg) w Hm
                  (Hp _ eq_refl)) as (b & w1 & Hw & Hfr).
      rewrite (bind_Returns _ _ _ _ _ Hw). by eexists. }
  rewrite bind_fireEvent. cbn [events newNSConn namespace].
  change (set_trace _ w) with (afterFire (newNSConn (Namespace msg) evs) msg w).
  set (c := newNSConn (Namespace msg) evs).
  destruct (evs msg) as [e|].
  { destruct (Write_protocol_frames (set_Err (Some e) msg) (afterFire c msg w) Hm
                (Hp _ eq_refl)) as (b & w1 & Hw & Hfr).
    rewrite (bind_Returns _ _ _ _ _ Hw). eexists. split; [done|]. split; [|done].
    by rewrite Hfr, framesOf_afterFire. }
  rewrite (bind_Returns _ _ _ _ _ (nsInsert_free _ _ (afterFire c msg w) Hm)).
  destruct (Write_protocol_frames msg (inserted (Namespace msg) c (afterFire c msg w)) Hm
              (Hp _ eq_refl)) as (b & w1 & Hw & Hfr).
  rewrite (bind_Returns _ _ _ _ _ Hw), bind_fireEvent.
  eexists. split; [done|]. split; [|done].
  cbn [trace set_trace]. rewrite framesOf_app, Hfr, framesOf_inserted, framesOf_afterFire.
  cbn. by rewrite app_nil_r.
Qed.

(** X8.  [replyConnect] on a connect ask (it carries a token and is not a
    no-op) for a declared namespace that is not connected, on an open
    connection with the lock free, fires the [OnNamespaceConnect] handler on
    the [NSConn] it has built, before any change of the map.  If the handler
    returns an error, the next thing is the write of the reply with that
    error, and the namespace is not connected in the end.  Otherwise the
    [NSConn] is inserted, then the reply is written, and
    [OnNamespaceConnected] is fired last, whatever the write did: the
    namespace is connected in the end, unless the write failed with a close
    error, in which case [Write] ran [Close] and the map is empty when
    [OnNamespaceConnected] is fired. *)
Theorem replyConnect_connects (msg : Message) (evs : Events) (w : World) :
  closed w = 0%N → connectedNamespacesMutex w = false →
  wait msg ≠ "" → isNoOp msg = false → Event msg = OnNamespaceConnect →
  connectedNamespaces w !! Namespace msg = None →
  namespaces w !! Namespace msg = Some evs →
  let k := Namespace msg in
  let c := newNSConn k evs in
  match evs msg with
  | Some e =>
      let reply := set_Err (Some e) msg in
      let w' := written (serializeMessage reply) (afterFire c msg w) in
      replyConnect msg w = (Returns tt, w')
      ∧ trace w'
        = trace w ++ [FireEvent k msg; WriteText (serializeMessage reply)]
            ++ (if writeCloses w then closing w else [])
      ∧ connectedNamespaces w' !! k = None
  | None =>
      let w' := afterFire c (set_Event OnNamespaceConnected msg)
                  (written (serializeMessage msg) (inserted k c (afterFire c msg w))) in
      replyConnect msg w = (Returns tt, w')
      ∧ trace w'
        = trace w ++ [FireEvent k msg; NsInsert k; WriteText (serializeMessage msg)]
            ++ (if writeCloses w then closing (inserted k c w) else [])
            ++ [FireEvent k (set_Event OnNamespaceConnected msg)]
      ∧ connectedNamespaces w'
        = (if writeCloses w then ∅ else <[k := c]> (connectedNamespaces w))
  end.
Proof.
  intros Hc Hm Hwait Hnoop Hev Hl Hd k c.
  assert (Hp : ∀ m w0, Event m = Event msg → accepted m w0 = true).
  { intros m w0 Hm'. apply accepted_protocol, isProtocol_connect. congruence. }
  assert (Hrun : replyConnect msg w
    = bind (fireEvent c msg)
        (λ err, match err with
                | Some e => bind (Write (set_Err (Some e) msg)) (λ _, ret tt)
                | None =>
                    bind (nsInsert k c)
                      (λ _, bind (Write msg)
                              (λ _, bind (fireEvent c (set_Event OnNamespaceConnected msg))
                                      (λ _, ret tt)))
                end) w).
  { unfold replyConnect.
    apply String.eqb_neq in Hwait. rewrite Hwait, Hnoop. cbn [orb].
    rewrite (bind_Returns _ _ _ _ _ (Conn_Namespace_free _ _ Hm)), Hl.
    by rewrite bind_get, Hd. }
  rewrite Hrun, bind_fireEvent. cbn [events newNSConn namespace c].
  change (set_trace _ w) with (afterFire c msg w).
  destruct (evs msg) as [e|]; cbv zeta.
  - rewrite (bind_Returns _ _ _ _ _
               (Write_accepted (set_Err (Some e) msg) (afterFire c msg w) Hc Hm
                  (Hp _ _ eq_refl))).
    split; [done|]. rewrite written_trace, written_namespaces. split.
    + unfold afterFire. cbn [trace set_trace namespace c newNSConn].
      by rewrite <- !app_assoc.
    + change (writeCloses (afterFire c msg w)) with (writeCloses w).
      by destruct (writeCloses w); [apply lookup_empty|].
  - rewrite (bind_Returns _ _ _ _ _ (nsInsert_free k c (afterFire c msg w) Hm)).
    rewrite (bind_Returns _ _ _ _ _
               (Write_accepted msg (inserted k c (afterFire c msg w)) Hc Hm
                  (Hp _ _ eq_refl))).
    rewrite bind_fireEvent.
    change (set_trace _ ?x) with (afterFire c (set_Event OnNamespaceConnected msg) x).
    split; [done|]. unfold afterFire at 1 3. cbn [trace connectedNamespaces set_trace].
    rewrite written_trace, written_namespaces.
    change (writeCloses (inserted k c (afterFire c msg w))) with (writeCloses w).
    split; [|done].
    unfold inserted at 1, afterFire. cbn [trace set_trace set_connectedNamespaces namespace c newNSConn].
    by rewrite <- !app_assoc.
Qed.

(** *** [Connect] *)
Lemma bind_afterFire {B} ns msg (k : option error → M B) w :
  bind (fireEvent ns msg) k w = k (events ns msg) (afterFire ns msg w).
Proof. reflexivity. Qed.

Lemma Connect_ready ctx ns w :
  server w = false ∨ acknowledged w ≠ 0%N →
  Connect ctx ns w = askConnect ctx ns w.
Proof.
  intros Hside. unfold Connect.
  rewrite (bind_Returns _ _ _ _ _ (IsClient_run w)).
  destruct (server w); cbn [negb]; [|done].
  destruct Hside as [|Hack]; [done|]. unfold waitAcknowledged.
  rewrite bind_assoc, (bind_Returns _ _ _ _ _ (isAcknowledged_run w)).
  replace (0 <? acknowledged w)%N with true by (symmetry; apply N.ltb_lt; lia).
  done.
Qed.

Lemma answered_asked_keeps reply ctx msg w :
  let w' := answered reply (asked ctx msg w) in
  closed w' = closed w
  ∧ connectedNamespacesMutex w' = connectedNamespacesMutex w
  ∧ connectedNamespaces w' = connectedNamespaces w
  ∧ namespaces w' = namespaces w
  ∧ server w' = server w
  ∧ trace w' = trace w ++ [WriteText (serializeMessage (set_wait (askToken w) msg))].
Proof.
  unfold answered, asked, registered, ticked.
  destruct (ctx ≫= Deadline); wsimpl; done.
Qed.

Lemma askConnect_asks ctx ns evs w :
  connectedNamespacesMutex w = false →
  connectedNamespaces w !! ns = None → namespaces w !! ns = Some evs →
  askConnect ctx ns w
  = bind (Ask ctx (connectMessage ns))
      (λ '(_, err),
         match err with
         | Some e => ret (None, Some e)
         | None =>
             again <- Conn_Namespace ns;
             match again with
             | Some c => ret (Some c, None)
             | None =>
                 let c := newNSConn ns evs in
                 err <- fireEvent c (connectMessage ns);
                 match err with
                 | Some e => ret (None, Some e)
                 | None =>
                     _ <- nsInsert ns c;
                     _ <- fireEvent c (set_Event OnNamespaceConnected (connectMessage ns));
                     ret (Some c, None)
                 end
             end
         end) w.
Proof.
  intros Hm Hl Hd. unfold askConnect.
  rewrite (bind_Returns _ _ _ _ _ (Conn_Namespace_free _ _ Hm)), Hl.
  by rewrite bind_get, Hd.
Qed.

(** X9.  [Connect] to a declared namespace that is not connected, on a
    client or an acknowledged server-side connection that is open, with the
    lock free: when the ask passes the deadline check, the socket accepts
    it, the peer's answer arrives and carries no error, and the local
    [OnNamespaceConnect] handler accepts, [Connect] returns the new
    [NSConn], which is now in [connectedNamespaces].  What it did, in this
    order: it wrote the connect ask with its token, fired
    [OnNamespaceConnect], inserted the [NSConn], and fired
    [OnNamespaceConnected]; both handlers get the message without token. *)
Theorem Connect_accepts (ctx : option Context) (ns : string) (evs : Events)
    (reply : Message) (rest : list Select) (w : World) :
  server w = false ∨ acknowledged w ≠ 0%N →
  closed w = 0%N → connectedNamespacesMutex w = false →
  connectedNamespaces w !! ns = None → namespaces w !! ns = Some evs →
  onTime ctx w = true → writeResult w = None → selects w = Receive reply :: rest →
  Err reply = None → evs (connectMessage ns) = None →
  let c := newNSConn ns evs in
  ∃ w', Connect ctx ns w = (Returns (Some c, None), w')
    ∧ connectedNamespaces w' = <[ns := c]> (connectedNamespaces w)
    ∧ connectedNamespacesMutex w' = false
    ∧ trace w'
      = trace w ++ [WriteText (serializeMessage (set_wait (askToken w) (connectMessage ns)));
                    FireEvent ns (connectMessage ns);
                    NsInsert ns;
                    FireEvent ns (set_Event OnNamespaceConnected (connectMessage ns))].
Proof.
  intros Hside Hc Hm Hl Hd Htime Hr Hsel Herr Hok c.
  rewrite Connect_ready by done. rewrite (askConnect_asks ctx ns evs) by done.
  assert (Hacc : accepted (connectMessage ns) w = true)
    by by apply accepted_protocol, isProtocol_connect.
  destruct (Ask_reply ctx (connectMessage ns) reply rest w) as [Hask _]; try done.
  rewrite (bind_Returns _ _ _ _ _ Hask). rewrite Herr.
  destruct (answered_asked_keeps reply ctx (connectMessage ns) w)
    as (Hc' & Hm' & Hns' & _ & _ & Htr').
  set (w1 := answered reply (asked ctx (connectMessage ns) w)) in *.
  rewrite Hm in Hm'.
  rewrite (bind_Returns _ _ _ _ _ (Conn_Namespace_free _ _ Hm')), Hns', Hl.
  rewrite bind_afterFire. cbn [events newNSConn]. rewrite Hok.
  rewrite (bind_Returns _ _ _ _ _ (nsInsert_free ns _ (afterFire _ _ w1) Hm')).
  rewrite bind_afterFire.
  eexists. split; [done|]. unfold inserted, afterFire. wsimpl. rewrite Hns', Htr'.
  split; [done|]. split; [done|]. cbn [namespace]. by rewrite <- !app_assoc.
Qed.

(** X10.  In the same situation, when the peer's answer carries an
    error, [Connect] returns that error without firing a handler; when the
    answer carries none and the local [OnNamespaceConnect] handler returns
    an error, [Connect] returns the handler's error.  Either way
    [connectedNamespaces] is unchanged and the lock is free. *)
Theorem Connect_refused (ctx : option Context) (ns : string) (evs : Events)
    (reply : Message) (rest : list Select) (e : error) (w : World) :
  server w = false ∨ acknowledged w ≠ 0%N →
  closed w = 0%N → connectedNamespacesMutex w = false →
  connectedNamespaces w !! ns = None → namespaces w !! ns = Some evs →
  onTime ctx w = true → writeResult w = None → selects w = Receive reply :: rest →
  Err reply = Some e ∨ (Err reply = None ∧ evs (connectMessage ns) = Some e) →
  ∃ w', Connect ctx ns w = (Returns (None, Some e), w')
    ∧ connectedNamespaces w' = connectedNamespaces w
    ∧ connectedNamespacesMutex w' = false
    ∧ trace w'
      = trace w ++ [WriteText (serializeMessage (set_wait (askToken w) (connectMessage ns)))]
          ++ match Err reply with
             | Some _ => []
             | None => [FireEvent ns (connectMessage ns)]
             end.
Proof.
  intros Hside Hc Hm Hl Hd Htime Hr Hsel Hwhy.
  rewrite Connect_ready by done. rewrite (askConnect_asks ctx ns evs) by done.
  assert (Hacc : accepted (connectMessage ns) w = true)
    by by apply accepted_protocol, isProtocol_connect.
  destruct (Ask_reply ctx (connectMessage ns) reply rest w) as [Hask _]; try done.
  rewrite (bind_Returns _ _ _ _ _ Hask).
  destruct (answered_asked_keeps reply ctx (connectMessage ns) w)
    as (Hc' & Hm' & Hns' & _ & _ & Htr').
  set (w1 := answered reply (asked ctx (connectMessage ns) w)) in *.
  rewrite Hm in Hm'.
  destruct Hwhy as [Herr|[Herr Hveto]]; rewrite Herr.
  - eexists. split; [done|]. by rewrite app_nil_r.
  - rewrite (bind_Returns _ _ _ _ _ (Conn_Namespace_free _ _ Hm')), Hns', Hl.
    rewrite bind_afterFire. cbn [events newNSConn]. rewrite Hveto.
    eexists. split; [done|]. unfold afterFire. wsimpl. rewrite Htr'. cbn [namespace].
    by rewrite <- !app_assoc.
Qed.

(** X11.  On a client, or on a server-side connection that is
    acknowledged, with the lock of the namespaces free, [Connect] to a
    namespace that is neither connected nor declared returns
    [ErrBadNamespace] and leaves the world as it is: the peer is not asked,
    no token is taken. *)
Theorem Connect_undeclared (ctx : option Context) (ns : string) (w : World) :
  server w = false ∨ acknowledged w ≠ 0%N →
  connectedNamespacesMutex w = false →
  connectedNamespaces w !! ns = None → namespaces w !! ns = None →
  Connect ctx ns w = (Returns (None, Some ErrBadNamespace), w).
Proof.
  intros Hside Hm Hl Hd. rewrite Connect_ready by done. unfold askConnect.
  rewrite (bind_Returns _ _ _ _ _ (Conn_Namespace_free _ _ Hm)), Hl.
  by rewrite bind_get, Hd.
Qed.

(** X12.  After the [Close] of an open connection, [Connect] on the
    server side never returns: [Close] reset [acknowledged], for which
    [Connect] polls.  On the client, [Connect] to a declared namespace
    returns [CloseError{Code: -1, error: ErrWrite}] and changes nothing. *)
Theorem Connect_after_Close (ctx : option Context) (ns : string) (w w' : World) :
  closed w = 0%N → Close w = (Returns tt, w') →
  (server w = true → Connect ctx ns w' = (Blocks, w'))
  ∧ (server w = false → is_Some (namespaces w !! ns) →
     Connect ctx ns w' = (Returns (None, Some (CloseError (-1) ErrWrite)), w')).
Proof.
  intros Hc Hrun.
  destruct (connectedNamespacesMutex w) eqn:Hm.
  { rewrite (Close_held w Hc Hm) in Hrun. discriminate Hrun. }
  rewrite (Close_open w Hc Hm) in Hrun. injection Hrun as <-.
  split.
  - intros Hs. unfold Connect.
    rewrite (bind_Returns _ _ _ _ _ (IsClient_run _)).
    cbn [server closeWorld]. rewrite Hs. cbn [negb].
    unfold waitAcknowledged. rewrite bind_assoc.
    by rewrite (bind_Returns _ _ _ _ _ (isAcknowledged_unset (closeWorld w) eq_refl)).
  - intros Hs [evs Hd]. rewrite Connect_ready by (by left).
    unfold askConnect.
    rewrite (bind_Returns _ _ _ _ _ (Conn_Namespace_free _ (closeWorld w) eq_refl)).
    cbn [connectedNamespaces closeWorld]. rewrite lookup_empty.
    rewrite bind_get. cbn [namespaces closeWorld]. rewrite Hd.
    by rewrite (bind_Returns _ _ _ _ _ (Ask_closed ctx _ (closeWorld w) ltac:(done))).
Qed.

(** *** Disconnecting one namespace *)
(** X13.  [askDisconnect], taking the lock itself, for a message that
    passes the checks of [Write] and whose namespace is connected, on an
    open connection with the lock free: when the ask passes the deadline
    check, the socket accepts it and the peer's answer arrives, the error of
    the answer is the result.  With an error, the namespace stays connected
    and no handler is fired.  Without one, the namespace is removed and
    after that the local handler is fired on the message marked [IsLocal];
    what the handler returns is not looked at.  The lock is free
    afterwards. *)
Theorem askDisconnect_outcome (ctx : option Context) (msg reply : Message)
    (ns : NSConn) (rest : list Select) (w : World) :
  closed w = 0%N → connectedNamespacesMutex w = false →
  connectedNamespaces w !! Namespace msg = Some ns → accepted msg w = true →
  onTime ctx w = true → writeResult w = None → selects w = Receive reply :: rest →
  ∃ w', askDisconnect ctx msg true w = (Returns (Err reply), w')
    ∧ connectedNamespacesMutex w' = false
    ∧ match Err reply with
      | Some _ =>
          connectedNamespaces w' = connectedNamespaces w
          ∧ trace w' = trace w ++ [WriteText (serializeMessage (set_wait (askToken w) msg))]
      | None =>
          connectedNamespaces w' = delete (Namespace msg) (connectedNamespaces w)
          ∧ trace w'
            = trace w ++ [WriteText (serializeMessage (set_wait (askToken w) msg));
                          NsDelete (Namespace msg);
                          FireEvent (namespace ns) (set_IsLocal true msg)]
      end.
Proof.
  intros Hc Hm Hl Hacc Htime Hr Hsel. unfold askDisconnect.
  unfold bind at 1, nsRLock. rewrite Hm. rewrite bind_get, Hl.
  unfold nsRUnlock. rewrite bind_ret.
  destruct (Ask_reply ctx msg reply rest w) as [Hask _]; try done.
  rewrite (bind_Returns _ _ _ _ _ Hask).
  destruct (answered_asked_keeps reply ctx msg w) as (Hc' & Hm' & Hns' & _ & _ & Htr').
  set (w1 := answered reply (asked ctx msg w)) in *. rewrite Hm in Hm'.
  destruct (Err reply) as [e|].
  { eexists. split; [done|]. done. }
  unfold bind at 1, nsLock. rewrite Hm'. rewrite bind_mapDelete.
  unfold nsUnlock. rewrite bind_modify, bind_afterFire.
  eexists. split; [done|]. unfold afterFire, deleted. wsimpl.
  rewrite Hns', Htr'. split; [done|]. split; [done|]. by rewrite <- !app_assoc.
Qed.

(** X14.  On the client, for an [OnNamespaceDisconnect] ask (it carries a
    token and is not a no-op) of a connected namespace, on an open
    connection with the lock free, [replyDisconnect] deletes the namespace
    first, then writes the ask back as the reply (if that write fails with a
    close error, [Write] runs [Close] here), and fires the handler last.
    The answer of the handler is not looked at: the reply carries no error
    of its, and the namespace is gone whatever it returned. *)
Theorem replyDisconnect_client (msg : Message) (ns : NSConn) (w : World) :
  server w = false → closed w = 0%N → connectedNamespacesMutex w = false →
  wait msg ≠ "" → isNoOp msg = false → Event msg = OnNamespaceDisconnect →
  connectedNamespaces w !! Namespace msg = Some ns →
  let w' := afterFire ns msg
              (written (serializeMessage msg) (deleted (Namespace msg) w)) in
  replyDisconnect msg w = (Returns tt, w')
  ∧ trace w'
    = trace w ++ [NsDelete (Namespace msg); WriteText (serializeMessage msg)]
        ++ (if writeCloses w then closing (deleted (Namespace msg) w) else [])
        ++ [FireEvent (namespace ns) msg]
  ∧ connectedNamespaces w' !! Namespace msg = None
  ∧ framesOf (trace w') = framesOf (trace w) ++ [serializeMessage msg].
Proof.
  intros Hs Hc Hm Hwait Hnoop Hev Hl w'. subst w'. split; [|split; [|split]].
  - unfold replyDisconnect.
    apply String.eqb_neq in Hwait. rewrite Hwait, Hnoop. cbn [orb].
    rewrite (bind_Returns _ _ _ _ _ (Conn_Namespace_free _ _ Hm)), Hl.
    rewrite (bind_Returns _ _ _ _ _ (IsClient_run w)), Hs. cbn [negb].
    rewrite (bind_Returns _ _ _ _ _ (nsDelete_free (Namespace msg) w Hm)).
    rewrite (bind_Returns _ _ _ _ _
               (Write_accepted msg (deleted _ w) Hc Hm
                  (accepted_protocol _ _ (isProtocol_disconnect _ Hev)))).
    by rewrite bind_afterFire.
  - unfold afterFire. cbn [trace set_trace]. rewrite written_trace.
    change (writeCloses (deleted _ _)) with (writeCloses w).
    unfold deleted at 1. cbn [trace set_trace set_connectedNamespaces].
    by rewrite <- !app_assoc.
  - unfold afterFire. cbn [connectedNamespaces set_trace].
    rewrite written_namespaces.
    destruct (writeCloses _); [apply lookup_empty|].
    unfold deleted. cbn [connectedNamespaces set_trace set_connectedNamespaces].
    apply lookup_delete_eq.
  - rewrite framesOf_afterFire, framesOf_written, framesOf_deleted. done.
Qed.

(** *** Dispatch of the inbound messages *)
Lemma Write_unconnected msg w :
  isProtocol msg = false → connectedNamespacesMutex w = false →
  connectedNamespaces w !! Namespace msg = None →
  Write msg w = (Returns false, w).
Proof.
  intros Hp Hm Hl.
  assert (Hacc : accepted msg w = false) by (unfold accepted; by rewrite Hp, Hl).
  destruct (Write_spec msg w); try done; congruence.
Qed.

Lemma handleMessage_undelivered msg w :
  wait msg = "" ∨ waitingMessages w !! wait msg = None →
  (if negb (String.eqb (wait msg) "") then
     ch <- get (λ w, waitingMessages w !! wait msg);
     match ch with
     | Some ch => _ <- chanSend ch msg; ret true
     | None => ret false
     end
   else ret false) w = (Returns false, w).
Proof.
  intros [Hw|Hw].
  - by rewrite Hw.
  - destruct (String.eqb (wait msg) ""); [done|]. cbn [negb].
    by rewrite bind_get, Hw.
Qed.

Lemma tryNamespace_unconnected msg w :
  isProtocol msg = false → connectedNamespacesMutex w = false →
  connectedNamespaces w !! Namespace msg = None →
  tryNamespace msg w = (Returns None, w).
Proof.
  intros Hp Hm Hl. unfold tryNamespace.
  rewrite (bind_Returns _ _ _ _ _ (Conn_Namespace_free _ _ Hm)), Hl.
  by rewrite (bind_Returns _ _ _ _ _
                (Write_unconnected (set_Err (Some ErrBadNamespace) msg) w Hp Hm Hl)).
Qed.

Lemma tryNamespace_connected msg ns w :
  connectedNamespacesMutex w = false →
  connectedNamespaces w !! Namespace msg = Some ns →
  tryNamespace msg w = (Returns (Some ns), w).
Proof.
  intros Hm Hl. unfold tryNamespace.
  by rewrite (bind_Returns _ _ _ _ _ (Conn_Namespace_free _ _ Hm)), Hl.
Qed.

(** X15.  An inbound message that is not a pending reply, whose event is
    not [OnNamespaceConnect] and whose namespace is not connected, is
    dropped: [handleMessage] returns [true] and the world is as it was.
    Nothing is written: a disconnect ask gets no answer, and for the other
    events the [ErrBadNamespace] reply that [tryNamespace] hands to [Write]
    is refused by [Write] itself, since the namespace is not connected. *)
Theorem handleMessage_unconnected (msg : Message) (w : World) :
  connectedNamespacesMutex w = false →
  wait msg = "" ∨ waitingMessages w !! wait msg = None →
  Event msg ≠ OnNamespaceConnect →
  connectedNamespaces w !! Namespace msg = None →
  handleMessage msg w = (Returns true, w)
  ∧ (Event msg ≠ OnNamespaceDisconnect →
     tryNamespace msg w = (Returns None, w)
     ∧ Write (set_Err (Some ErrBadNamespace) msg) w = (Returns false, w)).
Proof.
  intros Hm Hw Hco Hl.
  assert (Htry : Event msg ≠ OnNamespaceDisconnect →
            isProtocol msg = false).
  { intros Hdi. unfold isProtocol, isConnect, isDisconnect.
    apply String.eqb_neq in Hco, Hdi. by rewrite Hco, Hdi. }
  split.
  - unfold handleMessage.
    rewrite (bind_Returns _ _ _ _ _ (handleMessage_undelivered msg w Hw)).
    apply String.eqb_neq in Hco. rewrite Hco.
    destruct (String.eqb_spec (Event msg) OnNamespaceDisconnect) as [Hdi|Hdi].
    { unfold replyDisconnect.
      destruct (String.eqb (wait msg) "" || isNoOp msg); [done|].
      rewrite bind_assoc.
      by rewrite (bind_Returns _ _ _ _ _ (Conn_Namespace_free _ _ Hm)), Hl. }
    specialize (Htry Hdi).
    destruct (String.eqb (Event msg) OnRoomJoin);
      [|destruct (String.eqb (Event msg) OnRoomLeave)];
      by rewrite (bind_Returns _ _ _ _ _ (tryNamespace_unconnected msg w Htry Hm Hl)).
  - intros Hdi. specialize (Htry Hdi). split.
    + by apply tryNamespace_unconnected.
    + by apply Write_unconnected.
Qed.

(** X16.  A connect or disconnect message that carries no token, or that
    is marked [isNoOp] and is not a pending reply, is ignored:
    [handleMessage] returns [true] and changes nothing, so a no-op answer
    is never answered in turn. *)
Theorem handleMessage_ignores (msg : Message) (w : World) :
  Event msg = OnNamespaceConnect ∨ Event msg = OnNamespaceDisconnect →
  wait msg = "" ∨ (isNoOp msg = true ∧ waitingMessages w !! wait msg = None) →
  handleMessage msg w = (Returns true, w).
Proof.
  intros Hev Hwhy.
  assert (Hskip : String.eqb (wait msg) "" || isNoOp msg = true).
  { destruct Hwhy as [->|[-> _]]; [done|apply orb_true_r]. }
  assert (Hw : wait msg = "" ∨ waitingMessages w !! wait msg = None).
  { destruct Hwhy as [?|[_ ?]]; [by left|by right]. }
  unfold handleMessage.
  rewrite (bind_Returns _ _ _ _ _ (handleMessage_undelivered msg w Hw)).
  destruct (String.eqb_spec (Event msg) OnNamespaceConnect) as [Hco|Hco].
  { unfold replyConnect. by rewrite Hskip. }
  destruct Hev as [|Hdi]; [done|].
  rewrite Hdi, String.eqb_refl. unfold replyDisconnect. by rewrite Hskip.
Qed.

Lemma handleMessage_event_run (msg : Message) (ns : NSConn) (w : World) :
  connectedNamespacesMutex w = false →
  wait msg = "" ∨ waitingMessages w !! wait msg = None →
  isUserEvent msg →
  connectedNamespaces w !! Namespace msg = Some ns →
  let msg' := set_IsLocal false msg in
  handleMessage msg w
  = match events ns msg' with
    | None => (Returns true, afterFire ns msg' w)
    | Some e =>
        bind (Write (set_Err (Some e) msg'))
             (λ _, if isManualCloseError e then ret false else ret true)
             (afterFire ns msg' w)
    end.
Proof.
  intros Hm Hw (Hco & Hdi & Hjo & Hle) Hl msg'. unfold handleMessage.
  rewrite (bind_Returns _ _ _ _ _ (handleMessage_undelivered msg w Hw)).
  apply String.eqb_neq in Hco, Hdi, Hjo, Hle. rewrite Hco, Hdi, Hjo, Hle.
  rewrite (bind_Returns _ _ _ _ _ (tryNamespace_connected msg ns w Hm Hl)).
  rewrite bind_afterFire. fold msg'. by destruct (events ns msg').
Qed.

Lemma Write_free msg w :
  connectedNamespacesMutex w = false →
  ∃ b, Write msg w
       = (Returns b, if writes msg w then written (serializeMessage msg) w else w).
Proof.
  intros Hm. unfold writes. destruct (N.eqb_spec (closed w) 0) as [Hc|Hc]; cbn [andb].
  - destruct (accepted msg w) eqn:Hacc.
    + rewrite (Write_accepted msg w Hc Hm Hacc). by eexists.
    + exists false. destruct (Write_spec msg w); try done; congruence.
  - rewrite (Write_closed msg w Hc). by eexists.
Qed.

(** X17.  With the lock of the namespaces free, an inbound message for the
    handlers of a connected namespace (it is not a pending reply, and its
    event is none of the four that [handleMessage] serves itself) is fired
    with [IsLocal] unset.  If the handler returns nil, that is all, and
    [handleMessage] returns [true].  If it returns an error,
    [handleMessage] returns [false] exactly when the error is a manual
    close; before that the message is written back with the error if the
    connection is open and the message passes the room check of [Write],
    and nothing is written otherwise. *)
Theorem handleMessage_event (msg : Message) (ns : NSConn) (w : World) :
  connectedNamespacesMutex w = false →
  wait msg = "" ∨ waitingMessages w !! wait msg = None →
  isUserEvent msg →
  connectedNamespaces w !! Namespace msg = Some ns →
  let msg' := set_IsLocal false msg in
  match events ns msg' with
  | None => handleMessage msg w = (Returns true, afterFire ns msg' w)
  | Some e =>
      handleMessage msg w
      = (Returns (negb (isManualCloseError e)),
         if writes msg w
         then written (serializeMessage (set_Err (Some e) msg')) (afterFire ns msg' w)
         else afterFire ns msg' w)
  end.
Proof.
  intros Hm Hw Hev Hl msg'.
  rewrite (handleMessage_event_run msg ns w Hm Hw Hev Hl). fold msg'.
  destruct (events ns msg') as [e|]; [|done].
  destruct (Write_free (set_Err (Some e) msg') (afterFire ns msg' w) Hm) as [b Hrun].
  rewrite (bind_Returns _ _ _ _ _ Hrun).
  assert (Hsame : writes (set_Err (Some e) msg') (afterFire ns msg' w) = writes msg w).
  { unfold writes. f_equal; by apply accepted_ext. }
  rewrite Hsame. by destruct (isManualCloseError e).
Qed.

(** X18.  Whenever [startReader] returns, the connection is closed. *)
Theorem startReader_closes (frames : list bytes) (w w' : World) :
  startReader frames w = (Returns tt, w') → closed w' ≠ 0%N.
Proof.
  unfold startReader. intros Hrun.
  destruct (N.eq_dec (closed w) 0%N) as [Hc|Hc].
  - rewrite (bind_Returns _ _ _ _ _ (IsClosed_open w Hc)) in Hrun.
    apply bind_inv in Hrun as ([] & w1 & _ & Hclose).
    by apply Close_returns in Hclose.
  - rewrite (bind_Returns _ _ _ _ _ (IsClosed_closed w Hc)) in Hrun.
    by injection Hrun as <-.
Qed.

(** X19.  On an acknowledged, open connection with the lock free, when the
    first frame parses to a message for the handlers of a connected
    namespace (not a pending reply) and the handler returns a manual-close
    error, the reader stops after that message: it writes the message back
    with the error if the message passes the room check of [Write] (and
    writes nothing otherwise), and what [startReader] does then is [Close];
    the frames that follow are not looked at. *)
Theorem startReader_manual_close (b : bytes) (rest : list bytes) (ns : NSConn)
    (e : error) (w : World) :
  let msg := deserializeMessage b in
  let msg' := set_IsLocal false msg in
  closed w = 0%N → acknowledged w ≠ 0%N → connectedNamespacesMutex w = false →
  isInvalid msg = false →
  wait msg = "" ∨ waitingMessages w !! wait msg = None →
  isUserEvent msg →
  connectedNamespaces w !! Namespace msg = Some ns →
  events ns msg' = Some e → isManualCloseError e = true →
  startReader (b :: rest) w
  = Close (if accepted msg w
           then written (serializeMessage (set_Err (Some e) msg')) (afterFire ns msg' w)
           else afterFire ns msg' w).
Proof.
  intros msg msg' Hc Hack Hm Hvalid Hw Hev Hl He Hman.
  pose proof (handleMessage_event_run msg ns w Hm Hw Hev Hl) as Hrun.
  cbv zeta in Hrun. fold msg' in Hrun. rewrite He in Hrun.
  destruct (Write_free (set_Err (Some e) msg') (afterFire ns msg' w) Hm) as [ok Hwrite].
  rewrite (bind_Returns _ _ _ _ _ Hwrite) in Hrun.
  assert (Hsame : writes (set_Err (Some e) msg') (afterFire ns msg' w) = accepted msg w).
  { unfold writes. cbn [closed afterFire set_trace]. rewrite Hc. cbn [N.eqb andb].
    by apply accepted_ext. }
  rewrite Hsame, Hman in Hrun.
  unfold startReader.
  rewrite (bind_Returns _ _ _ _ _ (IsClosed_open w Hc)).
  cbn [readerLoop]. unfold readerTurn.
  rewrite !bind_assoc.
  rewrite (bind_Returns _ _ _ _ _ (isAcknowledged_run w)).
  replace (0 <? acknowledged w)%N with true by (symmetry; apply N.ltb_lt; lia).
  cbn [negb andb]. fold msg. rewrite Hvalid.
  rewrite !bind_assoc.
  rewrite (bind_Returns _ _ _ _ _ (isAcknowledged_run w)).
  replace (0 <? acknowledged w)%N with true by (symmetry; apply N.ltb_lt; lia).
  cbn [negb]. rewrite !bind_assoc.
  by rewrite (bind_Returns _ _ _ _ _ Hrun).
Qed.

Lemma prefix_app (a b : string) : String.prefix a (a +:+ b) = true.
Proof.
  induction a as [|c a IH]; [by destruct b|].
  simpl. destruct (ascii_dec c c); [exact IH|done].
Qed.

Lemma bytesFrom_app (a b : string) : bytesFrom (String.length a) (a +:+ b) = b.
Proof. induction a as [|c a IH]; [done|]. simpl. apply IH. Qed.

(** X20.  The handshake.  An unacknowledged server-side connection that
    reads [ack] answers with [ack] followed by its [id] and stays
    unacknowledged; an unacknowledged client that reads that frame takes
    over exactly that [id], sets [acknowledged] and writes [ack_ok]; and the
    server that then reads [ack_ok] sets [acknowledged] without writing. *)
Theorem handshake_round_trip (ws wc : World) :
  server ws = true → acknowledged ws = 0%N →
  server wc = false → acknowledged wc = 0%N →
  let frame := ackBinary +:+ id ws in
  readerTurn ackBinary [] ws = (Returns (Continue []), sent frame ws)
  ∧ readerTurn frame [] wc
    = (Returns (Continue []),
       sent ackOKBinary (set_acknowledged 1%N (set_id (id ws) wc)))
  ∧ readerTurn ackOKBinary [] (sent frame ws)
    = (Returns (Continue []), set_acknowledged 1%N (sent frame ws)).
Proof.
  intros Hs Hack Hc Hackc frame. split; [|split].
  - unfold readerTurn.
    rewrite (bind_Returns _ _ _ _ _ (isAcknowledged_unset ws Hack)).
    cbn [negb andb]. change (String.prefix ackBinary ackBinary) with true. cbv iota.
    rewrite (bind_Returns _ _ _ _ _ (IsClient_run ws)), Hs. cbn [negb].
    change (Nat.eqb _ _) with true. cbv iota.
    by rewrite bind_get, bind_socketWriteText.
  - assert (Hlen : server wc = true → String.length frame ≠ String.length ackBinary)
      by (intros; congruence).
    rewrite (readerTurn_latches frame [] wc Hackc (prefix_app ackBinary (id ws)) Hlen).
    unfold latched. rewrite Hc. unfold frame. rewrite bytesFrom_app.
    cbn [handleQueue]. done.
  - assert (Hack' : acknowledged (sent frame ws) = 0%N) by done.
    assert (Hlen : server (sent frame ws) = true →
                   String.length ackOKBinary ≠ String.length ackBinary)
      by (intros _; cbn; lia).
    rewrite (readerTurn_latches ackOKBinary [] _ Hack' eq_refl Hlen).
    unfold latched. cbn [server sent set_writeResults set_trace]. rewrite Hs. done.
Qed.

(** *** What the methods keep *)
Lemma Orderly_refl w : Orderly w w.
Proof. done. Qed.

Lemma Orderly_trans w1 w2 w3 : Orderly w1 w2 → Orderly w2 w3 → Orderly w1 w3.
Proof.
  unfold Orderly. intros (?&?&?&?) (?&?&?&?).
  repeat split; [congruence..|auto].
Qed.

Lemma Post_bind {A B} (m : M A) (k : A → M B) :
  Post Orderly m → (∀ a, Post Orderly (k a)) → Post Orderly (bind m k).
Proof.
  intros Hm Hk w b w' (a & w1 & Hrun & Hrest)%bind_inv.
  eapply Orderly_trans; [by eapply Hm|by eapply Hk].
Qed.

Lemma Post_ret {A} (a : A) : Post Orderly (ret a).
Proof. intros w a' w' [= _ <-]. apply Orderly_refl. Qed.

Lemma Post_block {A} : Post Orderly (@block A).
Proof. intros w a w' Hrun. discriminate Hrun. Qed.

Lemma Post_get {A} (f : World → A) : Post Orderly (get f).
Proof. intros w a' w' [= _ <-]. apply Orderly_refl. Qed.

Lemma Post_modify (f : World → World) :
  (∀ w, Orderly w (f w)) → Post Orderly (modify f).
Proof. intros Hf w [] w' Hrun. injection Hrun as <-. apply Hf. Qed.

(** One step through a computation built from binds, branches and the
    methods already covered. *)
Ltac post :=
  repeat first
    [ solve [auto 1 with post nocore]
    | apply Post_ret | apply Post_get | apply Post_block
    | apply Post_modify; intros ?; done
    | match goal with
      | |- Post _ (match ?x with _ => _ end) => destruct x
      | |- Post _ (bind _ _) => apply Post_bind; [|intros ?]
      end ].

Lemma Post_emit a : Post Orderly (emit a).
Proof. unfold emit. post. Qed.
#[local] Hint Resolve Post_emit : post.

Lemma Post_fireEvent ns msg : Post Orderly (fireEvent ns msg).
Proof. unfold fireEvent. post. Qed.
#[local] Hint Resolve Post_fireEvent : post.

Lemma Post_timeNow : Post Orderly timeNow.
Proof. unfold timeNow. post. Qed.
#[local] Hint Resolve Post_timeNow : post.

Lemma Post_nsRLock : Post Orderly nsRLock.
Proof.
  intros w [] w'. unfold nsRLock. destruct (connectedNamespacesMutex w); [done|].
  intros [= <-]. apply Orderly_refl.
Qed.
#[local] Hint Resolve Post_nsRLock : post.

Lemma Post_Conn_Namespace ns : Post Orderly (Conn_Namespace ns).
Proof. unfold Conn_Namespace, nsRUnlock. post. Qed.
#[local] Hint Resolve Post_Conn_Namespace : post.

Lemma Post_locked (f : World → World) :
  (∀ w, Orderly w (f w)) →
  Post Orderly (bind nsLock (λ _, bind (modify f) (λ _, nsUnlock))).
Proof.
  intros Hf w [] w'. unfold bind at 1, nsLock.
  destruct (connectedNamespacesMutex w) eqn:Hm; [done|].
  rewrite bind_modify. unfold nsUnlock, modify. intros [= <-].
  destruct (Hf (set_connectedNamespacesMutex true w)) as (Hmx & Hs & Hn & Hc).
  repeat split; wsimpl; done.
Qed.

Lemma Post_nsInsert k ns : Post Orderly (nsInsert k ns).
Proof. unfold nsInsert. by apply Post_locked. Qed.
#[local] Hint Resolve Post_nsInsert : post.

Lemma Post_nsDelete k : Post Orderly (nsDelete k).
Proof. unfold nsDelete. by apply Post_locked. Qed.
#[local] Hint Resolve Post_nsDelete : post.

Lemma Post_Close : Post Orderly Close.
Proof.
  intros w [] w' Hrun. destruct (N.eq_dec (closed w) 0%N) as [Hc|Hc].
  - destruct (connectedNamespacesMutex w) eqn:Hm.
    + rewrite (Close_held w Hc Hm) in Hrun. discriminate Hrun.
    + rewrite (Close_open w Hc Hm) in Hrun. injection Hrun as <-.
      split; [|split; [|split]];
        cbn [closeWorld connectedNamespacesMutex server namespaces closed];
        rewrite ?Hm; done.
  - rewrite (Close_closed w Hc) in Hrun. injection Hrun as <-. apply Orderly_refl.
Qed.
#[local] Hint Resolve Post_Close : post.

Lemma Post_socketWriteText body : Post Orderly (socketWriteText body).
Proof. unfold socketWriteText. post. Qed.
#[local] Hint Resolve Post_socketWriteText : post.

Lemma Post_Write msg : Post Orderly (Write msg).
Proof. unfold Write, IsClosed. post. Qed.
#[local] Hint Resolve Post_Write : post.

Lemma Post_selectAsk ctx : Post Orderly (selectAsk ctx).
Proof.
  intros w a w'. unfold selectAsk.
  destruct (selects w) as [|[e|r] rest]; [done|destruct ctx|];
    intros [= _ <-]; done.
Qed.
#[local] Hint Resolve Post_selectAsk : post.

Lemma Post_Ask ctx msg : Post Orderly (Ask ctx msg).
Proof. unfold Ask, IsClosed, assignWait, IsClient, deadlinePassed, makeChan. post. Qed.
#[local] Hint Resolve Post_Ask : post.

Lemma Post_askConnect ctx ns : Post Orderly (askConnect ctx ns).
Proof. unfold askConnect. post. Qed.
#[local] Hint Resolve Post_askConnect : post.

Lemma Post_Connect ctx ns : Post Orderly (Connect ctx ns).
Proof. unfold Connect, IsClient, waitAcknowledged, isAcknowledged. post. Qed.

Lemma Post_waitConnectLoop ctx dones ns : ∀ cur,
  Post Orderly (waitConnectLoop ctx dones ns cur).
Proof.
  induction dones as [|d dones IH]; intros cur; [apply Post_block|].
  cbn [waitConnectLoop]. unfold isAcknowledged. post.
Qed.

Lemma Post_replyConnect msg : Post Orderly (replyConnect msg).
Proof. unfold replyConnect. post. Qed.
#[local] Hint Resolve Post_replyConnect : post.

Lemma Post_askDisconnect_unlocked ctx msg : Post Orderly (askDisconnect ctx msg false).
Proof. unfold askDisconnect. post. Qed.

Lemma Post_askDisconnect_locked ctx msg : Post Orderly (askDisconnect ctx msg true).
Proof.
  unfold askDisconnect, nsRUnlock.
  apply Post_bind; [post|intros _]. apply Post_bind; [post|intros found].
  apply Post_bind; [post|intros _]. destruct found as [ns|]; [|post].
  apply Post_bind; [post|intros [reply [e|]]]; [post|].
  intros w r w'. unfold bind at 1, nsLock.
  destruct (connectedNamespacesMutex w) eqn:Hm; [done|].
  rewrite bind_mapDelete. unfold nsUnlock. rewrite bind_modify, bind_fireEvent.
  intros [= _ <-]. unfold deleted. repeat split; wsimpl; done.
Qed.

Lemma Post_rangeLoop {R} (body : string → NSConn → M (option R)) keys :
  (∀ k ns, Post Orderly (body k ns)) → Post Orderly (rangeLoop keys body).
Proof.
  intros Hbody. induction keys as [|k keys IH]; [post|].
  cbn [rangeLoop]. post.
Qed.

Lemma Post_DisconnectAll ctx : Post Orderly (DisconnectAll ctx).
Proof.
  intros w r w'. unfold DisconnectAll. unfold bind at 1, nsLock.
  destruct (connectedNamespacesMutex w) eqn:Hm; [done|].
  intros (r1 & w1 & Hloop & Hrest)%bind_inv.
  unfold nsUnlock in Hrest. rewrite bind_modify in Hrest. injection Hrest as _ <-.
  assert (Hin : Orderly (set_connectedNamespacesMutex true w) w1).
  { revert Hloop. unfold rangeConnected. apply Post_bind; [post|].
    intros keys. apply Post_rangeLoop. intros k ns.
    apply Post_askDisconnect_unlocked. }
  destruct Hin as (_ & Hs & Hn & Hc). repeat split; wsimpl; done.
Qed.

Lemma Post_replyDisconnect msg : Post Orderly (replyDisconnect msg).
Proof. unfold replyDisconnect, IsClient. post. Qed.
#[local] Hint Resolve Post_replyDisconnect : post.

Lemma Post_tryNamespace msg : Post Orderly (tryNamespace msg).
Proof. unfold tryNamespace. post. Qed.
#[local] Hint Resolve Post_tryNamespace : post.

Lemma Post_chanSend ch msg : Post Orderly (chanSend ch msg).
Proof.
  intros w [] w'. unfold chanSend. case_bool_decide; [|done].
  intros [= <-]. done.
Qed.
#[local] Hint Resolve Post_chanSend : post.

Section Inbound.
Hypothesis Post_replyRoomJoin : ∀ ns msg, Post Orderly (replyRoomJoin ns msg).
Hypothesis Post_replyRoomLeave : ∀ ns msg, Post Orderly (replyRoomLeave ns msg).

Lemma Post_handleMessage msg : Post Orderly (handleMessage msg).
Proof. unfold handleMessage. post. Qed.

Lemma Post_handleQueue queue : Post Orderly (handleQueue queue).
Proof.
  induction queue as [|msg queue IH]; [post|].
  cbn [handleQueue]. apply Post_bind; [apply Post_handleMessage|intros _; exact IH].
Qed.

Lemma Post_readerTurn b queue : Post Orderly (readerTurn b queue).
Proof.
  pose proof Post_handleQueue. pose proof Post_handleMessage.
  unfold readerTurn, isAcknowledged, IsClient. post.
Qed.

Lemma Post_readerLoop frames : ∀ queue, Post Orderly (readerLoop frames queue).
Proof.
  pose proof Post_readerTurn.
  induction frames as [|b frames IH]; intros queue; [post|].
  cbn [readerLoop]. post.
Qed.

Lemma Post_startReader frames : Post Orderly (startReader frames).
Proof. pose proof Post_readerLoop. unfold startReader, IsClosed. post. Qed.

End Inbound.

(** X21.  Whenever [Write], [Ask], [Connect], [WaitConnect],
    [DisconnectAll], [askDisconnect] or [Close] returns, the lock of the
    namespaces is as it was before the call (free, if it was free), the side
    of the connection and its declared namespaces are unchanged, and a
    connection that was closed is still closed. *)
Theorem methods_orderly :
  (∀ msg, Post Orderly (Write msg))
  ∧ (∀ ctx msg, Post Orderly (Ask ctx msg))
  ∧ (∀ ctx ns, Post Orderly (Connect ctx ns))
  ∧ (∀ ctx dones ns, Post Orderly (WaitConnect ctx dones ns))
  ∧ (∀ ctx, Post Orderly (DisconnectAll ctx))
  ∧ (∀ ctx msg lock, Post Orderly (askDisconnect ctx msg lock))
  ∧ Post Orderly Close.
Proof.
  split; [apply Post_Write|]. split; [apply Post_Ask|].
  split; [apply Post_Connect|].
  split; [intros; apply Post_waitConnectLoop|].
  split; [apply Post_DisconnectAll|].
  split; [|apply Post_Close].
  intros ctx msg [|]; [apply Post_askDisconnect_locked|apply Post_askDisconnect_unlocked].
Qed.

(** X22.  The same holds for [handleMessage] and [startReader], provided
    the room replies of [NSConn], which are defined elsewhere, keep it. *)
Theorem reader_orderly :
  (∀ ns msg, Post Orderly (replyRoomJoin ns msg)) →
  (∀ ns msg, Post Orderly (replyRoomLeave ns msg)) →
  (∀ msg, Post Orderly (handleMessage msg))
  ∧ (∀ frames, Post Orderly (startReader frames)).
Proof.
  intros Hjoin Hleave. split.
  - intros msg. by apply Post_handleMessage.
  - intros frames. by apply Post_startReader.
Qed.

(** *** [DisconnectAll], [WaitConnect] and the turns before the acknowledgement *)
Lemma rangeNamespaces_empty : rangeNamespaces (∅ : gmap string NSConn) = [].
Proof.
  apply Permutation_nil_r. rewrite rangeNamespaces_perm. by rewrite map_to_list_empty.
Qed.

(** X23.  With the lock free: on a connection with no connected
    namespace, [DisconnectAll] returns nil and changes nothing; and whenever
    [DisconnectAll] returns nil, no namespace is connected any more and the
    lock is released. *)
Theorem DisconnectAll_done (ctx : option Context) (w : World) :
  connectedNamespacesMutex w = false →
  (connectedNamespaces w = ∅ → DisconnectAll ctx w = (Returns None, w))
  ∧ (∀ w', DisconnectAll ctx w = (Returns None, w') →
       connectedNamespaces w' = ∅ ∧ connectedNamespacesMutex w' = false).
Proof.
  intros Hm. split.
  - intros Hempty. unfold DisconnectAll. unfold bind at 1, nsLock. rewrite Hm.
    unfold rangeConnected. rewrite bind_assoc, bind_get.
    cbn [connectedNamespaces set_connectedNamespacesMutex].
    rewrite Hempty, rangeNamespaces_empty. cbn [rangeLoop].
    rewrite bind_ret. unfold nsUnlock. rewrite bind_modify. unfold ret. f_equal.
    destruct_world w. cbn [connectedNamespacesMutex] in Hm. subst. reflexivity.
  - intros w' Hrun. unfold DisconnectAll in Hrun.
    unfold bind at 1, nsLock in Hrun. rewrite Hm in Hrun.
    apply bind_inv in Hrun as (r & w2 & Hloop & Hrest).
    unfold nsUnlock in Hrest. rewrite bind_modify in Hrest.
    unfold ret in Hrest. injection Hrest as -> <-.
    unfold rangeConnected in Hloop. rewrite bind_get in Hloop.
    change (rangeLoop _ _) with
      (rangeLoop (rangeNamespaces (connectedNamespaces w)) (disconnectOne ctx)) in Hloop.
    apply rangeLoop_disconnect in Hloop as [Hmx Hres]; [|done].
    cbn [connectedNamespaces set_connectedNamespacesMutex] in Hres.
    split; [|done]. wsimpl. rewrite Hres. apply foldr_delete_range.
Qed.

Lemma waitConnectLoop_returns ctx ns dones : ∀ cur r err w w',
  connectedNamespacesMutex w = false →
  (∀ c, cur = Some c → connectedNamespaces w !! ns = Some c) →
  waitConnectLoop ctx dones ns cur w = (Returns (r, err), w') →
  w' = w
  ∧ ((∃ c, r = Some c ∧ err = None
           ∧ connectedNamespaces w !! ns = Some c ∧ acknowledged w ≠ 0%N)
     ∨ (r = None ∧ ∃ e, err = Some e ∧ is_Some ctx ∧ Some e ∈ dones)).
Proof.
  induction dones as [|d dones IH]; intros cur r err w w' Hm Hcur; [done|].
  cbn [waitConnectLoop].
  assert (Hturn :
    bind match cur with
         | Some c => ret (Some c)
         | None => Conn_Namespace ns
         end
      (λ ns0, bind match ns0 with
                   | Some _ => isAcknowledged
                   | None => ret false
                   end
                (λ ready, if ready then ret (ns0, None)
                          else waitConnectLoop ctx dones ns ns0)) w
    = (Returns (r, err), w') →
    w' = w
    ∧ ((∃ c, r = Some c ∧ err = None
             ∧ connectedNamespaces w !! ns = Some c ∧ acknowledged w ≠ 0%N)
       ∨ (r = None ∧ ∃ e, err = Some e ∧ is_Some ctx ∧ Some e ∈ d :: dones))).
  { assert (Hfound : match cur with
                     | Some c => ret (Some c)
                     | None => Conn_Namespace ns
                     end w
                     = (Returns (match cur with
                                 | Some c => Some c
                                 | None => connectedNamespaces w !! ns
                                 end), w)).
    { destruct cur; [done|]. by apply Conn_Namespace_free. }
    rewrite (bind_Returns _ _ _ _ _ Hfound).
    set (found := match cur with Some c => Some c | None => _ end).
    assert (Hfound' : ∀ c, found = Some c → connectedNamespaces w !! ns = Some c).
    { subst found. destruct cur; [apply Hcur|done]. }
    assert (Hnext : waitConnectLoop ctx dones ns found w = (Returns (r, err), w') →
      w' = w
      ∧ ((∃ c, r = Some c ∧ err = None
               ∧ connectedNamespaces w !! ns = Some c ∧ acknowledged w ≠ 0%N)
         ∨ (r = None ∧ ∃ e, err = Some e ∧ is_Some ctx ∧ Some e ∈ d :: dones))).
    { intros Hrun. destruct (IH _ _ _ _ _ Hm Hfound' Hrun) as [-> Hres].
      split; [done|]. destruct Hres as [?|(-> & e & -> & Hctx & Hin)]; [by left|].
      right. split; [done|]. exists e. repeat split; [done|]. by right. }
    destruct found as [c|]; [|by rewrite bind_ret].
    rewrite (bind_Returns _ _ _ _ _ (isAcknowledged_run w)).
    destruct (N.ltb_spec 0 (acknowledged w)); [|done].
    intros [= <- <- <-]. split; [done|]. left. exists c.
    repeat split; [by apply Hfound'|lia]. }
  destruct ctx as [c|]; [destruct d as [e|]|]; try exact Hturn.
  intros [= <- <- <-]. split; [done|]. right. split; [done|].
  exists e. repeat split; [done|by left].
Qed.

(** X24.  Whatever [WaitConnect] returns, it changed nothing.  If it
    returns no error, its result is the entry of the namespace in
    [connectedNamespaces] and the connection is acknowledged.  If it
    returns an error, a context was given and the error is the one that this
    context reported when it was done: [ErrBadNamespace] does not come from
    [WaitConnect]. *)
Theorem WaitConnect_returns (ctx : option Context) (dones : list (option error))
    (ns : string) (r : option NSConn) (err : option error) (w w' : World) :
  connectedNamespacesMutex w = false →
  WaitConnect ctx dones ns w = (Returns (r, err), w') →
  w' = w
  ∧ match err with
    | None => r = connectedNamespaces w !! ns ∧ is_Some r ∧ acknowledged w ≠ 0%N
    | Some e => r = None ∧ is_Some ctx ∧ Some e ∈ dones
    end.
Proof.
  intros Hm Hrun.
  destruct (waitConnectLoop_returns ctx ns dones None r err w w' Hm) as [-> Hres];
    [intros c Hc; discriminate Hc|exact Hrun|].
  split; [done|].
  destruct Hres as [(c & -> & -> & Hl & Hack)|(-> & e & -> & Hctx & Hin)]; [|done].
  rewrite Hl. done.
Qed.

Lemma waitConnectLoop_waits ctx ns dones : ∀ cur w,
  connectedNamespacesMutex w = false →
  (cur = None ∧ connectedNamespaces w !! ns = None) ∨ acknowledged w = 0%N →
  ctx = None ∨ Forall (λ d, d = None) dones →
  waitConnectLoop ctx dones ns cur w = (Blocks, w).
Proof.
  induction dones as [|d dones IH]; intros cur w Hm Hwhy Hquiet; [done|].
  cbn [waitConnectLoop].
  assert (Hturn :
    bind match cur with
         | Some c => ret (Some c)
         | None => Conn_Namespace ns
         end
      (λ ns0, bind match ns0 with
                   | Some _ => isAcknowledged
                   | None => ret false
                   end
                (λ ready, if ready then ret (ns0, None)
                          else waitConnectLoop ctx dones ns ns0)) w
    = (Blocks, w)).
  { assert (Hquiet' : ctx = None ∨ Forall (λ d, d = None) dones).
    { destruct Hquiet as [|Hall]; [by left|]. right. by apply Forall_cons in Hall as [_ ?]. }
    destruct Hwhy as [[-> Hl]|Hack].
    - rewrite (bind_Returns _ _ _ _ _ (Conn_Namespace_free _ _ Hm)), Hl.
      rewrite bind_ret. apply IH; [done|by left|done].
    - assert (Hfound : ∃ found, match cur with
                     | Some c => ret (Some c)
                     | None => Conn_Namespace ns
                     end w = (Returns found, w)).
      { destruct cur; [by eexists|]. eexists. by apply Conn_Namespace_free. }
      destruct Hfound as [found Hfound].
      rewrite (bind_Returns _ _ _ _ _ Hfound).
      destruct found.
      + rewrite (bind_Returns _ _ _ _ _ (isAcknowledged_unset w Hack)).
        apply IH; [done|by right|done].
      + rewrite bind_ret. apply IH; [done|by right|done]. }
  destruct ctx as [c|]; [destruct d as [e|]|]; try exact Hturn.
  destruct Hquiet as [|Hall]; [done|]. by apply Forall_cons in Hall as [? _].
Qed.

(** X25.  As long as the namespace is not connected, or the connection
    is not acknowledged, and the context is nil or not done, [WaitConnect]
    goes on polling: it does not return, for any number of turns. *)
Theorem WaitConnect_waits (ctx : option Context) (dones : list (option error))
    (ns : string) (w : World) :
  connectedNamespacesMutex w = false →
  connectedNamespaces w !! ns = None ∨ acknowledged w = 0%N →
  ctx = None ∨ Forall (λ d, d = None) dones →
  WaitConnect ctx dones ns w = (Blocks, w).
Proof.
  intros Hm Hwhy Hquiet. apply waitConnectLoop_waits; [done| |done].
  destruct Hwhy; [by left|by right].
Qed.

(** X26.  On an acknowledged connection, [WaitConnect] for a connected
    namespace returns its [NSConn] at the first turn, unless a context was
    given and is done by then: the context's error wins. *)
Theorem WaitConnect_connected (ctx : option Context) (d : option error)
    (dones : list (option error)) (ns : string) (c : NSConn) (w : World) :
  connectedNamespacesMutex w = false →
  connectedNamespaces w !! ns = Some c → acknowledged w ≠ 0%N →
  WaitConnect ctx (d :: dones) ns w
  = match ctx, d with
    | Some _, Some e => (Returns (None, Some e), w)
    | _, _ => (Returns (Some c, None), w)
    end.
Proof.
  intros Hm Hl Hack. unfold WaitConnect. cbn [waitConnectLoop].
  assert (Hturn :
    bind (Conn_Namespace ns)
      (λ ns0, bind match ns0 with
                   | Some _ => isAcknowledged
                   | None => ret false
                   end
                (λ ready, if ready then ret (ns0, None)
                          else waitConnectLoop ctx dones ns ns0)) w
    = (Returns (Some c, None), w)).
  { rewrite (bind_Returns _ _ _ _ _ (Conn_Namespace_free _ _ Hm)), Hl.
    rewrite (bind_Returns _ _ _ _ _ (isAcknowledged_run w)).
    by destruct (N.ltb_spec 0 (acknowledged w)); [|lia]. }
  destruct ctx as [c0|]; [destruct d as [e|]|]; done.
Qed.

(** X27.  Before the acknowledgement no turn of the reader ends the
    loop: not a handshake frame, and not the backlog it lets in, whatever
    the handlers of the queued messages return, a manual close included. *)
Theorem readerTurn_before_ack (b : bytes) (queue : list Message) (t : Turn)
    (w w' : World) :
  acknowledged w = 0%N →
  readerTurn b queue w = (Returns t, w') →
  ∃ queue', t = Continue queue'.
Proof.
  intros Hack. unfold readerTurn.
  rewrite (bind_Returns _ _ _ _ _ (isAcknowledged_unset w Hack)). cbn [negb andb].
  destruct (String.prefix ackBinary b).
  - rewrite (bind_Returns _ _ _ _ _ (IsClient_run w)).
    destruct (negb (server w)); [|destruct (Nat.eqb _ _)].
    + rewrite !bind_modify, bind_socketWriteText.
      intros ([] & w1 & _ & [= <- _])%bind_inv. by eexists.
    + rewrite bind_get, bind_socketWriteText. intros [= <- _]. by eexists.
    + rewrite bind_modify. intros ([] & w1 & _ & [= <- _])%bind_inv. by eexists.
  - destruct (isInvalid _); [intros [= <- _]; by eexists|].
    rewrite (bind_Returns _ _ _ _ _ (isAcknowledged_unset w Hack)). cbn [negb].
    intros [= <- _]. by eexists.
Qed.


(** *** The backlog of the reader *)
Lemma handleQueue_inOrder queue w : handleQueue queue w = handledInOrder queue w.
Proof.
  revert w. induction queue as [|msg queue IH]; intros w; [done|].
  cbn [handleQueue handledInOrder foldr]. apply bind_ext. intros _ w'. apply IH.
Qed.

Lemma parsed_app l1 l2 : parsed (l1 ++ l2) = parsed l1 ++ parsed l2.
Proof. unfold parsed. by rewrite fmap_app, filter_app. Qed.

Lemma readerTurn_greets (queue : list Message) (w : World) :
  acknowledged w = 0%N → server w = true →
  readerTurn ackBinary queue w
  = (Returns (Continue queue), sent (ackBinary +:+ id w) w).
Proof.
  intros Hack Hs. unfold readerTurn.
  rewrite (bind_Returns _ _ _ _ _ (isAcknowledged_unset w Hack)).
  cbn [negb andb]. change (String.prefix ackBinary ackBinary) with true. cbv iota.
  rewrite (bind_Returns _ _ _ _ _ (IsClient_run w)), Hs. cbn [negb].
  change (Nat.eqb _ _) with true. cbv iota.
  by rewrite bind_get, bind_socketWriteText.
Qed.

Lemma greeted_cons b pre w :
  greeted (b :: pre) w
  = greeted pre (if String.eqb b ackBinary then sent (ackBinary +:+ id w) w else w).
Proof. reflexivity. Qed.

Lemma readerLoop_waits (pre rest : list bytes) : ∀ (queue : list Message) (w : World),
  acknowledged w = 0%N →
  Forall (λ b, String.prefix ackBinary b = false ∨ (server w = true ∧ b = ackBinary)) pre →
  readerLoop (pre ++ rest) queue w
  = readerLoop rest (queue ++ backlog pre) (greeted pre w).
Proof.
  induction pre as [|b pre IH]; intros queue w Hack Hpre.
  - unfold backlog, parsed. cbn [app greeted foldl fmap list_fmap].
    by rewrite filter_nil, app_nil_r.
  - apply Forall_cons in Hpre as [Hb Hpre].
    cbn [app readerLoop]. destruct Hb as [Hb|[Hs ->]].
    + rewrite (bind_Returns _ _ _ _ _ (readerTurn_queues b queue w Hack Hb)).
      rewrite IH by done.
      assert (Hne : String.eqb b ackBinary = false).
      { apply String.eqb_neq. intros ->. discriminate Hb. }
      rewrite greeted_cons, Hne. f_equal.
      unfold backlog. rewrite filter_cons, decide_True by done.
      change (b :: filter _ pre) with ([b] ++ filter (λ b, String.prefix ackBinary b = false) pre).
      by rewrite parsed_app, app_assoc.
    + rewrite (bind_Returns _ _ _ _ _ (readerTurn_greets queue w Hack Hs)).
      rewrite IH by done.
      rewrite greeted_cons, String.eqb_refl. f_equal.
Qed.


Lemma greeted_keeps pre : ∀ w,
  acknowledged (greeted pre w) = acknowledged w
  ∧ server (greeted pre w) = server w
  ∧ connectedNamespacesMutex (greeted pre w) = connectedNamespacesMutex w
  ∧ connectedNamespaces (greeted pre w) = connectedNamespaces w
  ∧ waitingMessages (greeted pre w) = waitingMessages w.
Proof.
  induction pre as [|b pre IH]; intros w; [done|].
  rewrite greeted_cons.
  destruct (String.eqb b ackBinary); [|apply IH].
  destruct (IH (sent (ackBinary +:+ id w) w)) as (-> & -> & -> & -> & ->). done.
Qed.

Lemma latched_keeps h w :
  connectedNamespacesMutex (latched h w) = connectedNamespacesMutex w
  ∧ connectedNamespaces (latched h w) = connectedNamespaces w
  ∧ waitingMessages (latched h w) = waitingMessages w.
Proof. unfold latched. by destruct (server w). Qed.

Lemma handledInOrder_welcome (w : World) (msgs : list Message) : ∀ w1,
  connectedNamespacesMutex w1 = false →
  connectedNamespaces w1 = connectedNamespaces w →
  waitingMessages w1 = waitingMessages w →
  Forall (welcome w) msgs →
  handledInOrder msgs w1
  = (Returns tt, set_trace (trace w1 ++ (msgs ≫= firing w)) w1).
Proof.
  induction msgs as [|msg msgs IH]; intros w1 Hm Hns Hwm Hall.
  - cbn. rewrite app_nil_r. by destruct w1.
  - apply Forall_cons in Hall as [(Hw & Hev & ns & Hl & Hok) Hall].
    cbn [handledInOrder foldr]. fold (handledInOrder msgs).
    assert (Hrun : handleMessage msg w1
                   = (Returns true, afterFire ns (set_IsLocal false msg) w1)).
    { pose proof (handleMessage_event_run msg ns w1 Hm) as Hrun.
      cbv zeta in Hrun. rewrite Hok in Hrun. apply Hrun; [|done|by rewrite Hns].
      by rewrite Hwm. }
    rewrite (bind_Returns _ _ _ _ _ Hrun).
    rewrite IH by done. f_equal.
    rewrite bind_cons. unfold firing at 2. rewrite Hl.
    unfold afterFire. destruct_world w1. wnorm. by rewrite <- app_assoc.
Qed.

(** C3, amended.  While [acknowledged] is 0, a frame that does not start
    with [ack] is parsed and, unless it is invalid (then it is dropped),
    appended to the queue; on the server the frame [ack] is answered with
    [ack] followed by the [id] and leaves the queue as it is; nothing is
    handled meanwhile.  When the frame that flips [acknowledged] comes (on
    the client any frame that starts with [ack], on the server one that
    starts with [ack] and is longer), the queued messages are handled by
    [handleMessage] one after the other in the order of arrival, right after
    the flip, and the loop goes on with an empty queue.  In particular,
    when the queued messages are events that the handlers of their connected
    namespaces accept, the handlers are called in the order of arrival
    before the next frame is looked at. *)
Theorem startReader_backlog (pre rest : list bytes) (h : bytes)
    (queue : list Message) (w : World) :
  acknowledged w = 0%N →
  Forall (λ b, String.prefix ackBinary b = false ∨ (server w = true ∧ b = ackBinary)) pre →
  String.prefix ackBinary h = true →
  (server w = true → String.length h ≠ String.length ackBinary) →
  let msgs := queue ++ backlog pre in
  let flipped := latched h (greeted pre w) in
  readerLoop pre queue w = (Returns tt, greeted pre w)
  ∧ readerLoop (pre ++ h :: rest) queue w
    = bind (handledInOrder msgs) (λ _, readerLoop rest []) flipped
  ∧ (connectedNamespacesMutex w = false → Forall (welcome w) msgs →
     readerLoop (pre ++ h :: rest) queue w
     = readerLoop rest [] (set_trace (trace flipped ++ (msgs ≫= firing w)) flipped)).
Proof.
  intros Hack Hpre Hh Hlen msgs flipped.
  destruct (greeted_keeps pre w) as (Hack' & Hs' & Hm' & Hns' & Hwm').
  assert (Hloop : readerLoop (pre ++ h :: rest) queue w
                  = bind (handledInOrder msgs) (λ _, readerLoop rest []) flipped).
  { rewrite readerLoop_waits by done. cbn [readerLoop].
    unfold bind at 1. rewrite (readerTurn_latches h _ (greeted pre w)); cycle 1.
    - by rewrite Hack'.
    - done.
    - by rewrite Hs'.
    - unfold bind at 1. rewrite handleQueue_inOrder. fold msgs. fold flipped.
      unfold bind. by destruct (handledInOrder msgs flipped) as [[[]|] ?]. }
  split; [|split; [done|]].
  - rewrite <- (app_nil_r pre) at 1. by rewrite readerLoop_waits.
  - intros Hm Hall. rewrite Hloop.
    destruct (latched_keeps h (greeted pre w)) as (Hm2 & Hns2 & Hwm2).
    rewrite (bind_Returns _ _ _ _ _ (handledInOrder_welcome w msgs flipped
               ltac:(by unfold flipped; rewrite Hm2, Hm')
               ltac:(by unfold flipped; rewrite Hns2, Hns')
               ltac:(by unfold flipped; rewrite Hwm2, Hwm') Hall)).
    done.
Qed.

(** *** An ask whose write failed *)
(** C9, amended.  When an [Ask] on an open [Conn] passes the deadline check
    and its [Write] answers [false], [Ask] returns [ErrWrite] and does not
    remove the entry it registered.  If [Write] closed the connection (the
    socket reported a close error), [Close] has emptied [waitingMessages].
    If the connection is still open, the entry is still there, and a later
    reply with its token does not remove it: with nobody receiving from the
    channel of the ask, [handleMessage] finds the entry and waits on the
    send, the world being as it was.  [Close], with the lock of the
    namespaces free, empties [waitingMessages]. *)
Theorem Ask_write_failed (ctx : option Context) (msg msg1 : Message)
    (w wa wb w' : World) :
  closed w = 0%N →
  assignWait msg w = (Returns msg1, wa) →
  deadlinePassed ctx wa = (Returns false, wb) →
  Write msg1 (registered (wait msg1) wb) = (Returns false, w') →
  Ask ctx msg w = (Returns (Message0, Some ErrWrite), w')
  ∧ (closed w' = 0%N → waitingMessages w' !! wait msg1 = Some (nextChan wb))
  ∧ (closed w' ≠ 0%N → waitingMessages w' = ∅)
  ∧ (closed w' = 0%N → nextChan wb ∉ receivers w' →
     ∀ reply, wait reply = wait msg1 → handleMessage reply w' = (Blocks, w'))
  ∧ (closed w' = 0%N → connectedNamespacesMutex w' = false →
     Close w' = (Returns tt, closeWorld w') ∧ waitingMessages (closeWorld w') = ∅).
Proof.
  intros Hc Hassign Hdeadline Hwrite.
  assert (Hask : Ask ctx msg w = (Returns (Message0, Some ErrWrite), w')).
  { unfold Ask.
    rewrite (bind_Returns _ _ _ _ _ (IsClosed_open w Hc)).
    rewrite (bind_Returns _ _ _ _ _ Hassign).
    rewrite (bind_Returns _ _ _ _ _ Hdeadline).
    rewrite bind_register.
    by rewrite (bind_Returns _ _ _ _ _ Hwrite). }
  assert (Hcb : closed (registered (wait msg1) wb) = 0%N).
  { rewrite assignWait_run in Hassign. injection Hassign as _ <-.
    destruct (ctx ≫= Deadline) as [d|] eqn:Hd.
    - rewrite (deadlinePassed_some _ _ _ Hd) in Hdeadline.
      by injection Hdeadline as _ <-.
    - rewrite (deadlinePassed_none _ _ Hd) in Hdeadline.
      by injection Hdeadline as <-. }
  assert (Htoken : wait msg1 ≠ "").
  { rewrite assignWait_run in Hassign. injection Hassign as <- _.
    apply waitToken_nonempty. }
  assert (Hentry : closed w' = 0%N →
                   waitingMessages w' !! wait msg1 = Some (nextChan wb)).
  { intros Hc'.
    destruct (Write_false_waiting _ _ _ Hcb Hwrite) as [[_ Hwm]|[Hc1 _]].
    - rewrite Hwm. unfold registered. wsimpl. apply lookup_insert_eq.
    - by rewrite Hc1 in Hc'. }
  split; [done|]. split; [done|]. split.
  { intros Hc'.
    destruct (Write_false_waiting _ _ _ Hcb Hwrite) as [[Hc1 _]|[_ Hwm]]; done. }
  split.
  - intros Hc' Hnone reply Hreply. specialize (Hentry Hc').
    unfold handleMessage. rewrite Hreply.
    apply String.eqb_neq in Htoken. rewrite Htoken. cbn [negb].
    rewrite !bind_assoc, bind_get, Hentry, bind_assoc.
    by rewrite (bind_Blocks _ _ _ _ (chanSend_stuck _ reply w' Hnone)).
  - intros Hc' Hm'. split; [by apply Close_open|done].
Qed.

End Properties.

(** ** The theorems on the example run *)

#[local] Existing Instance exampleCollaborators.

(** The handshake on the client: the identifier is taken from the frame,
    the latch is set and [ack_ok] is sent. *)
Example handshake_client :
  let w := (readerTurn "ackc1" [] (exFresh false)).2 in
  id w = "c1" ∧ acknowledged w = 1%N ∧ trace w = [WriteText "ack_ok"].
Proof. vm_compute. done. Qed.

(** The handshake on the server: [ack] is answered with the identifier,
    [ack_ok] sets the latch. *)
Example handshake_server :
  let w1 := (readerTurn "ack" [] (exFresh true)).2 in
  let w2 := (readerTurn "ack_ok" [] w1).2 in
  acknowledged w1 = 0%N ∧ trace w1 = [WriteText "ackc1"]
  ∧ acknowledged w2 = 1%N ∧ trace w2 = [WriteText "ackc1"].
Proof. vm_compute. done. Qed.

(** A reader that gets a message before the acknowledgement and one after
    it, and then a read error: both are handled after [ack_ok] was sent, in
    the order of arrival, and the connection is closed. *)
Example reader_run :
  let r := startReader ["hello"; "ackc1"; "again"]
             (exWorld false 0%N {["chat" := exChat]} ∅ ∅ [] []) in
  r.1 = Returns tt
  ∧ trace r.2
    = [WriteText "ack_ok";
       FireEvent "chat" (exDeserialize "hello");
       FireEvent "chat" (exDeserialize "again");
       CloseCloseCh;
       FireEvent "chat" (forcedDisconnect exChat);
       NsDelete "chat";
       NetConnClose]
  ∧ closed r.2 = 1%N.
Proof. vm_compute. done. Qed.

(** [DisconnectAll] whose second ask is cancelled: [chat] is gone, [news]
    stays, the lock is released. *)
Example disconnect_all_run :
  let r := DisconnectAll (Some (mkContext None)) exTwo in
  r.1 = Returns (Some Canceled)
  ∧ rangeNamespaces (connectedNamespaces exTwo) = ["chat"; "news"]
  ∧ (map_to_list (connectedNamespaces r.2)).*1 = ["news"]
  ∧ connectedNamespacesMutex r.2 = false.
Proof. vm_compute. done. Qed.

(** C1, on the client whose caller waits for the reply to [client_7]. *)
Lemma handleMessage_reply_witness :
  handleMessage (exReply "client_7") exAwaited
  = (Returns true,
     set_receivers (receivers exAwaited ∖ {[0%nat]})
       (set_trace (trace exAwaited ++ [ChanSend 0 (exReply "client_7")]) exAwaited)).
Proof.
  refine (proj1 (handleMessage_reply (exReply "client_7") 0%nat exAwaited _ _) _).
  - discriminate.
  - vm_compute. reflexivity.
  - vm_compute. reflexivity.
Defined.

(** The ask that was cancelled left its entry, and nobody receives from it. *)
Lemma exCancelled_entry :
  waitingMessages exCancelled !! "client_1570000000000000000" = Some 0%nat
  ∧ receivers exCancelled = ∅.
Proof. split. vm_compute. reflexivity. vm_compute. reflexivity. Qed.

(** C1 as it was stated: a registered token is not enough.  The reply to the
    cancelled ask finds the entry, and the send never goes through. *)
Lemma handleMessage_reply_counterexample :
  ¬ (∀ (C : Collaborators) (msg : Message) (ch : nat) (w : World),
       wait msg ≠ "" → waitingMessages w !! wait msg = Some ch →
       ∃ w', handleMessage msg w = (Returns true, w')).
Proof.
  intros Hclaim.
  destruct (Hclaim exampleCollaborators (exReply "client_1570000000000000000")
              0%nat exCancelled) as [w' Hrun].
  - discriminate.
  - vm_compute. reflexivity.
  - vm_compute in Hrun. discriminate Hrun.
Qed.

(** [Close] on the server-side connection with two namespaces. *)
Example Close_once_run :
  ∃ w' entries,
    Close exJoined = (Returns tt, w')
    ∧ trace w' = trace exJoined ++ [CloseCloseCh] ++ (entries ≫= closedEntry)
                   ++ (if server exJoined then [ServerDisconnect] else [])
                   ++ [NetConnClose]
    ∧ entries ≡ₚ map_to_list (connectedNamespaces exJoined)
    ∧ connectedNamespaces w' = ∅
    ∧ waitingMessages w' = ∅
    ∧ acknowledged w' = 0%N
    ∧ closed w' = 1%N
    ∧ Close w' = (Returns tt, w').
Proof. apply (Close_once exJoined); reflexivity. Qed.

(** C3, on a server that reads a message, the [ack] of the client, an
    empty frame and another message before [ack_ok]: the two messages are
    handled after the flip, in the order of arrival. *)
Lemma startReader_backlog_witness :
  let pre := ["hello"; "ack"; ""; "world"] in
  let w := exUnacked true in
  let msgs := [] ++ backlog pre in
  let flipped := latched "ack_ok" (greeted pre w) in
  readerLoop pre [] w = (Returns tt, greeted pre w)
  ∧ readerLoop (pre ++ "ack_ok" :: ["later"]) [] w
    = bind (handledInOrder msgs) (λ _, readerLoop ["later"] []) flipped
  ∧ readerLoop (pre ++ "ack_ok" :: ["later"]) [] w
    = readerLoop ["later"] [] (set_trace (trace flipped ++ (msgs ≫= firing w)) flipped)
  ∧ msgs ≫= firing w
    = [FireEvent "chat" (exDeserialize "hello"); FireEvent "chat" (exDeserialize "world")].
Proof.
  destruct (startReader_backlog ["hello"; "ack"; ""; "world"] ["later"] "ack_ok" []
              (exUnacked true)) as (Hpre & Hloop & Hfired).
  - reflexivity.
  - repeat (constructor; [first [by left | by right]|]). constructor.
  - reflexivity.
  - discriminate.
  - split; [exact Hpre|]. split; [exact Hloop|]. split; [|vm_compute; reflexivity].
    apply Hfired; [reflexivity|].
    repeat (constructor;
            [split; [by left|];
             split; [repeat split; discriminate|];
             exists exChat; split; [vm_compute; reflexivity|reflexivity]|]).
    constructor.
Defined.

(** C3 as it was stated: on a server that is not acknowledged, the frame of
    a message for the namespace [acknowledgements] is neither [ack] nor
    [ack_ok], yet it is taken for the acknowledgement and not queued. *)
Lemma startReader_backlog_counterexample :
  ¬ (∀ (C : Collaborators) (b : bytes) (queue : list Message) (w : World),
       acknowledged w = 0%N → b ≠ "ack" → b ≠ "ack_ok" →
       ∃ w', readerTurn b queue w
             = (Returns (Continue (queue ++ [deserializeMessage b])), w')).
Proof.
  intros Hclaim.
  destruct (Hclaim exampleCollaborators "acknowledgements;;say;;hi" [] (exFresh true))
    as [w' Hrun]; [reflexivity|discriminate|discriminate|].
  vm_compute in Hrun. discriminate Hrun.
Qed.

(** C4, on a message for the room [vip] of [chat], which only has [lobby]. *)
Lemma Write_rejects_witness :
  Write (exSay "chat" "vip") exJoined = (Returns false, exJoined)
  ∧ trace (Write (exSay "chat" "vip") exJoined).2 = trace exJoined.
Proof.
  apply (Write_rejects (exSay "chat" "vip") exJoined); [reflexivity..|].
  right. exists exChat. repeat split; try reflexivity; discriminate.
Defined.

(** C4 as it was stated: a message of event [OnRoomLeft] is not a room
    join and not a room leave ([OnRoomLeave]), it names the room [vip],
    which is not joined, and [Write] writes it. *)
Lemma Write_rejects_counterexample :
  ¬ (∀ (C : Collaborators) (msg : Message) (ns : NSConn) (w : World),
       isConnect msg = false → isDisconnect msg = false →
       connectedNamespacesMutex w = false →
       connectedNamespaces w !! Namespace msg = Some ns →
       Room msg ≠ "" → Event msg ≠ OnRoomJoin → Event msg ≠ OnRoomLeave →
       Room msg ∉ rooms ns →
       Write msg w = (Returns false, w)).
Proof.
  intros Hclaim.
  assert (Hrun : Write exLeft exJoined = (Returns false, exJoined)).
  { apply (Hclaim exampleCollaborators exLeft exChat exJoined).
    - reflexivity.
    - reflexivity.
    - reflexivity.
    - vm_compute. reflexivity.
    - discriminate.
    - discriminate.
    - discriminate.
    - vm_compute. intros Hin. discriminate Hin. }
  vm_compute in Hrun. discriminate Hrun.
Qed.



(** C6, with a deadline two seconds in the past. *)
Lemma Ask_deadline_exceeded_witness :
  Ask (Some (mkContext (Some 1569999998000000000))) (exSay "chat" "") exJoined
  = (Returns (Message0, Some DeadlineExceeded),
     set_clockReads (S (S (clockReads exJoined))) exJoined).
Proof.
  apply (Ask_deadline_exceeded exJoined (mkContext (Some 1569999998000000000))
           1569999998000000000).
  - reflexivity.
  - reflexivity.
  - vm_compute. reflexivity.
Defined.

(** C7, on the connected namespace [chat] of the server, and on a client
    that connects to [chat] and then connects again. *)
Lemma Connect_connected_witness :
  Connect None "chat" exJoined = (Returns (Some exChat, None), exJoined)
  ∧ Connect None "chat" exConnected
    = (Returns (Some (newNSConn "chat" exEvents), None), exConnected).
Proof.
  split.
  - apply (Connect_connected None "chat" exChat exJoined).
    + vm_compute. reflexivity.
    + reflexivity.
    + right. discriminate.
  - apply (proj2 (Connect_connected None "chat" (newNSConn "chat" exEvents) exConnected)
             None (exWorld false 1%N ∅ ∅ ∅ [] [Receive (exReply "client_1570000000000000000")])).
    + reflexivity.
    + vm_compute. reflexivity.
Defined.

(** C8, on the namespace whose handler refuses to disconnect, the socket
    taking the reply: the entry stays. *)
Lemma replyDisconnect_server_witness :
  let e := OtherError "stay" in
  let reply := set_Err (Some e) exDisconnectAsk in
  let w' := written (serializeMessage reply) (afterFire exGuarded exDisconnectAsk exServed) in
  replyDisconnect exDisconnectAsk exServed = (Returns tt, w')
  ∧ trace w'
    = trace exServed ++ [FireEvent (namespace exGuarded) exDisconnectAsk;
                         WriteText (serializeMessage reply)]
        ++ (if writeCloses exServed then closing exServed else [])
  ∧ connectedNamespaces w'
    = (if writeCloses exServed then ∅ else connectedNamespaces exServed).
Proof.
  refine (replyDisconnect_server exDisconnectAsk exGuarded exServed _ _ _ _ _ _ _).
  - reflexivity.
  - reflexivity.
  - reflexivity.
  - discriminate.
  - reflexivity.
  - reflexivity.
  - vm_compute. reflexivity.
Defined.

(** C8 as it was stated: the handler refuses, the socket reports a close
    on the write of the reply, [Write] closes the connection and [Close]
    removes the namespace that the handler wanted to keep. *)
Lemma replyDisconnect_server_counterexample :
  ¬ (∀ (C : Collaborators) (msg : Message) (ns : NSConn) (e : error) (w w' : World),
       server w = true → closed w = 0%N → connectedNamespacesMutex w = false →
       wait msg ≠ "" → isNoOp msg = false → Event msg = OnNamespaceDisconnect →
       connectedNamespaces w !! Namespace msg = Some ns →
       events ns msg = Some e →
       replyDisconnect msg w = (Returns tt, w') →
       connectedNamespaces w' !! Namespace msg = Some ns).
Proof.
  intros Hclaim.
  assert (Hkept : connectedNamespaces
                    (replyDisconnect exDisconnectAsk exServedDropped).2
                    !! Namespace exDisconnectAsk = Some exGuarded).
  { apply (Hclaim exampleCollaborators exDisconnectAsk exGuarded (OtherError "stay")
             exServedDropped).
    - reflexivity.
    - reflexivity.
    - reflexivity.
    - discriminate.
    - reflexivity.
    - reflexivity.
    - vm_compute. reflexivity.
    - reflexivity.
    - vm_compute. reflexivity. }
  vm_compute in Hkept. discriminate Hkept.
Qed.

(** C9, on a message for a namespace that is not connected: [Write] rejects
    it, the entry stays, a reply with the token waits on the send, and
    [Close] clears the entry. *)
Lemma Ask_write_failed_witness :
  let w := exFresh false in
  let msg1 := set_wait "client_1570000000000000000" (exSay "admin" "") in
  let wb := set_clockReads 1 w in
  let w' := registered (wait msg1) wb in
  Ask None (exSay "admin" "") w = (Returns (Message0, Some ErrWrite), w')
  ∧ (closed w' = 0%N → waitingMessages w' !! wait msg1 = Some (nextChan wb))
  ∧ (closed w' ≠ 0%N → waitingMessages w' = ∅)
  ∧ (closed w' = 0%N → nextChan wb ∉ receivers w' →
     ∀ reply, wait reply = wait msg1 → handleMessage reply w' = (Blocks, w'))
  ∧ (closed w' = 0%N → connectedNamespacesMutex w' = false →
     Close w' = (Returns tt, closeWorld w') ∧ waitingMessages (closeWorld w') = ∅).
Proof.
  intros w msg1 wb w'.
  apply (Ask_write_failed None (exSay "admin" "") msg1 w wb wb w').
  - reflexivity.
  - vm_compute. reflexivity.
  - reflexivity.
  - vm_compute. reflexivity.
Defined.

(** C9 as it was stated: the socket reports a close, [Write] closes the
    connection and the entry of the ask is gone when [Ask] returns. *)
Lemma Ask_write_failed_counterexample :
  ¬ (∀ (C : Collaborators) (ctx : option Context) (msg msg1 : Message)
       (w wa wb w' : World),
       closed w = 0%N →
       assignWait msg w = (Returns msg1, wa) →
       deadlinePassed ctx wa = (Returns false, wb) →
       Write msg1 (registered (wait msg1) wb) = (Returns false, w') →
       Ask ctx msg w = (Returns (Message0, Some ErrWrite), w')
       ∧ is_Some (waitingMessages w' !! wait msg1)).
Proof.
  intros Hclaim.
  pose (msg1 := set_wait "client_1570000000000000000" (exSay "chat" "")).
  pose (wb := set_clockReads 1 exDropped).
  destruct (Hclaim exampleCollaborators None (exSay "chat" "") msg1 exDropped wb wb
              (Write msg1 (registered (wait msg1) wb)).2) as [_ [ch Hch]].
  - reflexivity.
  - vm_compute. reflexivity.
  - reflexivity.
  - vm_compute. reflexivity.
  - vm_compute in Hch. discriminate Hch.
Qed.

(** C10, on the client with two namespaces: [chat] is disconnected, the ask
    for [news] is cancelled. *)
Lemma DisconnectAll_stops_witness :
  let ctx := Some (mkContext None) in
  let locked := set_connectedNamespacesMutex true exTwo in
  let w1 := (rangeLoop ["chat"] (disconnectOne ctx) locked).2 in
  let w2 := (disconnectOne ctx "news" exNews w1).2 in
  DisconnectAll ctx exTwo = (Returns (Some Canceled), set_connectedNamespacesMutex false w2)
  ∧ (∀ k, k ∈ ["news"] →
       is_Some (connectedNamespaces exTwo !! k)
       ∧ connectedNamespaces w2 !! k = connectedNamespaces exTwo !! k)
  ∧ (∀ k, k ∈ ["chat"] → connectedNamespaces w2 !! k = None).
Proof.
  intros ctx locked w1 w2.
  apply (DisconnectAll_stops ctx Canceled ["chat"] [] "news" exNews exTwo w1 w2).
  - reflexivity.
  - vm_compute. reflexivity.
  - vm_compute. reflexivity.
  - vm_compute. reflexivity.
Defined.

(** C2, where the code fails it.  The socket reports a close while
    [DisconnectAll] asks to disconnect the first namespace: [Write] calls
    [Close], which wins the compare-and-set, closes [closeCh] and then waits
    for the lock that [DisconnectAll] holds.  No disconnect event is fired,
    both maps keep their entries, [acknowledged] is still 1, the net
    connection is not closed, and nothing returns. *)
Lemma Close_inside_DisconnectAll :
  let r := DisconnectAll None exDroppedTwo in
  r.1 = Blocks
  ∧ closed r.2 = 1%N
  ∧ trace r.2
    = [WriteText "chat;;_OnNamespaceDisconnect;client_1570000000000000000;";
       CloseCloseCh]
  ∧ connectedNamespaces r.2 = connectedNamespaces exDroppedTwo
  ∧ waitingMessages r.2 ≠ ∅
  ∧ acknowledged r.2 = 1%N
  ∧ connectedNamespacesMutex r.2 = true.
Proof. vm_compute. repeat split; try reflexivity. discriminate. Qed.

(** X1, after the [Close] of the server-side connection with two namespaces. *)
Lemma Close_then_inert_witness :
  let w' := closeWorld exJoined in
  (∀ msg, Write msg w' = (Returns false, w'))
  ∧ (∀ ctx msg, Ask ctx msg w' = (Returns (msg, Some (CloseError (-1) ErrWrite)), w'))
  ∧ (∀ frames, startReader frames w' = (Returns tt, w'))
  ∧ Close w' = (Returns tt, w').
Proof.
  apply (Close_then_inert exJoined (closeWorld exJoined)).
  vm_compute. reflexivity.
Defined.

(** X2, on a message for the room [lobby] of [chat], which is joined. *)
Lemma Write_true_sent_witness :
  let msg := exSay "chat" "lobby" in
  let w' := sent (serializeMessage msg) exJoined in
  w' = sent (serializeMessage msg) exJoined
  ∧ closed exJoined = 0%N
  ∧ writeResult exJoined = None
  ∧ (isConnect msg = true ∨ isDisconnect msg = true
     ∨ ∃ ns, connectedNamespaces exJoined !! Namespace msg = Some ns
             ∧ (Room msg = "" ∨ isRoomJoin msg = true ∨ isRoomLeft msg = true
                ∨ Room msg ∈ rooms ns)).
Proof.
  apply (Write_true_sent (exSay "chat" "lobby") exJoined).
  vm_compute. reflexivity.
Defined.

(** X3, on the client whose socket reports a close. *)
Lemma Write_socket_error_witness :
  let msg := exSay "chat" "" in
  let e := CloseError 1006 (OtherError "broken pipe") in
  let w := exDroppedTwo in
  ∃ w', Write msg w = (Returns false, w')
    ∧ (IsCloseError e = false → w' = sent (serializeMessage msg) w)
    ∧ (IsCloseError e = true →
       ∃ entries,
         entries ≡ₚ map_to_list (connectedNamespaces w)
         ∧ trace w' = trace w ++ [WriteText (serializeMessage msg); CloseCloseCh]
                        ++ (entries ≫= closedEntry)
                        ++ (if server w then [ServerDisconnect] else []) ++ [NetConnClose]
         ∧ closed w' = 1%N ∧ connectedNamespaces w' = ∅ ∧ waitingMessages w' = ∅
         ∧ acknowledged w' = 0%N).
Proof.
  apply (Write_socket_error (exSay "chat" "")
           (CloseError 1006 (OtherError "broken pipe")) exDroppedTwo).
  - reflexivity.
  - reflexivity.
  - vm_compute. reflexivity.
  - reflexivity.
Defined.

(** X4, on the token that a client assigns at the first reading of its clock. *)
Lemma assignWait_token_witness :
  let msg := exSay "chat" "" in
  let m := set_wait "client_1570000000000000000" msg in
  m = set_wait (wait m) msg
  ∧ wait m ≠ ""
  ∧ (∀ msg2 m2 w2 w2',
       server w2 ≠ server exAwaited → assignWait msg2 w2 = (Returns m2, w2') →
       wait m2 ≠ wait m).
Proof.
  apply (assignWait_token (exSay "chat" "") _ exAwaited (set_clockReads 1 exAwaited)).
  vm_compute. reflexivity.
Defined.

(** X5, on a client whose ask on [chat] is answered under its token. *)
Lemma Ask_reply_witness :
  let msg := exSay "chat" "" in
  let reply := exReply "client_1570000000000000000" in
  let w := exAsking [Receive reply] in
  let w' := answered reply (asked None msg w) in
  Ask None msg w = (Returns (reply, Err reply), w')
  ∧ trace w' = trace w ++ [WriteText (serializeMessage (set_wait (askToken w) msg))]
  ∧ waitingMessages w'
    = delete (wait reply) (<[askToken w := nextChan w]> (waitingMessages w))
  ∧ (wait reply = askToken w → waitingMessages w !! askToken w = None →
     waitingMessages w' = waitingMessages w).
Proof.
  apply (Ask_reply None (exSay "chat" "") (exReply "client_1570000000000000000") []
           (exAsking [Receive (exReply "client_1570000000000000000")])).
  - reflexivity.
  - reflexivity.
  - vm_compute. reflexivity.
  - reflexivity.
  - reflexivity.
  - reflexivity.
Defined.

(** X6, on the same client when its context is cancelled. *)
Lemma Ask_cancelled_witness :
  let msg := exSay "chat" "" in
  let w := exAsking [CtxDone Canceled] in
  ∃ w', Ask (Some (mkContext None)) msg w = (Returns (Message0, Some Canceled), w')
    ∧ trace w' = trace w ++ [WriteText (serializeMessage (set_wait (askToken w) msg))]
    ∧ waitingMessages w' = <[askToken w := nextChan w]> (waitingMessages w)
    ∧ closed w' = 0%N.
Proof.
  apply (Ask_cancelled (mkContext None) (exSay "chat" "") Canceled []
           (exAsking [CtxDone Canceled])).
  - reflexivity.
  - reflexivity.
  - vm_compute. reflexivity.
  - reflexivity.
  - reflexivity.
  - reflexivity.
Defined.

(** X7, on a connect ask for [chat], which the server has connected already:
    the answer is the no-op. *)
Lemma replyConnect_answers_witness :
  let msg := exConnectAsk in
  let w := exJoined in
  ∃ w', replyConnect msg w = (Returns tt, w')
    ∧ framesOf (trace w')
      = framesOf (trace w)
          ++ (if (closed w =? 0)%N then [serializeMessage (set_isNoOp true msg)] else [])
    ∧ wait (set_isNoOp true msg) = wait msg.
Proof.
  apply (replyConnect_answers exConnectAsk exJoined).
  - reflexivity.
  - discriminate.
  - reflexivity.
  - reflexivity.
Defined.

(** X8, on a connect ask for [chat] that reaches a server with no namespace
    connected. *)
Lemma replyConnect_connects_witness :
  let msg := exConnectAsk in
  let w := exFresh true in
  let c := newNSConn "chat" exEvents in
  let w' := afterFire c (set_Event OnNamespaceConnected msg)
              (written (serializeMessage msg) (inserted "chat" c (afterFire c msg w))) in
  replyConnect msg w = (Returns tt, w')
  ∧ trace w'
    = trace w ++ [FireEvent "chat" msg; NsInsert "chat"; WriteText (serializeMessage msg)]
        ++ (if writeCloses w then closing (inserted "chat" c w) else [])
        ++ [FireEvent "chat" (set_Event OnNamespaceConnected msg)]
  ∧ connectedNamespaces w'
    = (if writeCloses w then ∅ else <["chat" := c]> (connectedNamespaces w)).
Proof.
  refine (replyConnect_connects exConnectAsk exEvents (exFresh true) _ _ _ _ _ _ _).
  - reflexivity.
  - reflexivity.
  - discriminate.
  - reflexivity.
  - reflexivity.
  - vm_compute. reflexivity.
  - vm_compute. reflexivity.
Defined.

(** X9, on a client that connects to [chat]. *)
Lemma Connect_accepts_witness :
  let w := exArriving [Receive (exReply "client_1570000000000000000")] in
  let c := newNSConn "chat" exEvents in
  ∃ w', Connect None "chat" w = (Returns (Some c, None), w')
    ∧ connectedNamespaces w' = <["chat" := c]> (connectedNamespaces w)
    ∧ connectedNamespacesMutex w' = false
    ∧ trace w'
      = trace w ++ [WriteText (serializeMessage (set_wait (askToken w) (connectMessage "chat")));
                    FireEvent "chat" (connectMessage "chat");
                    NsInsert "chat";
                    FireEvent "chat" (set_Event OnNamespaceConnected (connectMessage "chat"))].
Proof.
  apply (Connect_accepts None "chat" exEvents (exReply "client_1570000000000000000") []
           (exArriving [Receive (exReply "client_1570000000000000000")])).
  - by left.
  - reflexivity.
  - reflexivity.
  - vm_compute. reflexivity.
  - vm_compute. reflexivity.
  - reflexivity.
  - reflexivity.
  - reflexivity.
  - reflexivity.
  - reflexivity.
Defined.

(** X10, on a client whose peer answers [ErrBadNamespace]. *)
Lemma Connect_refused_witness :
  let w := exArriving [Receive exRefusal] in
  ∃ w', Connect None "chat" w = (Returns (None, Some ErrBadNamespace), w')
    ∧ connectedNamespaces w' = connectedNamespaces w
    ∧ connectedNamespacesMutex w' = false
    ∧ trace w'
      = trace w ++ [WriteText (serializeMessage (set_wait (askToken w) (connectMessage "chat")))]
          ++ match Err exRefusal with
             | Some _ => []
             | None => [FireEvent "chat" (connectMessage "chat")]
             end.
Proof.
  apply (Connect_refused None "chat" exEvents exRefusal [] ErrBadNamespace
           (exArriving [Receive exRefusal])).
  - by left.
  - reflexivity.
  - reflexivity.
  - vm_compute. reflexivity.
  - vm_compute. reflexivity.
  - reflexivity.
  - reflexivity.
  - reflexivity.
  - by left.
Defined.

(** X11, on the namespace [admin], which is not declared. *)
Lemma Connect_undeclared_witness :
  Connect None "admin" (exFresh false)
  = (Returns (None, Some ErrBadNamespace), exFresh false).
Proof.
  apply (Connect_undeclared None "admin" (exFresh false)).
  - by left.
  - reflexivity.
  - vm_compute. reflexivity.
  - vm_compute. reflexivity.
Defined.

(** X12, after the [Close] of a server-side connection and of a client. *)
Lemma Connect_after_Close_witness :
  Connect None "chat" (closeWorld exJoined) = (Blocks, closeWorld exJoined)
  ∧ Connect None "chat" (closeWorld exAwaited)
    = (Returns (None, Some (CloseError (-1) ErrWrite)), closeWorld exAwaited).
Proof.
  split.
  - apply (proj1 (Connect_after_Close None "chat" exJoined (closeWorld exJoined)
                    eq_refl (Close_open exJoined eq_refl eq_refl))).
    reflexivity.
  - apply (proj2 (Connect_after_Close None "chat" exAwaited (closeWorld exAwaited)
                    eq_refl (Close_open exAwaited eq_refl eq_refl))).
    + reflexivity.
    + exists exEvents. vm_compute. reflexivity.
Defined.

(** X13, on a namespace whose handler refuses to disconnect: it is removed
    all the same. *)
Lemma askDisconnect_outcome_witness :
  let msg := set_wait "" exDisconnectAsk in
  let reply := exReply "client_1570000000000000000" in
  let w := exWorld false 1%N {["chat" := exGuarded]} ∅ ∅ [] [Receive reply] in
  ∃ w', askDisconnect None msg true w = (Returns (Err reply), w')
    ∧ connectedNamespacesMutex w' = false
    ∧ match Err reply with
      | Some _ =>
          connectedNamespaces w' = connectedNamespaces w
          ∧ trace w' = trace w ++ [WriteText (serializeMessage (set_wait (askToken w) msg))]
      | None =>
          connectedNamespaces w' = delete (Namespace msg) (connectedNamespaces w)
          ∧ trace w'
            = trace w ++ [WriteText (serializeMessage (set_wait (askToken w) msg));
                          NsDelete (Namespace msg);
                          FireEvent (namespace exGuarded) (set_IsLocal true msg)]
      end.
Proof.
  apply (askDisconnect_outcome None (set_wait "" exDisconnectAsk)
           (exReply "client_1570000000000000000") exGuarded []
           (exWorld false 1%N {["chat" := exGuarded]} ∅ ∅ []
              [Receive (exReply "client_1570000000000000000")])).
  - reflexivity.
  - reflexivity.
  - vm_compute. reflexivity.
  - vm_compute. reflexivity.
  - reflexivity.
  - reflexivity.
  - reflexivity.
Defined.

(** X14, on a client whose handler refuses to disconnect. *)
Lemma replyDisconnect_client_witness :
  let msg := exDisconnectAsk in
  let w := exWorld false 1%N {["chat" := exGuarded]} ∅ ∅ [] [] in
  let w' := afterFire exGuarded msg
              (written (serializeMessage msg) (deleted (Namespace msg) w)) in
  replyDisconnect msg w = (Returns tt, w')
  ∧ trace w'
    = trace w ++ [NsDelete (Namespace msg); WriteText (serializeMessage msg)]
        ++ (if writeCloses w then closing (deleted (Namespace msg) w) else [])
        ++ [FireEvent (namespace exGuarded) msg]
  ∧ connectedNamespaces w' !! Namespace msg = None
  ∧ framesOf (trace w') = framesOf (trace w) ++ [serializeMessage msg].
Proof.
  apply (replyDisconnect_client exDisconnectAsk exGuarded
           (exWorld false 1%N {["chat" := exGuarded]} ∅ ∅ [] [])).
  - reflexivity.
  - reflexivity.
  - reflexivity.
  - discriminate.
  - reflexivity.
  - reflexivity.
  - vm_compute. reflexivity.
Defined.

(** X15, on a message for [admin], which is not connected. *)
Lemma handleMessage_unconnected_witness :
  let msg := exSay "admin" "" in
  handleMessage msg exJoined = (Returns true, exJoined)
  ∧ (Event msg ≠ OnNamespaceDisconnect →
     tryNamespace msg exJoined = (Returns None, exJoined)
     ∧ Write (set_Err (Some ErrBadNamespace) msg) exJoined = (Returns false, exJoined)).
Proof.
  apply (handleMessage_unconnected (exSay "admin" "") exJoined).
  - reflexivity.
  - by left.
  - discriminate.
  - vm_compute. reflexivity.
Defined.

(** X16, on a no-op answer to a connect ask that nobody waits for. *)
Lemma handleMessage_ignores_witness :
  handleMessage (set_isNoOp true exConnectAsk) exJoined = (Returns true, exJoined).
Proof.
  apply (handleMessage_ignores (set_isNoOp true exConnectAsk) exJoined).
  - by left.
  - right. split; [reflexivity|]. vm_compute. reflexivity.
Defined.

(** X17, on a namespace whose handlers ask to close the connection. *)
Lemma handleMessage_event_witness :
  let msg := exSay "chat" "" in
  let w := exWorld true 1%N {["chat" := exKicked]} ∅ ∅ [] [] in
  let e := CloseError 1000 (OtherError "bye") in
  handleMessage msg w
  = (Returns (negb (isManualCloseError e)),
     if writes msg w
     then written (serializeMessage (set_Err (Some e) (set_IsLocal false msg)))
                  (afterFire exKicked (set_IsLocal false msg) w)
     else afterFire exKicked (set_IsLocal false msg) w).
Proof.
  refine (handleMessage_event (exSay "chat" "") exKicked
            (exWorld true 1%N {["chat" := exKicked]} ∅ ∅ [] []) _ _ _ _).
  - reflexivity.
  - by left.
  - repeat split; discriminate.
  - vm_compute. reflexivity.
Defined.

(** X18, on a reader that gets one frame and then a read error. *)
Lemma startReader_closes_witness :
  closed (startReader ["hello"] (exAsking [])).2 ≠ 0%N.
Proof.
  apply (startReader_closes ["hello"] (exAsking [])).
  vm_compute. reflexivity.
Defined.

(** X19, on a reader whose first message makes the handler ask for the
    close; a second frame is waiting. *)
Lemma startReader_manual_close_witness :
  let w := exWorld true 1%N {["chat" := exKicked]} ∅ ∅ [] [] in
  let msg := deserializeMessage "bye" in
  let msg' := set_IsLocal false msg in
  let e := CloseError 1000 (OtherError "bye") in
  startReader ["bye"; "more"] w
  = Close (if accepted msg w
           then written (serializeMessage (set_Err (Some e) msg')) (afterFire exKicked msg' w)
           else afterFire exKicked msg' w).
Proof.
  apply (startReader_manual_close "bye" ["more"] exKicked
           (CloseError 1000 (OtherError "bye"))
           (exWorld true 1%N {["chat" := exKicked]} ∅ ∅ [] [])).
  - reflexivity.
  - discriminate.
  - reflexivity.
  - reflexivity.
  - by left.
  - repeat split; discriminate.
  - vm_compute. reflexivity.
  - reflexivity.
  - reflexivity.
Defined.

(** X27, on the handshake frame of a client whose backlog holds a message
    that makes the handler ask for the close. *)
Lemma readerTurn_before_ack_witness :
  let w := exWorld false 0%N {["chat" := exKicked]} ∅ ∅ [] [] in
  let r := readerTurn "ackc1" [exDeserialize "bye"] w in
  r.1 = Returns (Continue [])
  ∧ ∃ queue', Continue [] = Continue queue'.
Proof.
  split; [vm_compute; reflexivity|].
  apply (readerTurn_before_ack "ackc1" [exDeserialize "bye"] (Continue [])
           (exWorld false 0%N {["chat" := exKicked]} ∅ ∅ [] [])
           (readerTurn "ackc1" [exDeserialize "bye"]
              (exWorld false 0%N {["chat" := exKicked]} ∅ ∅ [] [])).2).
  - reflexivity.
  - vm_compute. reflexivity.
Defined.

(** X20, between a server-side connection with the identifier [c1] and a
    client with none. *)
Lemma handshake_round_trip_witness :
  let ws := exFresh true in
  let wc := set_id "" (exFresh false) in
  let frame := ackBinary +:+ id ws in
  readerTurn ackBinary [] ws = (Returns (Continue []), sent frame ws)
  ∧ readerTurn frame [] wc
    = (Returns (Continue []),
       sent ackOKBinary (set_acknowledged 1%N (set_id (id ws) wc)))
  ∧ readerTurn ackOKBinary [] (sent frame ws)
    = (Returns (Continue []), set_acknowledged 1%N (sent frame ws)).
Proof.
  apply (handshake_round_trip (exFresh true) (set_id "" (exFresh false)));
    reflexivity.
Defined.

(** X23, on a client with two namespaces whose two asks are answered. *)
Lemma DisconnectAll_done_witness :
  let w := exWorld false 1%N {["chat" := exChat; "news" := exNews]} ∅ ∅ []
             [Receive (exReply "client_1570000000000000000");
              Receive (exReply "client_1570000000000000001")] in
  connectedNamespaces (DisconnectAll None w).2 = ∅
  ∧ connectedNamespacesMutex (DisconnectAll None w).2 = false.
Proof.
  apply (proj2 (DisconnectAll_done None
           (exWorld false 1%N {["chat" := exChat; "news" := exNews]} ∅ ∅ []
              [Receive (exReply "client_1570000000000000000");
               Receive (exReply "client_1570000000000000001")]) eq_refl)).
  vm_compute. reflexivity.
Defined.

(** X24, on the connected namespace [chat] of the server. *)
Lemma WaitConnect_returns_witness :
  exJoined = exJoined
  ∧ Some exChat = connectedNamespaces exJoined !! "chat" ∧ is_Some (Some exChat)
    ∧ acknowledged exJoined ≠ 0%N.
Proof.
  apply (WaitConnect_returns None [None] "chat" (Some exChat) None exJoined exJoined).
  - reflexivity.
  - vm_compute. reflexivity.
Defined.

(** X25, on the namespace [admin], which is not connected, for three turns. *)
Lemma WaitConnect_waits_witness :
  WaitConnect (Some (mkContext None)) [None; None; None] "admin" exJoined
  = (Blocks, exJoined).
Proof.
  apply (WaitConnect_waits (Some (mkContext None)) [None; None; None] "admin" exJoined).
  - reflexivity.
  - left. vm_compute. reflexivity.
  - right. repeat constructor.
Defined.

(** X26, with a context that is cancelled already. *)
Lemma WaitConnect_connected_witness :
  WaitConnect (Some (mkContext None)) [Some Canceled] "chat" exJoined
  = (Returns (None, Some Canceled), exJoined).
Proof.
  apply (WaitConnect_connected (Some (mkContext None)) (Some Canceled) [] "chat"
           exChat exJoined).
  - reflexivity.
  - vm_compute. reflexivity.
  - discriminate.
Defined.

(** X22, with room replies that do nothing. *)
Lemma reader_orderly_witness :
  (∀ msg, Post Orderly (handleMessage msg))
  ∧ (∀ frames, Post Orderly (startReader frames)).
Proof.
  apply reader_orderly; intros ns msg w [] w' Hrun; injection Hrun as <-;
    apply Orderly_refl.
Defined.
